(** * Schema-typed Redis records: the codec, the key space and the executor

    A shallow embedding of [redis-model-controller.ts] (the classes
    [RedisSchemaExecutor], [RedisSchema]) and of [utils/seal-json-parser.ts]
    ([fromCompressedArray], [sealJsonParser]), together with the parts of the
    JavaScript run time and of the collaborating libraries that these
    functions rely on: JavaScript values, JSON text, the seal schema
    library, the Redis client and the timer driven readiness gate. *)

From Stdlib Require Import ZArith List String Ascii Bool Lia.
From Stdlib Require Import Permutation Finite DecimalString.
From stdpp Require Import gmap strings list fin_maps.

Local Open Scope string_scope.
Local Open Scope Z_scope.
Local Open Scope list_scope.

Set Warnings "-register-all".

(** ** JavaScript values *)

(** A number.  A finite number other than zero is held by the shortest
    decimal that denotes it, [s * 10^e] with [s] not a multiple of 10: the
    digits that [Number::toString] prints.  An integer is [NInt n], zero
    among them; a number with a fraction is [NFrac s places], which stands
    for [s * 10^(-places)].  Not every decimal is the shortest decimal of a
    double: [isDouble], below, tells which are. *)
Inductive JsNumber : Type :=
| NInt (n : Z)
| NFrac (s : Z) (places : positive)
| NNegZero
| NNaN
| NInfinity (negative : bool).

Coercion NInt : Z >-> JsNumber.

(** The values that the codec handles.  A string is the string of the
    bytes of its UTF-8 text; a surrogate that is not half of a pair is held
    by the three bytes that the scheme of UTF-8 gives for its code.  An
    object is the list of its own enumerable properties in the order in
    which [Object.keys] enumerates them.  Inherited members ([toString],
    [constructor], the array methods) are not part of the model. *)
Inductive JsValue : Type :=
| VUndefined
| VNull
| VBool (b : bool)
| VNum (n : JsNumber)
| VStr (s : string)
| VArr (elems : list JsValue)
| VObj (props : list (string * JsValue)).

(** The errors that the modelled code raises. *)
Inductive JsError : Type :=
| KeyNotFound (key : string)   (* new Error(`Key ${ key } not found`) *)
| InputNotArray                (* new Error("Input must be a JSON array string") *)
| SyntaxError                  (* JSON.parse on text that is not JSON *)
| TypeError                    (* property access on null or undefined *)
| InitializationTimeout.       (* new Error("Redis initialization timeout, ...") *)

(** How the evaluation of a synchronous piece of code ends. *)
Inductive Completion (A : Type) : Type :=
| Normal (a : A)
| Thrown (e : JsError).
Arguments Normal {A} a.
Arguments Thrown {A} e.

Definition bindC {A B : Type} (c : Completion A) (k : A -> Completion B) : Completion B :=
  match c with
  | Normal a => k a
  | Thrown e => Thrown e
  end.

Notation "'let*' x ':=' c 'in' k" := (bindC c (fun x => k))
  (at level 10, x name, c at level 100, k at level 200).

Fixpoint mapC {A B : Type} (f : A -> Completion B) (l : list A) : Completion (list B) :=
  match l with
  | [] => Normal []
  | a :: l' =>
      let* b := f a in
      let* bs := mapC f l' in
      Normal (b :: bs)
  end.

(** [typeof v === "object"]: true of [null], of arrays and of objects. *)
Definition typeofObject (v : JsValue) : bool :=
  match v with
  | VNull | VArr _ | VObj _ => true
  | _ => false
  end.

(** JavaScript truthiness: what [if (v)], [!v] and [v && ...] test. *)
Definition truthy (v : JsValue) : bool :=
  match v with
  | VUndefined | VNull => false
  | VBool b => b
  | VNum (NInt n) => negb (n =? 0)
  | VNum (NFrac s _) => negb (s =? 0)
  | VNum NNegZero | VNum NNaN => false
  | VNum (NInfinity _) => true
  | VStr s => negb (String.eqb s EmptyString)
  | VArr _ | VObj _ => true
  end.

(** Decimal text of an array index, as in the property name of an element. *)
Definition indexName (i : nat) : string :=
  NilZero.string_of_uint (Nat.to_uint i).

(** ** The seal schema library *)

Inductive PrimitiveKind : Type := PString | PNumber | PBoolean.

(** A seal schema.  [SObject] carries [__$shape]: the field schemas in
    declaration order. *)
Inductive Schema : Type :=
| SPrimitive (kind : PrimitiveKind)
| SNullable (inner : Schema)
| SArray (item : Schema)
| SObject (shape : list (string * Schema)).

(** [schema instanceof ObjectSchema] *)
Definition instanceofObjectSchema (schema : Schema) : bool :=
  match schema with
  | SObject _ => true
  | _ => false
  end.

Definition primitiveName (kind : PrimitiveKind) : string :=
  match kind with
  | PString => "string"
  | PNumber => "number"
  | PBoolean => "boolean"
  end.

(** Modelled from the spec: [seal.exportMetadataOf] belongs to the seal
    library, which the specification describes as [describe(schema)],
    returning the ordered field list.  The description of an object schema
    has a [shape] property that lists the fields in declaration order; the
    description of any other schema has none. *)
Fixpoint exportMetadataOf (schema : Schema) : JsValue :=
  match schema with
  | SPrimitive kind => VObj [("type", VStr (primitiveName kind))]
  | SNullable inner => VObj [("type", VStr "nullable"); ("inner", exportMetadataOf inner)]
  | SArray item => VObj [("type", VStr "array"); ("item", exportMetadataOf item)]
  | SObject shape =>
      VObj [("type", VStr "object");
            ("shape", VObj (List.map (fun field => (fst field, exportMetadataOf (snd field))) shape))]
  end.

(** ** Property access *)

(** [props[key]] on the own properties of an object. *)
Fixpoint lookupProp (props : list (string * JsValue)) (key : string) : JsValue :=
  match props with
  | [] => VUndefined
  | (k, v) :: rest => if String.eqb k key then v else lookupProp rest key
  end.

(** [elems[key]] for a property name that is the decimal text of an index;
    [from] is the index of the head of [elems]. *)
Fixpoint lookupIndex (elems : list JsValue) (from : nat) (key : string) : JsValue :=
  match elems with
  | [] => VUndefined
  | v :: rest => if String.eqb (indexName from) key then v else lookupIndex rest (S from) key
  end.

(** [value[key]], which the code reads off records, arrays and [null].
    Reading a property of [null] or [undefined] throws; the properties of
    booleans, numbers and strings are not modelled. *)
Definition getProp (value : JsValue) (key : string) : Completion JsValue :=
  match value with
  | VUndefined | VNull => Thrown TypeError
  | VObj props => Normal (lookupProp props key)
  | VArr elems =>
      if String.eqb key "length" then Normal (VNum (Z.of_nat (List.length elems)))
      else Normal (lookupIndex elems 0 key)
  | _ => Normal VUndefined
  end.

(** [Object.keys(value)], which the code applies to records; the keys of
    a string are not modelled. *)
Definition Object_keys (value : JsValue) : Completion (list string) :=
  match value with
  | VUndefined | VNull => Thrown TypeError
  | VObj props => Normal (List.map fst props)
  | VArr elems => Normal (List.map indexName (seq 0 (List.length elems)))
  | _ => Normal []
  end.

(** [Object.values(value)], which the code applies to records, arrays
    and [null]; the values of a string are not modelled. *)
Definition Object_values (value : JsValue) : Completion (list JsValue) :=
  match value with
  | VUndefined | VNull => Thrown TypeError
  | VObj props => Normal (List.map snd props)
  | VArr elems => Normal elems
  | _ => Normal []
  end.

(** [props[key] = value]: an existing property keeps its place, a new one
    goes last. *)
Fixpoint setProp (props : list (string * JsValue)) (key : string) (value : JsValue)
  : list (string * JsValue) :=
  match props with
  | [] => [(key, value)]
  | (k, v) :: rest =>
      if String.eqb k key then (k, value) :: rest else (k, v) :: setProp rest key value
  end.

(** [a || b] *)
Definition orElse (a b : JsValue) : JsValue := if truthy a then a else b.

(** ** The schema codec: encoding *)

Section Serialize.

(** [this.template] of the executor. *)
Variable template : Schema.

(** [Object.keys(seal.exportMetadataOf(this.template).shape || {})] *)
Definition schemaShapeKeys : Completion (list string) :=
  let* shape := getProp (exportMetadataOf template) "shape" in
  Object_keys (orElse shape (VObj [])).

(** [(v && typeof v === "object") ? recur(v) : v] *)
Definition serializeNested (recur : JsValue -> Completion JsValue) (v : JsValue)
  : Completion JsValue :=
  match v with
  | VArr _ | VObj _ => recur v
  | _ => Normal v
  end.

(** [RedisSchemaExecutor.serialize].  Every call, the nested ones too,
    reads the field names of [this.template].  The reads [payload[key]]
    and [Object.values(payload)] are written as loops over the properties
    or the items of [payload], so that the recursion is structural;
    [serialize_unfold] below states the function with [getProp] and
    [Object_values], as the source has it. *)
Fixpoint serialize (payload : JsValue) {struct payload} : Completion JsValue :=
  match payload with
  | VUndefined | VBool _ | VNum _ | VStr _ => Normal payload
  | VNull =>
      let* keys := schemaShapeKeys in
      match keys with
      | _ :: _ => Thrown TypeError      (* payload[key] *)
      | [] => Thrown TypeError          (* Object.values(payload) *)
      end
  | VObj props =>
      let* keys := schemaShapeKeys in
      match keys with
      | _ :: _ =>
          let* response :=
            mapC (fun key =>
                    (fix get (ps : list (string * JsValue)) : Completion JsValue :=
                       match ps with
                       | [] => Normal VUndefined
                       | (k, v) :: rest =>
                           if String.eqb k key then serializeNested serialize v else get rest
                       end) props) keys in
          Normal (VArr response)
      | [] =>
          let* response :=
            (fix values (ps : list (string * JsValue)) : Completion (list JsValue) :=
               match ps with
               | [] => Normal []
               | (_, v) :: rest =>
                   let* r := serializeNested serialize v in
                   let* rs := values rest in
                   Normal (r :: rs)
               end) props in
          Normal (VArr response)
      end
  | VArr elems =>
      let* keys := schemaShapeKeys in
      match keys with
      | _ :: _ =>
          let* response :=
            mapC (fun key =>
                    if String.eqb key "length"
                    then Normal (VNum (Z.of_nat (List.length elems)))
                    else
                      (fix get (es : list JsValue) (from : nat) : Completion JsValue :=
                         match es with
                         | [] => Normal VUndefined
                         | v :: rest =>
                             if String.eqb (indexName from) key
                             then serializeNested serialize v
                             else get rest (S from)
                         end) elems 0%nat) keys in
          Normal (VArr response)
      | [] =>
          let* response :=
            (fix values (es : list JsValue) : Completion (list JsValue) :=
               match es with
               | [] => Normal []
               | v :: rest =>
                   let* r := serializeNested serialize v in
                   let* rs := values rest in
                   Normal (r :: rs)
               end) elems in
          Normal (VArr response)
      end
  end.

End Serialize.

(** ** Numbers

    The doubles of IEEE 754, as far as the text of a number needs them:
    the double nearest to a decimal, which is how JavaScript reads the text
    of a number, and the shortest decimal that is read as a given double,
    which is what it prints. *)

Module Double.

(** What a positive decimal is rounded to: zero, the double [m * 2^q],
    where [0 < m < 2^53] and [-1074 <= q <= 971], or infinity. *)
Inductive Rounded : Type :=
| ToZero
| ToFinite (m q : Z)
| ToInfinity.

Definition Rounded_eqb (x y : Rounded) : bool :=
  match x, y with
  | ToZero, ToZero => true
  | ToFinite m q, ToFinite m' q' => (m =? m') && (q =? q')
  | ToInfinity, ToInfinity => true
  | _, _ => false
  end.

(** [2^l <= a / b], for positive [a] and [b] *)
Definition geqPow2 (a b l : Z) : bool :=
  if 0 <=? l then b * 2 ^ l <=? a else b <=? a * 2 ^ (- l).

(** [10^n <= a / b], for positive [a] and [b] *)
Definition geqPow10 (a b n : Z) : bool :=
  if 0 <=? n then b * 10 ^ n <=? a else b <=? a * 10 ^ (- n).

(** The integer part of the binary logarithm of [a / b]. *)
Definition floorLog2 (a b : Z) : Z :=
  let l := Z.log2 a - Z.log2 b in
  if geqPow2 a b l then l else l - 1.

(** [num / den] rounded to the nearest integer, a tie to the even one. *)
Definition roundHalfEven (num den : Z) : Z :=
  let m := num / den in
  match 2 * (num mod den) ?= den with
  | Lt => m
  | Gt => m + 1
  | Eq => if Z.even m then m else m + 1
  end.

(** The double nearest to [s * 10^e], for positive [s], a tie to the even
    significand.  The first two tests spare the work on a decimal that is
    far beyond the largest double or far below the smallest. *)
Definition round (s e : Z) : Rounded :=
  if 310 <=? e then ToInfinity
  else if e + (Z.log2 s + 1) / 3 + 1 <? -330 then ToZero
  else
    let a := if 0 <=? e then s * 10 ^ e else s in
    let b := if 0 <=? e then 1 else 10 ^ (- e) in
    let q := Z.max (floorLog2 a b - 52) (-1074) in
    let m := if 0 <=? q then roundHalfEven a (b * 2 ^ q)
             else roundHalfEven (a * 2 ^ (- q)) b in
    let q' := if m =? 2 ^ 53 then q + 1 else q in
    let m' := if m =? 2 ^ 53 then 2 ^ 52 else m in
    if m' =? 0 then ToZero
    else if 971 <? q' then ToInfinity
    else ToFinite m' q'.

(** The [n] with [10^(n-1) <= a / b < 10^n]. *)
Definition position (a b : Z) : Z :=
  let n0 := floorLog2 a b * 30103 / 100000 - 1 in
  if negb (geqPow10 a b n0) then n0
  else if negb (geqPow10 a b (n0 + 1)) then n0 + 1
  else if negb (geqPow10 a b (n0 + 2)) then n0 + 2
  else if negb (geqPow10 a b (n0 + 3)) then n0 + 3
  else n0 + 4.

(** The [s] of [k] digits, if there is one, for which [s * 10^(n-k)] is
    read as the double [m * 2^q]: of the two decimals of [k] digits next to
    the double the nearer one, the even one when they are as near. *)
Definition candidate (m q n k : Z) : option Z :=
  let a := if 0 <=? q then m * 2 ^ q else m in
  let b := if 0 <=? q then 1 else 2 ^ (- q) in
  let ta := if 0 <=? k - n then a * 10 ^ (k - n) else a in
  let tb := if 0 <=? k - n then b else b * 10 ^ (n - k) in
  let lo := ta / tb in
  let hi := lo + 1 in
  let okLo := (0 <? lo) && Rounded_eqb (round lo (n - k)) (ToFinite m q) in
  let okHi := Rounded_eqb (round hi (n - k)) (ToFinite m q) in
  match okLo, okHi with
  | true, true =>
      Some (match 2 * (ta mod tb) ?= tb with
            | Lt => lo
            | Gt => hi
            | Eq => if Z.even lo then lo else hi
            end)
  | true, false => Some lo
  | false, true => Some hi
  | false, false => None
  end.

Fixpoint shortestFrom (ks : list Z) (m q n : Z) : Z * Z :=
  match ks with
  | [] => (m, 0)
  | k :: rest =>
      match candidate m q n k with
      | Some s => (s, n - k)
      | None => shortestFrom rest m q n
      end
  end.

(** The decimal [(s, e)], [s * 10^e], of the fewest digits that is read
    as the double [m * 2^q]; seventeen digits are enough for every
    double. *)
Definition shortest (m q : Z) : Z * Z :=
  let a := if 0 <=? q then m * 2 ^ q else m in
  let b := if 0 <=? q then 1 else 2 ^ (- q) in
  shortestFrom [1; 2; 3; 4; 5; 6; 7; 8; 9; 10; 11; 12; 13; 14; 15; 16; 17] m q (position a b).

End Double.

(** [m * 10^e] without the zeros at the end of [m]. *)
Fixpoint stripZerosFrom (fuel : nat) (m e : Z) : Z * Z :=
  match fuel with
  | O => (m, e)
  | S fuel' =>
      if (m mod 10 =? 0) && negb (m =? 0) then stripZerosFrom fuel' (m / 10) (e + 1)
      else (m, e)
  end.

Definition stripZeros (m e : Z) : Z * Z :=
  stripZerosFrom (S (Z.to_nat (Z.log2 m))) m e.

(** The number held by the decimal [s * 10^e], [s] positive. *)
Definition ofCanonical (negative : bool) (s e : Z) : JsNumber :=
  let signed := if negative then - s else s in
  if 0 <=? e then NInt (signed * 10 ^ e) else NFrac signed (Z.to_pos (- e)).

(** The number that JavaScript reads from the decimal [m * 10^e], [m] not
    negative, under a sign: the nearest double, by its shortest decimal. *)
Definition fromDecimal (negative : bool) (m e : Z) : JsNumber :=
  if m =? 0 then (if negative then NNegZero else NInt 0)
  else
    let (s, e') := stripZeros m e in
    match Double.round s e' with
    | Double.ToZero => if negative then NNegZero else NInt 0
    | Double.ToInfinity => NInfinity negative
    | Double.ToFinite bm bq =>
        let (s', e'') := Double.shortest bm bq in
        let (s'', e''') := stripZeros s' e'' in
        ofCanonical negative s'' e'''
    end.

Definition JsNumber_eqb (x y : JsNumber) : bool :=
  match x, y with
  | NInt n, NInt n' => n =? n'
  | NFrac s places, NFrac s' places' => (s =? s') && (places =? places')%positive
  | NNegZero, NNegZero => true
  | NNaN, NNaN => true
  | NInfinity negative, NInfinity negative' => Bool.eqb negative negative'
  | _, _ => false
  end.

(** The digits and the exponent of ten of a finite number, and its sign. *)
Definition mantissa (x : JsNumber) : Z :=
  match x with
  | NInt n => Z.abs n
  | NFrac s _ => Z.abs s
  | _ => 0
  end.

Definition exponent (x : JsNumber) : Z :=
  match x with
  | NFrac _ places => - Z.pos places
  | _ => 0
  end.

Definition isNegative (x : JsNumber) : bool :=
  match x with
  | NInt n => n <? 0
  | NFrac s _ => s <? 0
  | NNegZero => true
  | NNaN => false
  | NInfinity negative => negative
  end.

(** The numbers of JavaScript: a finite number is one when its decimal is
    the shortest decimal of a double. *)
Definition isDouble (x : JsNumber) : bool :=
  match x with
  | NInt _ | NFrac _ _ => JsNumber_eqb (fromDecimal (isNegative x) (mantissa x) (exponent x)) x
  | _ => true
  end.

(** ** JSON text

    [JSON.stringify] and [JSON.parse] on the values above.  Text is a
    string of bytes, the UTF-8 text of the JavaScript string; the text
    that the store hands out is taken to be valid UTF-8. *)

Module Json.

Definition dquote : ascii := "034"%char.
Definition backslash : ascii := "092"%char.

(** The number of a byte, and the byte of a number. *)
Definition code (c : ascii) : Z := Z.of_N (N_of_ascii c).
Definition charOf (n : Z) : ascii := ascii_of_N (Z.to_N n).

Definition hexDigit (n : nat) : ascii :=
  if (n <? 10)%nat then ascii_of_nat (48 + n) else ascii_of_nat (87 + n).

(** The escape sequence of one character of a string. *)
Definition escapeChar (c : ascii) : string :=
  let n := nat_of_ascii c in
  if Ascii.eqb c dquote then String backslash (String dquote EmptyString)
  else if Ascii.eqb c backslash then String backslash (String backslash EmptyString)
  else if (n =? 8)%nat then String backslash "b"
  else if (n =? 9)%nat then String backslash "t"
  else if (n =? 10)%nat then String backslash "n"
  else if (n =? 12)%nat then String backslash "f"
  else if (n =? 13)%nat then String backslash "r"
  else if (n <? 32)%nat
       then String backslash
              (String "u" (String "0" (String "0"
                 (String (hexDigit (n / 16)) (String (hexDigit (n mod 16)) EmptyString)))))
  else String c EmptyString.

(** The code of the surrogate that the bytes [c], [d], [e] hold: [c] is
    [ED], [d] lies between [A0] and [BF], [e] between [80] and [BF]. *)
Definition surrogateUnit (c d e : ascii) : option Z :=
  let y := code d in
  let z := code e in
  if (code c =? 237) && (160 <=? y) && (y <=? 191) && (128 <=? z) && (z <=? 191)
  then Some (53248 + (y - 128) * 64 + (z - 128))
  else None.

(** The escape sequence of a surrogate without its other half. *)
Definition escapeUnit (unit : Z) : string :=
  String backslash
    (String "u"
       (String (hexDigit (Z.to_nat (unit / 4096)))
          (String (hexDigit (Z.to_nat ((unit / 256) mod 16)))
             (String (hexDigit (Z.to_nat ((unit / 16) mod 16)))
                (String (hexDigit (Z.to_nat (unit mod 16))) EmptyString))))).

(** [QuoteJSONString] without the quotes: a character is written as it
    is, but for the quote, the backslash, the control characters and the
    surrogates that are not half of a pair. *)
Fixpoint quoteBody (s : string) : string :=
  match s with
  | EmptyString => EmptyString
  | String c r =>
      match r with
      | String d (String e r') =>
          match surrogateUnit c d e with
          | Some unit => escapeUnit unit +:+ quoteBody r'
          | None => escapeChar c +:+ quoteBody r
          end
      | _ => escapeChar c +:+ quoteBody r
      end
  end.

Definition quote (s : string) : string :=
  String dquote (quoteBody s +:+ String dquote EmptyString).

(** *** The text of a number *)

Definition digitChar (d : Z) : ascii := charOf (48 + d).

Fixpoint digitsFrom (fuel : nat) (n : Z) (acc : string) : string :=
  match fuel with
  | O => acc
  | S fuel' =>
      let acc' := String (digitChar (n mod 10)) acc in
      if n <? 10 then acc' else digitsFrom fuel' (n / 10) acc'
  end.

(** The decimal digits of [n], which is not negative. *)
Definition digitsOf (n : Z) : string :=
  digitsFrom (S (Z.to_nat (Z.log2 n))) n EmptyString.

Fixpoint zeros (n : nat) : string :=
  match n with
  | O => EmptyString
  | S n' => String "0" (zeros n')
  end.

Fixpoint takeChars (n : nat) (s : string) : string :=
  match n, s with
  | S n', String c r => String c (takeChars n' r)
  | _, _ => EmptyString
  end.

Fixpoint dropChars (n : nat) (s : string) : string :=
  match n, s with
  | S n', String _ r => dropChars n' r
  | _, _ => s
  end.

(** [Number::toString] on [s * 10^e], where [s] is positive and no
    multiple of 10: [k] is the number of digits of [s], and [n] the place
    of the decimal point after the first digit of the number. *)
Definition showDecimal (s e : Z) : string :=
  let digits := digitsOf s in
  let k := Z.of_nat (String.length digits) in
  let n := e + k in
  if (k <=? n) && (n <=? 21) then digits +:+ zeros (Z.to_nat (n - k))
  else if (0 <? n) && (n <=? 21)
       then takeChars (Z.to_nat n) digits +:+ "." +:+ dropChars (Z.to_nat n) digits
  else if (-6 <? n) && (n <=? 0) then "0." +:+ zeros (Z.to_nat (- n)) +:+ digits
  else
    let exponentText := (if 0 <=? n - 1 then "+" else "-") +:+ digitsOf (Z.abs (n - 1)) in
    match digits with
    | String d EmptyString => String d ("e" +:+ exponentText)
    | String d rest => String d ("." +:+ rest +:+ "e" +:+ exponentText)
    | EmptyString => EmptyString
    end.

(** The text of a number in [JSON.stringify]: [Number::toString] for a
    finite number, [null] for the others. *)
Definition showNumber (x : JsNumber) : string :=
  match x with
  | NNaN | NInfinity _ => "null"
  | NNegZero => "0"
  | NInt _ | NFrac _ _ =>
      if mantissa x =? 0 then "0"
      else
        let (s, e) := stripZeros (mantissa x) (exponent x) in
        if isNegative x then String "-" (showDecimal s e) else showDecimal s e
  end.

Fixpoint joinComma (parts : list string) : string :=
  match parts with
  | [] => EmptyString
  | [p] => p
  | p :: rest => p +:+ "," +:+ joinComma rest
  end.

(** The text of a value that is an array element or a property value.
    [undefined] in an array is written [null]; a property whose value is
    [undefined] is left out. *)
Fixpoint stringifyValue (v : JsValue) : string :=
  match v with
  | VUndefined | VNull => "null"
  | VBool true => "true"
  | VBool false => "false"
  | VNum n => showNumber n
  | VStr s => quote s
  | VArr elems => "[" +:+ joinComma (List.map stringifyValue elems) +:+ "]"
  | VObj props =>
      "{" +:+
      joinComma
        ((fix members (ps : list (string * JsValue)) : list string :=
            match ps with
            | [] => []
            | (_, VUndefined) :: rest => members rest
            | (k, v) :: rest => (quote k +:+ ":" +:+ stringifyValue v) :: members rest
            end) props)
      +:+ "}"
  end.

(** [JSON.stringify(value)]; there is no text for [undefined]. *)
Definition stringify (v : JsValue) : option string :=
  match v with
  | VUndefined => None
  | _ => Some (stringifyValue v)
  end.

(** *** Parsing *)

Definition isWhitespace (c : ascii) : bool :=
  let n := nat_of_ascii c in
  (n =? 32)%nat || (n =? 9)%nat || (n =? 10)%nat || (n =? 13)%nat.

Fixpoint skipWhitespace (s : string) : string :=
  match s with
  | String c r => if isWhitespace c then skipWhitespace r else s
  | EmptyString => EmptyString
  end.

Definition isDigit (c : ascii) : bool :=
  let n := nat_of_ascii c in (48 <=? n)%nat && (n <=? 57)%nat.

Fixpoint spanDigits (s : string) : string * string :=
  match s with
  | String c r =>
      if isDigit c then let (ds, rest) := spanDigits r in (String c ds, rest)
      else (EmptyString, s)
  | EmptyString => (EmptyString, EmptyString)
  end.

Fixpoint stripPrefix (p s : string) : option string :=
  match p with
  | EmptyString => Some s
  | String c p' =>
      match s with
      | String d s' => if Ascii.eqb c d then stripPrefix p' s' else None
      | EmptyString => None
      end
  end.

Definition hexValue (c : ascii) : option nat :=
  let n := nat_of_ascii c in
  if isDigit c then Some (n - 48)%nat
  else if (97 <=? n)%nat && (n <=? 102)%nat then Some (n - 87)%nat
  else if (65 <=? n)%nat && (n <=? 70)%nat then Some (n - 55)%nat
  else None.

(** The character written by a two-character escape. *)
Definition unescape (e : ascii) : option ascii :=
  if Ascii.eqb e dquote then Some dquote
  else if Ascii.eqb e backslash then Some backslash
  else if Ascii.eqb e "/"%char then Some "/"%char
  else if Ascii.eqb e "b"%char then Some (ascii_of_nat 8)
  else if Ascii.eqb e "t"%char then Some (ascii_of_nat 9)
  else if Ascii.eqb e "n"%char then Some (ascii_of_nat 10)
  else if Ascii.eqb e "f"%char then Some (ascii_of_nat 12)
  else if Ascii.eqb e "r"%char then Some (ascii_of_nat 13)
  else None.

(** The code that the four hexadecimal digits after [\u] write. *)
Definition hexUnit (h1 h2 h3 h4 : ascii) : option Z :=
  match hexValue h1, hexValue h2, hexValue h3, hexValue h4 with
  | Some a, Some b, Some c, Some d =>
      Some (4096 * Z.of_nat a + 256 * Z.of_nat b + 16 * Z.of_nat c + Z.of_nat d)
  | _, _, _, _ => None
  end.

(** The bytes of the character of code [cp] in UTF-8. *)
Definition utf8 (cp : Z) : string :=
  if cp <? 128 then String (charOf cp) EmptyString
  else if cp <? 2048
       then String (charOf (192 + cp / 64))
              (String (charOf (128 + cp mod 64)) EmptyString)
  else if cp <? 65536
       then String (charOf (224 + cp / 4096))
              (String (charOf (128 + (cp / 64) mod 64))
                 (String (charOf (128 + cp mod 64)) EmptyString))
  else String (charOf (240 + cp / 262144))
         (String (charOf (128 + (cp / 4096) mod 64))
            (String (charOf (128 + (cp / 64) mod 64))
               (String (charOf (128 + cp mod 64)) EmptyString))).

(** The second half of a pair, when the text goes on with the escape of
    one, and the text after it. *)
Definition lowEscape (s : string) : option (Z * string) :=
  match s with
  | String b r =>
      if Ascii.eqb b backslash then
        match r with
        | String u r' =>
            if Ascii.eqb u "u"%char then
              match r' with
              | String h1 (String h2 (String h3 (String h4 rest))) =>
                  match hexUnit h1 h2 h3 h4 with
                  | Some low =>
                      if (56320 <=? low) && (low <? 57344) then Some (low, rest) else None
                  | None => None
                  end
              | _ => None
              end
            else None
        | EmptyString => None
        end
      else None
  | EmptyString => None
  end.

(** The characters of a string up to its closing quote.  The escapes of
    the two halves of a pair, one after the other, write one character. *)
Fixpoint parseStringBody (s : string) : option (string * string) :=
  match s with
  | EmptyString => None
  | String c r =>
      if Ascii.eqb c dquote then Some (EmptyString, r)
      else if Ascii.eqb c backslash then
        match r with
        | String e r1 =>
            if Ascii.eqb e "u"%char then
              match r1 with
              | String h1 (String h2 (String h3 (String h4 r2))) =>
                  match hexUnit h1 h2 h3 h4 with
                  | Some unit =>
                      match
                        (if (55296 <=? unit) && (unit <? 56320)
                         then lowEscape r2 else None),
                        r2
                      with
                      | Some (low, _),
                        String _ (String _ (String _ (String _ (String _ (String _ r3))))) =>
                          match parseStringBody r3 with
                          | Some (body, rest) =>
                              Some (utf8 (65536 + (unit - 55296) * 1024 + (low - 56320))
                                      +:+ body, rest)
                          | None => None
                          end
                      | _, _ =>
                          match parseStringBody r2 with
                          | Some (body, rest) => Some (utf8 unit +:+ body, rest)
                          | None => None
                          end
                      end
                  | None => None
                  end
              | _ => None
              end
            else
              match unescape e with
              | Some c' =>
                  match parseStringBody r1 with
                  | Some (body, rest) => Some (String c' body, rest)
                  | None => None
                  end
              | None => None
              end
        | EmptyString => None
        end
      else if (nat_of_ascii c <? 32)%nat then None
      else
        match parseStringBody r with
        | Some (body, rest) => Some (String c body, rest)
        | None => None
        end
  end.

Definition digitValue (c : ascii) : Z := code c - 48.

(** The number that digits write, after the digits read so far. *)
Fixpoint valueOf (acc : Z) (digits : string) : Z :=
  match digits with
  | EmptyString => acc
  | String c r => valueOf (10 * acc + digitValue c) r
  end.

(** The digits after the point, when there is a point. *)
Definition parseFraction (s : string) : option (string * string) :=
  match s with
  | String c r =>
      if Ascii.eqb c "."%char then
        match spanDigits r with
        | (EmptyString, _) => None
        | (digits, rest) => Some (digits, rest)
        end
      else Some (EmptyString, s)
  | EmptyString => Some (EmptyString, s)
  end.

(** The exponent, when there is one. *)
Definition parseExponent (s : string) : option (Z * string) :=
  match s with
  | String c r =>
      if Ascii.eqb c "e"%char || Ascii.eqb c "E"%char then
        let (minus, r1) :=
          match r with
          | String d r' =>
              if Ascii.eqb d "-"%char then (true, r')
              else if Ascii.eqb d "+"%char then (false, r')
              else (false, r)
          | EmptyString => (false, r)
          end in
        match spanDigits r1 with
        | (EmptyString, _) => None
        | (digits, rest) => Some (if minus then - valueOf 0 digits else valueOf 0 digits, rest)
        end
      else Some (0, s)
  | EmptyString => Some (0, s)
  end.

(** The digits of a number, its fraction and its exponent, after the
    sign: [0] or digits without a zero in front; an optional fraction; an
    optional exponent.  The value is the double nearest to the decimal. *)
Definition parseDecimal (negative : bool) (s : string) : option (JsNumber * string) :=
  match spanDigits s with
  | (EmptyString, _) => None
  | (String c more as int, s2) =>
      if Ascii.eqb c "0"%char && negb (String.eqb more EmptyString) then None
      else
        match parseFraction s2 with
        | Some (fraction, s3) =>
            match parseExponent s3 with
            | Some (exp, rest) =>
                Some (fromDecimal negative (valueOf 0 (int +:+ fraction))
                        (exp - Z.of_nat (String.length fraction)), rest)
            | None => None
            end
        | None => None
        end
  end.

(** A number: an optional minus sign, then the decimal. *)
Definition parseNumber (s : string) : option (JsNumber * string) :=
  match s with
  | String c r => if Ascii.eqb c "-"%char then parseDecimal true r else parseDecimal false s
  | EmptyString => None
  end.

(** The number of an array index: the text of a number below [2^32 - 1]
    without a zero in front. *)
Definition arrayIndex (key : string) : option Z :=
  match spanDigits key with
  | (String c more as digits, EmptyString) =>
      if Ascii.eqb c "0"%char && negb (String.eqb more EmptyString) then None
      else if valueOf 0 digits <? 4294967295 then Some (valueOf 0 digits) else None
  | _ => None
  end.

(** [CreateDataProperty] on the list of the properties: a property that is
    there keeps its place; a new one goes, when its name is an array index,
    among the indices in ascending order, which come first, and to the end
    otherwise. *)
Fixpoint defineProp (props : list (string * JsValue)) (key : string) (value : JsValue)
  : list (string * JsValue) :=
  match props with
  | [] => [(key, value)]
  | (k, v) :: rest =>
      if String.eqb k key then (k, value) :: rest
      else
        let here :=
          match arrayIndex key, arrayIndex k with
          | Some i, Some j => (i <? j) && negb (existsb (String.eqb key) (List.map fst rest))
          | Some _, None => negb (existsb (String.eqb key) (List.map fst rest))
          | None, _ => false
          end in
        if here then (key, value) :: (k, v) :: rest
        else (k, v) :: defineProp rest key value
  end.

Fixpoint parseValue (fuel : nat) (s : string) : option (JsValue * string) :=
  match fuel with
  | O => None
  | S fuel' =>
      match skipWhitespace s with
      | EmptyString => None
      | String c r =>
          if Ascii.eqb c "-"%char || isDigit c then
            match parseNumber (String c r) with
            | Some (n, rest) => Some (VNum n, rest)
            | None => None
            end
          else if Ascii.eqb c "["%char then
            match skipWhitespace r with
            | String d r' =>
                if Ascii.eqb d "]"%char then Some (VArr [], r')
                else
                  match parseElements fuel' r with
                  | Some (elems, rest) => Some (VArr elems, rest)
                  | None => None
                  end
            | EmptyString => None
            end
          else if Ascii.eqb c "{"%char then
            match skipWhitespace r with
            | String d r' =>
                if Ascii.eqb d "}"%char then Some (VObj [], r')
                else
                  match parseMembers fuel' r with
                  | Some (members, rest) =>
                      Some (VObj (fold_left (fun props kv => defineProp props (fst kv) (snd kv))
                                            members []), rest)
                  | None => None
                  end
            | EmptyString => None
            end
          else if Ascii.eqb c dquote then
            match parseStringBody r with
            | Some (body, rest) => Some (VStr body, rest)
            | None => None
            end
          else if Ascii.eqb c "n"%char then
            match stripPrefix "ull" r with
            | Some rest => Some (VNull, rest)
            | None => None
            end
          else if Ascii.eqb c "t"%char then
            match stripPrefix "rue" r with
            | Some rest => Some (VBool true, rest)
            | None => None
            end
          else if Ascii.eqb c "f"%char then
            match stripPrefix "alse" r with
            | Some rest => Some (VBool false, rest)
            | None => None
            end
          else None
      end
  end
with parseElements (fuel : nat) (s : string) : option (list JsValue * string) :=
  match fuel with
  | O => None
  | S fuel' =>
      match parseValue fuel' s with
      | Some (v, r) =>
          match skipWhitespace r with
          | String d r' =>
              if Ascii.eqb d ","%char then
                match parseElements fuel' r' with
                | Some (vs, rest) => Some (v :: vs, rest)
                | None => None
                end
              else if Ascii.eqb d "]"%char then Some ([v], r')
              else None
          | EmptyString => None
          end
      | None => None
      end
  end
with parseMembers (fuel : nat) (s : string) : option (list (string * JsValue) * string) :=
  match fuel with
  | O => None
  | S fuel' =>
      match skipWhitespace s with
      | String q r =>
          if Ascii.eqb q dquote then
            match parseStringBody r with
            | Some (key, r1) =>
                match skipWhitespace r1 with
                | String colon r2 =>
                    if Ascii.eqb colon ":"%char then
                      match parseValue fuel' r2 with
                      | Some (v, r3) =>
                          match skipWhitespace r3 with
                          | String d r4 =>
                              if Ascii.eqb d ","%char then
                                match parseMembers fuel' r4 with
                                | Some (ms, rest) => Some ((key, v) :: ms, rest)
                                | None => None
                                end
                              else if Ascii.eqb d "}"%char then Some ([(key, v)], r4)
                              else None
                          | EmptyString => None
                          end
                      | None => None
                      end
                    else None
                | EmptyString => None
                end
            | None => None
            end
          else None
      | EmptyString => None
      end
  end.

(** [JSON.parse(text)] *)
Definition parse (text : string) : Completion JsValue :=
  match parseValue (S (String.length text)) text with
  | Some (v, rest) =>
      match skipWhitespace rest with
      | EmptyString => Normal v
      | String _ _ => Thrown SyntaxError
      end
  | None => Thrown SyntaxError
  end.

End Json.

(** ** The seal schema library: validation *)

Definition hasPrimitiveType (kind : PrimitiveKind) (value : JsValue) : bool :=
  match kind, value with
  | PString, VStr _ => true
  | PNumber, VNum _ => true
  | PBoolean, VBool _ => true
  | _, _ => false
  end.

(** Modelled from the spec: [seal.validate] belongs to the seal library,
    which the specification describes as [validate(schema, value)],
    returning the list of errors, empty for a valid value.  A primitive
    schema accepts the values of its type; a nullable schema also accepts
    [null] and an absent value; an array schema accepts an array of valid
    items; an object schema accepts an object each declared field of which
    holds a valid value. *)
Fixpoint validate (schema : Schema) (value : JsValue) : list string :=
  match schema with
  | SPrimitive kind =>
      if hasPrimitiveType kind value then [] else ["expected " +:+ primitiveName kind]
  | SNullable inner =>
      match value with
      | VNull | VUndefined => []
      | _ => validate inner value
      end
  | SArray item =>
      match value with
      | VArr elems => flat_map (validate item) elems
      | _ => ["expected array"]
      end
  | SObject shape =>
      match value with
      | VObj props =>
          flat_map (fun field => validate (snd field) (lookupProp props (fst field))) shape
      | _ => ["expected object"]
      end
  end.

(** ** The schema codec: decoding *)

(** The nested call [fromCompressedArray(raw, (propSchema as any).__$shape)].
    Its second argument is the shape record of the field schema and not the
    field schema, so that the callee's [(schema as any).__$shape] reads the
    property named [__$shape] of a shape record.  A shape record has its
    fields as properties: the property is [undefined] and
    [Object.keys(undefined)] throws.  (A shape that declares a field of
    that very name is not covered.) *)
Definition fromCompressedArrayOfShape (raw : JsValue) (record : list (string * Schema))
  : Completion JsValue :=
  Thrown TypeError.

(** [shape.__$shape] of an object schema *)
Definition shapeOf (schema : Schema) : list (string * Schema) :=
  match schema with
  | SObject shape => shape
  | _ => []
  end.

(** [fromCompressedArray(arr, schema)] for an object schema whose
    [__$shape] is [shape]: the [forEach] over [Object.keys(shape)], started
    at index [idx] with the properties assigned so far in [result]. *)
Fixpoint fromCompressedArrayFrom (arr : list JsValue) (shape : list (string * Schema))
    (idx : nat) (result : list (string * JsValue)) : Completion JsValue :=
  match shape with
  | [] => Normal (VObj result)
  | (key, propSchema) :: rest =>
      let raw := nth idx arr VUndefined in
      let* value :=
        if instanceofObjectSchema propSchema
        then fromCompressedArrayOfShape raw (shapeOf propSchema)
        else Normal raw in
      fromCompressedArrayFrom arr rest (S idx) (setProp result key value)
  end.

Definition fromCompressedArray (arr : list JsValue) (shape : list (string * Schema))
  : Completion JsValue :=
  fromCompressedArrayFrom arr shape 0%nat [].

(** [sealJsonParser(jsonArrayString, schema)]; the result [null] is [VNull]. *)
Definition sealJsonParser (jsonArrayString : string) (schema : Schema) : Completion JsValue :=
  let* parsed := Json.parse jsonArrayString in
  match parsed with
  | VArr elems =>
      match schema with
      | SObject shape =>
          let* obj := fromCompressedArray elems shape in
          match validate schema obj with
          | _ :: _ => Normal VNull
          | [] => Normal obj
          end
      | _ =>
          match validate schema parsed with
          | _ :: _ => Normal VNull
          | [] => Normal parsed
          end
      end
  | _ => Thrown InputNotArray
  end.

(** ** The Redis client *)

(** A record of the key space: its text and, when written by [setEx], the
    number of seconds after which the server drops it. *)
Record RedisEntry : Type := {
  entryValue : string;
  entryExpiry : option Z
}.

(** What [client.get] answers. *)
Inductive RedisReply : Type :=
| ReplyNull
| ReplyString (text : string)
| ReplyBuffer (bytes : string).

(** The client that [this.client()] returns, with the server behind it.
    [isReady n] is the value of the property [isReady] once [n] periods
    of 100 ms have passed, [isReady 0] being its value now. *)
Record RedisClient : Type := {
  isReady : nat -> bool;
  returnBuffers : bool;
  keyspace : gmap string RedisEntry
}.

Module Client.

Definition get (key : string) (c : RedisClient) : RedisReply :=
  match keyspace c !! key with
  | None => ReplyNull
  | Some entry =>
      if returnBuffers c then ReplyBuffer (entryValue entry)
      else ReplyString (entryValue entry)
  end.

Definition set (key value : string) (c : RedisClient) : RedisClient :=
  {| isReady := isReady c;
     returnBuffers := returnBuffers c;
     keyspace := <[key := {| entryValue := value; entryExpiry := None |}]> (keyspace c) |}.

Definition setEx (key : string) (seconds : Z) (value : string) (c : RedisClient)
  : RedisClient :=
  {| isReady := isReady c;
     returnBuffers := returnBuffers c;
     keyspace :=
       <[key := {| entryValue := value; entryExpiry := Some seconds |}]> (keyspace c) |}.

(** [DEL key]: the number of keys removed. *)
Definition del (key : string) (c : RedisClient) : Z * RedisClient :=
  match keyspace c !! key with
  | None => (0, c)
  | Some _ =>
      (1, {| isReady := isReady c;
             returnBuffers := returnBuffers c;
             keyspace := base.delete key (keyspace c) |})
  end.

(** The client after [n] periods of 100 ms. *)
Definition elapse (n : nat) (c : RedisClient) : RedisClient :=
  {| isReady := fun m => isReady c (n + m)%nat;
     returnBuffers := returnBuffers c;
     keyspace := keyspace c |}.

End Client.

(** [!rawValue] is false *)
Definition replyTruthy (reply : RedisReply) : bool :=
  match reply with
  | ReplyNull => false
  | ReplyString text => negb (String.eqb text EmptyString)
  | ReplyBuffer _ => true
  end.

(** [Buffer.isBuffer(rawValue) ? rawValue.toString("utf8") : rawValue] *)
Definition replyText (reply : RedisReply) : string :=
  match reply with
  | ReplyNull => EmptyString
  | ReplyString text => text
  | ReplyBuffer bytes => bytes
  end.

(** ** Promises *)

(** The state in which the promise of an asynchronous call ends up;
    [Pending] is a promise that is never settled. *)
Inductive Promise (A : Type) : Type :=
| Resolved (a : A)
| Rejected (e : JsError)
| Pending.
Arguments Resolved {A} a.
Arguments Rejected {A} e.
Arguments Pending {A}.

(** The promise of an [async] function whose body completes as [c]. *)
Definition settle {A : Type} (c : Completion A) : Promise A :=
  match c with
  | Normal a => Resolved a
  | Thrown e => Rejected e
  end.

(** ** The readiness gate *)

(** The state of a call of [waitInitialization]. *)
Inductive GateState : Type :=
| GateReady                     (* [isReady] held at the call: returned at once *)
| GatePolling (attempt : nat)   (* the interval is live, the promise pending *)
| GateResolved (attempt : nat)  (* [resolve()] at this attempt, interval cleared *)
| GateTimedOut.                 (* interval cleared, [Error] thrown by the timer callback *)

Definition pollPeriod : Z := 100.
Definition maxAttempts : nat := 300.

(** What one run of the interval callback does, [attempt] being the
    counter before the run and [ready] the value of [isReady] read by it. *)
Definition onInterval (attempt : nat) (ready : bool) : GateState :=
  let attempt := (attempt + 1)%nat in
  if (maxAttempts <? attempt)%nat then GateTimedOut
  else if negb ready then GatePolling attempt
  else GateResolved attempt.

(** The interval after [ticks] more periods, from a counter at [attempt]. *)
Fixpoint pollInterval (ticks : nat) (attempt : nat) (c : RedisClient) : GateState :=
  match ticks with
  | O => GatePolling attempt
  | S ticks' =>
      match onInterval attempt (isReady c (attempt + 1)%nat) with
      | GatePolling attempt' => pollInterval ticks' attempt' c
      | final => final
      end
  end.

(** [waitInitialization()] observed [ticks] periods after the call. *)
Definition waitInitializationAfter (ticks : nat) (c : RedisClient) : GateState :=
  if isReady c 0%nat then GateReady else pollInterval ticks 0%nat c.

(** [waitInitialization()] in the end: after attempt 301 the interval is
    cleared whatever happened. *)
Definition waitInitialization (c : RedisClient) : GateState :=
  waitInitializationAfter (S maxAttempts) c.

(** The promise that [waitInitialization] returns.  It is built with
    [new Promise(resolve => ...)]: only [resolve()] settles it.  The
    [throw] of the timeout happens in the timer callback, after the
    executor has returned, and so reaches no promise. *)
Definition gatePromise (g : GateState) : Promise unit :=
  match g with
  | GateReady | GateResolved _ => Resolved tt
  | GatePolling _ | GateTimedOut => Pending
  end.

(** The error that leaves the timer callback uncaught. *)
Definition gateUncaught (g : GateState) : option JsError :=
  match g with
  | GateTimedOut => Some InitializationTimeout
  | _ => None
  end.

(** The number of periods that the gate took. *)
Definition gateTicks (g : GateState) : nat :=
  match g with
  | GateReady => 0
  | GatePolling attempt | GateResolved attempt => attempt
  | GateTimedOut => S maxAttempts
  end.

(** The time that the gate took, in milliseconds. *)
Definition gateMilliseconds (g : GateState) : Z := pollPeriod * Z.of_nat (gateTicks g).

(** [await this.waitInitialization()] followed by [body]. *)
Definition afterGate {A : Type} (c : RedisClient)
    (body : RedisClient -> Promise A * RedisClient) : Promise A * RedisClient :=
  let g := waitInitialization c in
  match g, gatePromise g with
  | GateReady, _ => body c
  | _, Resolved _ => body (Client.elapse (gateTicks g) c)
  | _, Rejected e => (Rejected e, Client.elapse (gateTicks g) c)
  | _, Pending => (Pending, Client.elapse (gateTicks g) c)
  end.

(** ** The executor *)

(** [this.options]: the options with the defaults filled in. *)
Record ExecutorOptions : Type := {
  ttl : option Z;
  readOnce : bool;
  namespace : string
}.

(** [jsonStringify(value, { throw: true })]: the text, which the client
    takes as the value to store.  [undefined] has no text; what the
    helper and the client make of it is not in the source, and the call is
    taken to fail. *)
Definition jsonStringify (value : JsValue) : Completion string :=
  match Json.stringify value with
  | Some text => Normal text
  | None => Thrown TypeError
  end.

Module RedisSchemaExecutor.

Section Executor.

Variable template : Schema.
Variable options : ExecutorOptions.

Definition fullKey (key : string) : string :=
  namespace options +:+ "+" +:+ key.

Definition set (key : string) (value : JsValue) (c : RedisClient)
  : Promise string * RedisClient :=
  afterGate c (fun c =>
    match (let* payload := serialize template value in jsonStringify payload) with
    | Thrown e => (Rejected e, c)
    | Normal serializedValue =>
        match ttl options with
        | Some seconds =>
            (Resolved key, Client.setEx (fullKey key) seconds serializedValue c)
        | None => (Resolved key, Client.set (fullKey key) serializedValue c)
        end
    end).

(** [delete(key)]: the key handed to [del] is [key] itself. *)
Definition delete (key : string) (c : RedisClient) : Promise Z * RedisClient :=
  afterGate c (fun c =>
    let (removed, c') := Client.del key c in
    (Resolved removed, c')).

(** [get(key, force)]; [force] left out is [false].  The call of
    [this.delete(key)] is not awaited: its effect on the key space is
    there whatever the decoding gives. *)
Definition get (key : string) (force : bool) (c : RedisClient)
  : Promise JsValue * RedisClient :=
  afterGate c (fun c =>
    let rawValue := Client.get (fullKey key) c in
    if negb (replyTruthy rawValue) then
      if force then (Rejected (KeyNotFound key), c) else (Resolved VNull, c)
    else
      let c' := if readOnce options then snd (delete key c) else c in
      (settle (sealJsonParser (replyText rawValue) template), c')).

(** [with(key, callback)], for a callback that returns or throws; the
    result [null] is [None]. *)
Definition with_ {R : Type} (key : string) (callback : JsValue -> Completion R)
    (c : RedisClient) : Promise (option R) * RedisClient :=
  let (payload, c') := get key false c in
  match payload with
  | Resolved value =>
      if truthy value
      then (settle (let* result := callback value in Normal (Some result)), c')
      else (Resolved None, c')
  | Rejected e => (Rejected e, c')
  | Pending => (Pending, c')
  end.

End Executor.

End RedisSchemaExecutor.

(** ** Namespaces *)

(** [digest("base64url")]: base64 with the URL-safe alphabet, unpadded. *)
Module Base64Url.

Definition alphabet : list ascii :=
  list_ascii_of_string "ABCDEFGHIJKLMNOPQRSTUVWXYZabcdefghijklmnopqrstuvwxyz0123456789-_".

Definition sextetChar (n : Z) : ascii := nth (Z.to_nat n) alphabet "A"%char.

Definition byteZ (b : Byte.byte) : Z := Z.of_N (Byte.to_N b).

Fixpoint encode (bytes : list Byte.byte) : string :=
  match bytes with
  | a :: b :: c :: rest =>
      let n := byteZ a * 65536 + byteZ b * 256 + byteZ c in
      String (sextetChar (n / 262144))
        (String (sextetChar ((n / 4096) mod 64))
           (String (sextetChar ((n / 64) mod 64))
              (String (sextetChar (n mod 64)) (encode rest))))
  | [a; b] =>
      let n := byteZ a * 1024 + byteZ b * 4 in
      String (sextetChar (n / 4096))
        (String (sextetChar ((n / 64) mod 64)) (String (sextetChar (n mod 64)) EmptyString))
  | [a] =>
      let n := byteZ a * 16 in
      String (sextetChar (n / 64)) (String (sextetChar (n mod 64)) EmptyString)
  | [] => EmptyString
  end.

End Base64Url.

(** ** The digest of [node:crypto] *)

(** [createHash("shake256", { outputLength })] of [node:crypto]: SHAKE256
    as FIPS 202 defines it, the sponge over Keccak-f[1600] with a rate of
    136 bytes and the suffix [1111].  A lane is a number below [2^64], the
    state the list of its 25 lanes, lane [(x, y)] at place [x + 5 y]. *)
Module Shake256.

Definition lane (state : list Z) (x y : nat) : Z :=
  nth (x mod 5 + 5 * (y mod 5))%nat state 0.

Definition rotateLeft (value : Z) (count : Z) : Z :=
  Z.lor (Z.shiftl value count) (Z.shiftr value (64 - count)) mod 2 ^ 64.

Definition places : list (nat * nat) :=
  flat_map (fun y => List.map (fun x => (x, y)) (seq 0 5)) (seq 0 5).

Definition theta (state : list Z) : list Z :=
  let column x :=
    fold_left Z.lxor (List.map (fun y => lane state x y) (seq 0 5)) 0 in
  List.map (fun p : nat * nat =>
              let (x, y) := p in
              Z.lxor (lane state x y)
                     (Z.lxor (column (x + 4)%nat) (rotateLeft (column (x + 1)%nat) 1)))
           places.

Definition rotationOffsets : list Z :=
  [ 0;  1; 62; 28; 27;
   36; 44;  6; 55; 20;
    3; 10; 43; 25; 39;
   41; 45; 15; 21;  8;
   18;  2; 61; 56; 14].

(** Lane [(x, y)] is rotated and moved to [(y, 2 x + 3 y)]: the lane at
    [(x, y)] afterwards is the one that was at [(x + 3 y, x)]. *)
Definition rhoPi (state : list Z) : list Z :=
  List.map (fun p : nat * nat =>
              let (x, y) := p in
              let from := ((x + 3 * y) mod 5 + 5 * x)%nat in
              rotateLeft (nth from state 0) (nth from rotationOffsets 0))
           places.

Definition chi (state : list Z) : list Z :=
  List.map (fun p : nat * nat =>
              let (x, y) := p in
              Z.lxor (lane state x y)
                     (Z.land (Z.lxor (lane state (x + 1) y) (2 ^ 64 - 1))
                             (lane state (x + 2) y)))
           places.

Definition roundConstants : list Z :=
  [0x0000000000000001; 0x0000000000008082; 0x800000000000808A; 0x8000000080008000;
   0x000000000000808B; 0x0000000080000001; 0x8000000080008081; 0x8000000000008009;
   0x000000000000008A; 0x0000000000000088; 0x0000000080008009; 0x000000008000000A;
   0x000000008000808B; 0x800000000000008B; 0x8000000000008089; 0x8000000000008003;
   0x8000000000008002; 0x8000000000000080; 0x000000000000800A; 0x800000008000000A;
   0x8000000080008081; 0x8000000000008080; 0x0000000080000001; 0x8000000080008008].

Definition iota (constant : Z) (state : list Z) : list Z :=
  match state with
  | first :: others => Z.lxor first constant :: others
  | [] => []
  end.

Definition keccakF (state : list Z) : list Z :=
  fold_left (fun st constant => iota constant (chi (rhoPi (theta st)))) roundConstants state.

Definition rate : nat := 136%nat.

(** The lane that eight bytes make, the first byte lowest. *)
Fixpoint laneOfBytes (bytes : list Z) : Z :=
  match bytes with
  | [] => 0
  | b :: rest => b + 256 * laneOfBytes rest
  end.

Fixpoint lanesOfBytes (count : nat) (bytes : list Z) : list Z :=
  match count with
  | O => []
  | S count' => laneOfBytes (firstn 8 bytes) :: lanesOfBytes count' (skipn 8 bytes)
  end.

Fixpoint bytesOfLane (count : nat) (value : Z) : list Z :=
  match count with
  | O => []
  | S count' => value mod 256 :: bytesOfLane count' (value / 256)
  end.

Fixpoint xorLanes (state block : list Z) : list Z :=
  match state, block with
  | s :: state', b :: block' => Z.lxor s b :: xorLanes state' block'
  | _, _ => state
  end.

(** The message, the suffix [0x1f], zeros up to the end of the block, and
    [0x80] on its last byte. *)
Definition pad (message : list Z) : list Z :=
  let used := (List.length message mod rate)%nat in
  if (used =? rate - 1)%nat then (message ++ [0x9f])%list
  else (message ++ [0x1f] ++ repeat 0 (rate - used - 2) ++ [0x80])%list.

Fixpoint absorb (blocks : nat) (bytes : list Z) (state : list Z) : list Z :=
  match blocks with
  | O => state
  | S blocks' =>
      absorb blocks' (skipn rate bytes)
             (keccakF (xorLanes state (lanesOfBytes (rate / 8) (firstn rate bytes))))
  end.

Fixpoint squeeze (blocks : nat) (state : list Z) : list Z :=
  match blocks with
  | O => []
  | S blocks' =>
      (flat_map (bytesOfLane 8) (firstn (rate / 8) state) ++ squeeze blocks' (keccakF state))%list
  end.

Definition byteOf (value : Z) : Byte.byte :=
  match Byte.of_N (Z.to_N value) with
  | Some b => b
  | None => Byte.x00
  end.

(** [createHash("shake256", { outputLength }).update(text).digest()] *)
Definition digest (outputLength : nat) (text : string) : list Byte.byte :=
  let message :=
    List.map (fun c => Z.of_N (N_of_ascii c)) (list_ascii_of_string text) in
  let padded := pad message in
  let state := absorb (List.length padded / rate) padded (repeat 0 25) in
  List.map byteOf (firstn outputLength (squeeze (S (outputLength / rate)) state)).

End Shake256.

(** One property of the options literal handed to [defineSchema]. *)
Inductive OptionField : Type :=
| OptTtl (seconds : Z)
| OptReadOnce (flag : bool)
| OptNamespace (name : string).

(** [RedisSchemaOptions]: the properties in the order in which the literal
    lists them. *)
Definition RedisSchemaOptions : Type := list OptionField.

Definition fieldName (field : OptionField) : string :=
  match field with
  | OptTtl _ => "ttl"
  | OptReadOnce _ => "readOnce"
  | OptNamespace _ => "namespace"
  end.

Definition fieldValue (field : OptionField) : JsValue :=
  match field with
  | OptTtl seconds => VNum seconds
  | OptReadOnce flag => VBool flag
  | OptNamespace name => VStr name
  end.

(** The options as a JavaScript object; [options || {}] when left out. *)
Definition optionsObject (options : option RedisSchemaOptions) : JsValue :=
  match options with
  | Some fields =>
      VObj (fold_left (fun props field => setProp props (fieldName field) (fieldValue field))
                      fields [])
  | None => VObj []
  end.

(** [options?.key] *)
Definition optionalProp (options : option RedisSchemaOptions) (key : string) : JsValue :=
  match optionsObject options with
  | VObj props => lookupProp props key
  | _ => VUndefined
  end.

Module RedisSchema.

Section Constructor.

(** [createHash("shake256", { outputLength }).update(text).digest()] *)
Variable shake256 : nat -> string -> list Byte.byte.

(** The digest branch of the constructor. *)
Definition deriveNamespace (template : Schema) (options : option RedisSchemaOptions)
  : string :=
  Base64Url.encode
    (shake256 8%nat
       (Json.stringifyValue (VArr [exportMetadataOf template; optionsObject options]))).

(** The constructor: [requiredOptions] as handed to [super]. *)
Definition requiredOptions (template : Schema) (options : option RedisSchemaOptions)
  : ExecutorOptions :=
  {| ttl := match optionalProp options "ttl" with
            | VNum (NInt seconds) => Some seconds
            | _ => None
            end;
     readOnce := match optionalProp options "readOnce" with
                 | VBool flag => flag
                 | _ => false
                 end;
     namespace := match optionalProp options "namespace" with
                  | VStr name => name
                  | _ => deriveNamespace template options
                  end |}.

End Constructor.

End RedisSchema.

(** [this.randomKey.set(value)].  [randomKeyBytesCount] is the field of
    the controller behind [Sigil.redis], a count of bytes; [randomBytes n]
    stands for the [n] bytes that [crypto.randomBytes(n)] hands out. *)
Module RandomKey.

Section RandomKey.

Variable template : Schema.
Variable options : ExecutorOptions.
Variable randomKeyBytesCount : nat.
Variable randomBytes : nat -> list Byte.byte.

(** [Sigil.redis.randomKeyBytesCount || 16] *)
Definition bytesCount : nat :=
  if (randomKeyBytesCount =? 0)%nat then 16%nat else randomKeyBytesCount.

Definition key : string := Base64Url.encode (randomBytes bytesCount).

Definition set (value : JsValue) (c : RedisClient) : Promise string * RedisClient :=
  RedisSchemaExecutor.set template options key value c.

End RandomKey.

End RandomKey.

(** ** Deep equality *)

(** Structural equality of values, the deep equality of the
    specification: arrays item by item, objects property by property
    whatever the order of the properties, numbers as [Object.is] compares
    them, [NaN] equal to itself and [-0] different from [0]. *)
Fixpoint deepEqual (a b : JsValue) {struct a} : bool :=
  match a, b with
  | VUndefined, VUndefined => true
  | VNull, VNull => true
  | VBool x, VBool y => Bool.eqb x y
  | VNum x, VNum y => JsNumber_eqb x y
  | VStr x, VStr y => String.eqb x y
  | VArr xs, VArr ys =>
      (fix items (xs ys : list JsValue) : bool :=
         match xs, ys with
         | [], [] => true
         | x :: xs', y :: ys' => deepEqual x y && items xs' ys'
         | _, _ => false
         end) xs ys
  | VObj ps, VObj qs =>
      (List.length ps =? List.length qs)%nat &&
      (fix fields (ps : list (string * JsValue)) : bool :=
         match ps with
         | [] => true
         | (k, v) :: ps' =>
             existsb (String.eqb k) (List.map fst qs) && deepEqual v (lookupProp qs k) && fields ps'
         end) ps
  | _, _ => false
  end.

(** ** Notions used in the statements *)

(** The values that are neither absent nor structured: [null], booleans,
    numbers and strings. *)
Definition isScalar (v : JsValue) : bool :=
  match v with
  | VNull | VBool _ | VNum _ | VStr _ => true
  | _ => false
  end.


(** The row that [serialize] makes of a record: the values of [keys]. *)
Definition rowOf (props : list (string * JsValue)) (keys : list string) : list JsValue :=
  List.map (lookupProp props) keys.

(** The record that holds [f key] under each declared [key]. *)
Definition rebuilt (f : string -> JsValue) (shape : list (string * Schema))
  : list (string * JsValue) :=
  List.map (fun field => (fst field, f (fst field))) shape.

(** *** JSON text read back *)

(** What may follow a value in a text: the end of the text, a comma, the
    closing bracket or the closing brace. *)
Definition endsValue (rest : string) : bool :=
  match rest with
  | EmptyString => true
  | String c _ => Ascii.eqb c ","%char || Ascii.eqb c "]"%char || Ascii.eqb c "}"%char
  end.

(** The values without objects: what [serialize] returns. *)
Fixpoint isArrayTree (v : JsValue) : bool :=
  match v with
  | VObj _ => false
  | VArr elems => forallb isArrayTree elems
  | _ => true
  end.

(** The strings of JavaScript.  A surrogate and its other half, when they
    stand side by side, are one character, of four bytes: the text of a
    string never holds, one after the other, the three bytes of the first
    half of a pair and the three bytes of a second half. *)
Definition leadingSurrogate (s : string) : option Z :=
  match s with
  | String c (String d (String e _)) => Json.surrogateUnit c d e
  | _ => None
  end.

Definition startsWithPair (s : string) : bool :=
  match leadingSurrogate s, leadingSurrogate (Json.dropChars 3 s) with
  | Some first, Some second => (first <? 56320) && (56320 <=? second)
  | _, _ => false
  end.

Fixpoint isJsString (s : string) : bool :=
  match s with
  | EmptyString => true
  | String _ r => negb (startsWithPair s) && isJsString r
  end.

(** The values of JavaScript: the numbers are doubles, and the strings,
    the names of properties among them, are strings of JavaScript. *)
Fixpoint isJsValue (v : JsValue) : bool :=
  match v with
  | VNum x => isDouble x
  | VStr s => isJsString s
  | VArr elems => forallb isJsValue elems
  | VObj props =>
      (fix fields (ps : list (string * JsValue)) : bool :=
         match ps with
         | [] => true
         | (k, w) :: ps' => isJsString k && isJsValue w && fields ps'
         end) props
  | _ => true
  end.

(** The scalars that JSON text holds as they are: [null], the booleans,
    the strings and the finite numbers other than [-0]. *)
Definition isJsonScalar (v : JsValue) : bool :=
  match v with
  | VNull | VBool _ => true
  | VStr s => isJsString s
  | VNum (NInt n) => isDouble (NInt n)
  | VNum (NFrac s places) => isDouble (NFrac s places)
  | _ => false
  end.

(** The values on which the codec is exact.  Under an object schema, whose
    field names are distinct: a record that has the declared fields and no
    other, each holding a scalar of JSON.  Under any other schema: an array
    of such scalars. *)
Definition holdsScalars (template : Schema) (value : JsValue) : Prop :=
  match template, value with
  | SObject shape, VObj props =>
      List.NoDup (List.map fst shape) /\
      Permutation (List.map fst props) (List.map fst shape) /\
      Forall (fun kv => isJsonScalar (snd kv) = true) props
  | SObject _, _ => False
  | _, VArr elems => Forall (fun v => isJsonScalar v = true) elems
  | _, _ => False
  end.

(** The properties that [JSON.stringify] writes: those whose value is not
    [undefined]. *)
Fixpoint written (props : list (string * JsValue)) : list (string * JsValue) :=
  match props with
  | [] => []
  | (_, VUndefined) :: rest => written rest
  | kv :: rest => kv :: written rest
  end.

(** The object that [JSON.parse] makes of the members of a text, in the
    order of the text. *)
Definition objectOf (members : list (string * JsValue)) : JsValue :=
  VObj (fold_left (fun props kv => Json.defineProp props (fst kv) (snd kv)) members []).

(** The value that [JSON.parse] reads from the text of [v]: [undefined],
    [NaN] and the infinities in an array have become [null], and [-0] has
    become [0]; an object has lost the properties that were [undefined] and
    has the others in the order of JavaScript. *)
Definition readBackNumber (x : JsNumber) : JsValue :=
  match x with
  | NNaN | NInfinity _ => VNull
  | NNegZero => VNum 0
  | _ => VNum x
  end.

Fixpoint readBack (v : JsValue) : JsValue :=
  match v with
  | VUndefined => VNull
  | VNum x => readBackNumber x
  | VArr elems => VArr (List.map readBack elems)
  | VObj props =>
      objectOf
        ((fix members (ps : list (string * JsValue)) : list (string * JsValue) :=
            match ps with
            | [] => []
            | (_, VUndefined) :: rest => members rest
            | (k, w) :: rest => (k, readBack w) :: members rest
            end) props)
  | _ => v
  end.

(** The fuel that parsing the text of a value takes. *)
Fixpoint weight (v : JsValue) : nat :=
  match v with
  | VArr elems => S (fold_right (fun item acc => S (weight item) + acc)%nat 0%nat elems)
  | VObj props =>
      S ((fix members (ps : list (string * JsValue)) : nat :=
            match ps with
            | [] => 0%nat
            | (_, VUndefined) :: rest => members rest
            | (_, w) :: rest => (S (weight w) + members rest)%nat
            end) props)
  | _ => 1
  end.

Definition itemsWeight (elems : list JsValue) : nat :=
  fold_right (fun item acc => S (weight item) + acc)%nat 0%nat elems.

Definition membersWeight (members : list (string * JsValue)) : nat :=
  fold_right (fun kv acc => S (weight (snd kv)) + acc)%nat 0%nat members.

Definition ParsesBack (v : JsValue) : Prop :=
  isJsValue v = true ->
  forall fuel rest, (weight v <= fuel)%nat -> endsValue rest = true ->
  Json.parseValue fuel (Json.stringifyValue v +:+ rest) = Some (readBack v, rest).

(** The text of a member of an object. *)
Definition memberText (kv : string * JsValue) : string :=
  Json.quote (fst kv) +:+ ":" +:+ Json.stringifyValue (snd kv).





(** *** The text of numbers *)

(** Digits only. *)
Fixpoint allDigits (s : string) : bool :=
  match s with
  | EmptyString => true
  | String c r => Json.isDigit c && allDigits r
  end.

(** No digit in front. *)
Definition notDigitHead (s : string) : bool :=
  match s with
  | EmptyString => true
  | String c _ => negb (Json.isDigit c)
  end.

(** *** Keys and decoded rows *)

(** [s.includes(c)] for a character. *)
Fixpoint containsChar (c : ascii) (s : string) : bool :=
  match s with
  | EmptyString => false
  | String d rest => Ascii.eqb c d || containsChar c rest
  end.

(** The record of the items of [arr] from index [idx] on, under the field
    names of [shape] in their order; [undefined] where [arr] has no item. *)
Fixpoint decodedFields (arr : list JsValue) (idx : nat) (shape : list (string * Schema))
  : list (string * JsValue) :=
  match shape with
  | [] => []
  | (key, _) :: rest => (key, nth idx arr VUndefined) :: decodedFields arr (S idx) rest
  end.

(** *** Digests as numbers *)


(** The place of a character in the alphabet. *)
Definition sextetOf (c : ascii) : Z :=
  (fix find (chars : list ascii) (n : Z) : Z :=
     match chars with
     | [] => n
     | d :: rest => if Ascii.eqb c d then n else find rest (n + 1)
     end) Base64Url.alphabet 0.

(** ** The schemas and records of the examples *)

Definition schemaA : Schema :=
  SObject [("userId", SPrimitive PString); ("userName", SNullable (SPrimitive PString))].

Definition schemaB : Schema :=
  SObject [("profile", schemaA); ("active", SPrimitive PBoolean)].

Definition readyClient : RedisClient :=
  {| isReady := fun _ => true; returnBuffers := false; keyspace := ∅ |}.

(** A client whose connection is never established. *)
Definition unconnectedClient : RedisClient :=
  {| isReady := fun _ => false; returnBuffers := false; keyspace := ∅ |}.

(** A client whose connection is established [periods] periods from now. *)
Definition connectingClient (periods : nat) : RedisClient :=
  {| isReady := fun n => (periods <=? n)%nat; returnBuffers := false; keyspace := ∅ |}.

Definition onceOptions : ExecutorOptions :=
  {| ttl := Some 2; readOnce := true; namespace := "ns" |}.

Definition plainOptions : ExecutorOptions :=
  {| ttl := None; readOnce := false; namespace := "ns" |}.


(** A store that holds the empty string under [ns+x]. *)
Definition emptyStringClient : RedisClient :=
  {| isReady := fun _ => true;
     returnBuffers := false;
     keyspace := {[ "ns+x" := {| entryValue := EmptyString; entryExpiry := None |} ]} |}.

(** A store that holds, under [ns+x], an array whose first item is a number
    where [schemaA] declares a string. *)
Definition invalidRecordClient : RedisClient :=
  {| isReady := fun _ => true;
     returnBuffers := false;
     keyspace := {[ "ns+x" := {| entryValue := "[7,null]"; entryExpiry := None |} ]} |}.

(** The same store with [readOnce] in view: another record sits under the
    bare key [x]. *)
Definition twoRecordsClient : RedisClient :=
  {| isReady := fun _ => true;
     returnBuffers := false;
     keyspace := {[ "ns+x" := {| entryValue := "[7,null]"; entryExpiry := None |};
                    "x" := {| entryValue := "[]"; entryExpiry := None |} ]} |}.

(** A digest function for the examples: the first bytes of the text, then
    zeros. *)
Definition prefixDigest (outputLength : nat) (text : string) : list Byte.byte :=
  firstn outputLength (list_byte_of_string text ++ repeat Byte.x00 outputLength).

(** A schema for the rows of a number and an optional string. *)
Definition schemaC : Schema :=
  SObject [("count", SPrimitive PNumber); ("note", SNullable (SPrimitive PString))].

(** A schema for the rows of one optional number. *)
Definition schemaD : Schema :=
  SObject [("score", SNullable (SPrimitive PNumber))].

(** A store that holds, under [ns+x], a row whose number is written with an
    exponent. *)
Definition exponentRowClient : RedisClient :=
  {| isReady := fun _ => true;
     returnBuffers := false;
     keyspace := {[ "ns+x" := {| entryValue := "[1e2,null]"; entryExpiry := None |} ]} |}.

(** A store that holds, under [ns+x], a text that is not an array. *)
Definition bareNumberClient : RedisClient :=
  {| isReady := fun _ => true;
     returnBuffers := false;
     keyspace := {[ "ns+x" := {| entryValue := "7"; entryExpiry := None |} ]} |}.

(** A client that answers with Buffers, over a store that holds the empty
    string under [ns+x]. *)
Definition emptyBufferClient : RedisClient :=
  {| isReady := fun _ => true;
     returnBuffers := true;
     keyspace := {[ "ns+x" := {| entryValue := EmptyString; entryExpiry := None |} ]} |}.

(** A store that holds an array of arrays under [ns+x]. *)
Definition nestedRowClient : RedisClient :=
  {| isReady := fun _ => true;
     returnBuffers := false;
     keyspace := {[ "ns+x" := {| entryValue := "[[1,2],true]"; entryExpiry := None |} ]} |}.

(** * Properties *)

Import RedisSchemaExecutor.
Import Json.

(** ** Strings *)

Lemma append_cons (ch : ascii) (a b : string) : String ch a +:+ b = String ch (a +:+ b).
Proof. reflexivity. Qed.

Lemma append_empty (b : string) : EmptyString +:+ b = b.
Proof. reflexivity. Qed.

Lemma append_assoc (a b c : string) : (a +:+ b) +:+ c = a +:+ (b +:+ c).
Proof.
  induction a as [| ch a IH]; [reflexivity |].
  rewrite !append_cons, IH. reflexivity.
Qed.

Lemma append_empty_r (t : string) : t +:+ EmptyString = t.
Proof. induction t as [| ch t IH]; [reflexivity | rewrite append_cons, IH; reflexivity]. Qed.

Lemma length_append (a b : string) :
  String.length (a +:+ b) = (String.length a + String.length b)%nat.
Proof.
  induction a as [| ch a IH]; [reflexivity |].
  rewrite append_cons. cbn [String.length]. rewrite IH. reflexivity.
Qed.

(** ** The readiness gate *)

Lemma onInterval_polling (attempt : nat) (ready : bool) (attempt' : nat) :
  onInterval attempt ready = GatePolling attempt' ->
  attempt' = S attempt /\ ready = false /\ (S attempt <= maxAttempts)%nat.
Proof.
  unfold onInterval. rewrite Nat.add_1_r.
  destruct (maxAttempts <? S attempt)%nat eqn:Hbound; [discriminate |].
  apply Nat.ltb_ge in Hbound.
  destruct ready; simpl; [discriminate |].
  intros [= <-]. auto.
Qed.

Lemma onInterval_resolved (attempt : nat) (ready : bool) (attempt' : nat) :
  onInterval attempt ready = GateResolved attempt' ->
  attempt' = S attempt /\ ready = true /\ (S attempt <= maxAttempts)%nat.
Proof.
  unfold onInterval. rewrite Nat.add_1_r.
  destruct (maxAttempts <? S attempt)%nat eqn:Hbound; [discriminate |].
  apply Nat.ltb_ge in Hbound.
  destruct ready; simpl; [| discriminate].
  intros [= <-]. auto.
Qed.

Lemma onInterval_not_ready (attempt : nat) (ready : bool) :
  onInterval attempt ready <> GateReady.
Proof.
  unfold onInterval.
  destruct (maxAttempts <? attempt + 1)%nat; [discriminate |].
  destruct ready; discriminate.
Qed.

(** The interval resolves at the first attempt, among the 300, at which
    [isReady] holds. *)
Lemma pollInterval_resolved (ticks attempt : nat) (c : RedisClient) (k : nat) :
  pollInterval ticks attempt c = GateResolved k ->
  (attempt < k <= maxAttempts)%nat /\ isReady c k = true /\
  forall j, (attempt < j < k)%nat -> isReady c j = false.
Proof.
  revert attempt. induction ticks as [| ticks IH]; intros attempt; simpl; [discriminate |].
  destruct (onInterval attempt (isReady c (attempt + 1)%nat)) as [| a' | a' |] eqn:Hstep.
  - discriminate.
  - apply onInterval_polling in Hstep as (-> & Hnot & Hle).
    intros Hrest. apply IH in Hrest as (Hk & Hready & Hbefore).
    split; [lia |]. split; [exact Hready |].
    intros j Hj. destruct (Nat.eq_dec j (S attempt)) as [-> | Hne].
    + rewrite Nat.add_1_r in Hnot. exact Hnot.
    + apply Hbefore. lia.
  - apply onInterval_resolved in Hstep as (-> & Hready & Hle).
    intros [= <-]. rewrite Nat.add_1_r in Hready.
    split; [lia |]. split; [exact Hready |]. intros j Hj. lia.
  - discriminate.
Qed.

Lemma pollInterval_not_ready (ticks attempt : nat) (c : RedisClient) :
  pollInterval ticks attempt c <> GateReady.
Proof.
  revert attempt. induction ticks as [| ticks IH]; intros attempt; simpl; [discriminate |].
  destruct (onInterval attempt (isReady c (attempt + 1)%nat)) eqn:Hstep;
    try discriminate; auto.
  exfalso. exact (onInterval_not_ready _ _ Hstep).
Qed.

(** Once the attempts are used up, the interval is no longer live. *)
Lemma pollInterval_settles (ticks attempt : nat) (c : RedisClient) (a : nat) :
  (attempt <= maxAttempts)%nat ->
  (maxAttempts < attempt + ticks)%nat ->
  pollInterval ticks attempt c <> GatePolling a.
Proof.
  revert attempt. induction ticks as [| ticks IH]; intros attempt Hle Hlt; simpl.
  - lia.
  - destruct (onInterval attempt (isReady c (attempt + 1)%nat)) as [| a' | a' |] eqn:Hstep;
      try discriminate.
    apply onInterval_polling in Hstep as (-> & _ & Hle').
    apply IH; lia.
Qed.

(** If [isReady] holds at none of the 300 attempts, attempt 301 throws. *)
Lemma pollInterval_times_out (ticks attempt : nat) (c : RedisClient) :
  (forall j, (attempt < j <= maxAttempts)%nat -> isReady c j = false) ->
  (maxAttempts < attempt + ticks)%nat ->
  (attempt <= maxAttempts)%nat ->
  pollInterval ticks attempt c = GateTimedOut.
Proof.
  revert attempt. induction ticks as [| ticks IH]; intros attempt Hnever Hlt Hle; simpl.
  - lia.
  - unfold onInterval. rewrite Nat.add_1_r.
    destruct (maxAttempts <? S attempt)%nat eqn:Hbound; [reflexivity |].
    apply Nat.ltb_ge in Hbound.
    rewrite Hnever by lia. simpl.
    apply IH; [intros j Hj; apply Hnever; lia | lia | lia].
Qed.

(** The interval resolves at attempt [k] when [isReady] first holds there. *)
Lemma pollInterval_first_ready (ticks attempt : nat) (c : RedisClient) (k : nat) :
  (attempt < k <= maxAttempts)%nat ->
  isReady c k = true ->
  (forall j, (attempt < j < k)%nat -> isReady c j = false) ->
  (k <= attempt + ticks)%nat ->
  pollInterval ticks attempt c = GateResolved k.
Proof.
  revert attempt. induction ticks as [| ticks IH]; intros attempt Hk Hready Hbefore Hticks; simpl.
  - lia.
  - unfold onInterval. rewrite Nat.add_1_r.
    destruct (maxAttempts <? S attempt)%nat eqn:Hbound.
    + apply Nat.ltb_lt in Hbound. lia.
    + destruct (Nat.eq_dec k (S attempt)) as [-> | Hne].
      * rewrite Hready. reflexivity.
      * rewrite Hbefore by lia. simpl.
        apply IH; [lia | exact Hready | intros j Hj; apply Hbefore; lia | lia].
Qed.

Lemma waitInitialization_ready (c : RedisClient) :
  isReady c 0%nat = true -> waitInitialization c = GateReady.
Proof.
  intros Hready. unfold waitInitialization, waitInitializationAfter.
  rewrite Hready. reflexivity.
Qed.

(** When the gate lets a call through, its body runs on a client that is
    ready and has the key space of the call. *)
Lemma afterGate_open {A : Type} (c : RedisClient)
    (body : RedisClient -> Promise A * RedisClient) :
  gatePromise (waitInitialization c) = Resolved tt ->
  exists c', afterGate c body = body c' /\
             keyspace c' = keyspace c /\
             returnBuffers c' = returnBuffers c /\
             isReady c' 0%nat = true.
Proof.
  intros Hopen. unfold afterGate.
  destruct (waitInitialization c) as [| a | k |] eqn:Hgate; simpl in Hopen; try discriminate.
  - exists c. repeat split; try reflexivity.
    unfold waitInitialization, waitInitializationAfter in Hgate.
    destruct (isReady c 0%nat); [reflexivity |].
    exfalso. exact (pollInterval_not_ready _ _ _ Hgate).
  - exists (Client.elapse k c). simpl. repeat split; try reflexivity.
    unfold waitInitialization, waitInitializationAfter in Hgate.
    destruct (isReady c 0%nat); [discriminate |].
    apply pollInterval_resolved in Hgate as (_ & Hready & _).
    rewrite Nat.add_0_r. exact Hready.
Qed.

Lemma afterGate_ready {A : Type} (c : RedisClient)
    (body : RedisClient -> Promise A * RedisClient) :
  isReady c 0%nat = true -> afterGate c body = body c.
Proof.
  intros Hready. unfold afterGate. rewrite (waitInitialization_ready c Hready). reflexivity.
Qed.

(** The gate returns at once when the client is ready. *)
Lemma waitInitialization_immediate (c : RedisClient) :
  isReady c 0%nat = true ->
  waitInitialization c = GateReady /\ gateTicks (waitInitialization c) = 0%nat.
Proof. intros Hready. rewrite (waitInitialization_ready c Hready). auto. Qed.

(** The gate resolves at the first of the 300 attempts at which the client
    is ready, [k] periods of 100 ms after the call. *)
Lemma waitInitialization_resolves (c : RedisClient) (k : nat) :
  (0 < k <= maxAttempts)%nat ->
  isReady c k = true ->
  (forall j, (j < k)%nat -> isReady c j = false) ->
  waitInitialization c = GateResolved k /\
  gateMilliseconds (waitInitialization c) = 100 * Z.of_nat k /\
  gatePromise (waitInitialization c) = Resolved tt.
Proof.
  intros Hk Hready Hbefore.
  assert (Hgate : waitInitialization c = GateResolved k).
  { unfold waitInitialization, waitInitializationAfter.
    rewrite Hbefore by lia.
    apply pollInterval_first_ready; [lia | exact Hready | intros j Hj; apply Hbefore; lia | lia]. }
  rewrite Hgate. auto.
Qed.

(** A client that is ready at none of the first 300 periods: the timeout is
    thrown, and the promise is left pending. *)
Lemma waitInitialization_times_out (c : RedisClient) :
  (forall j, (j <= maxAttempts)%nat -> isReady c j = false) ->
  waitInitialization c = GateTimedOut /\
  gatePromise (waitInitialization c) = Pending.
Proof.
  intros Hnever.
  assert (Hgate : waitInitialization c = GateTimedOut).
  { unfold waitInitialization, waitInitializationAfter.
    rewrite Hnever by lia.
    apply pollInterval_times_out; [intros j Hj; apply Hnever; lia | lia | lia]. }
  rewrite Hgate. auto.
Qed.

(** Whatever the client does, no promise of the gate is ever rejected. *)
Lemma gatePromise_never_rejected (g : GateState) (e : JsError) :
  gatePromise g <> Rejected e.
Proof. destruct g; discriminate. Qed.

(** C5: a client that never becomes ready.  The gate polls 300 times and
    throws at attempt 301, after 30.1 s, from the timer callback; the
    promise of the gate, and with it the promise of [get], stays pending. *)
Theorem waitInitialization_timeout_example :
  waitInitialization unconnectedClient = GateTimedOut /\
  gateMilliseconds (waitInitialization unconnectedClient) = 30100 /\
  gateUncaught (waitInitialization unconnectedClient) = Some InitializationTimeout /\
  gatePromise (waitInitialization unconnectedClient) = Pending /\
  fst (get schemaA plainOptions "x" true unconnectedClient) = Pending.
Proof. vm_compute. repeat split; reflexivity. Qed.

(** ** The executor: reading *)

Ltac open_gate Hopen c' :=
  match goal with
  | |- context [afterGate ?c ?body] =>
      let Heq := fresh "Heq" in
      destruct (afterGate_open c body Hopen) as (c' & Heq & ? & ? & ?);
      rewrite Heq; clear Heq
  end.

(** What [client.get] answers depends on the key space and on the reply
    mode alone. *)
Lemma Client_get_ext (key : string) (c c' : RedisClient) :
  keyspace c' = keyspace c -> returnBuffers c' = returnBuffers c ->
  Client.get key c' = Client.get key c.
Proof. intros Hks Hrb. unfold Client.get. rewrite Hks, Hrb. reflexivity. Qed.

(** A reply that is falsy: [get] answers as for a missing key and leaves
    the key space alone. *)
Lemma get_falsy_reply (template : Schema) (options : ExecutorOptions) (key : string)
    (force : bool) (c : RedisClient) :
  gatePromise (waitInitialization c) = Resolved tt ->
  replyTruthy (Client.get (fullKey options key) c) = false ->
  fst (get template options key force c)
    = (if force then Rejected (KeyNotFound key) else Resolved VNull) /\
  keyspace (snd (get template options key force c)) = keyspace c.
Proof.
  intros Hopen Hfalsy. unfold get. open_gate Hopen c'.
  rewrite (Client_get_ext _ c c') by assumption.
  rewrite Hfalsy. simpl. destruct force; simpl; auto.
Qed.

(** A reply that is truthy: [get] answers what [sealJsonParser] gives. *)
Lemma get_truthy_reply (template : Schema) (options : ExecutorOptions) (key : string)
    (force : bool) (c : RedisClient) :
  gatePromise (waitInitialization c) = Resolved tt ->
  replyTruthy (Client.get (fullKey options key) c) = true ->
  fst (get template options key force c)
    = settle (sealJsonParser (replyText (Client.get (fullKey options key) c)) template).
Proof.
  intros Hopen Htruthy. unfold get. open_gate Hopen c'.
  rewrite (Client_get_ext _ c c') by assumption.
  rewrite Htruthy. reflexivity.
Qed.

(** C6: for a key that the store does not hold, [get(key, true)] fails with
    the not-found error and [get(key)] returns null. *)
Theorem get_absent_key (template : Schema) (options : ExecutorOptions) (key : string)
    (c : RedisClient) :
  gatePromise (waitInitialization c) = Resolved tt ->
  keyspace c !! fullKey options key = None ->
  fst (get template options key true c) = Rejected (KeyNotFound key) /\
  fst (get template options key false c) = Resolved VNull.
Proof.
  intros Hopen Habsent.
  assert (Hfalsy : replyTruthy (Client.get (fullKey options key) c) = false).
  { unfold Client.get. rewrite Habsent. reflexivity. }
  split.
  - apply (get_falsy_reply template options key true c Hopen Hfalsy).
  - apply (get_falsy_reply template options key false c Hopen Hfalsy).
Qed.

Lemma get_absent_key_witness :
  fst (get schemaA plainOptions "missing" true readyClient) = Rejected (KeyNotFound "missing") /\
  fst (get schemaA plainOptions "missing" false readyClient) = Resolved VNull.
Proof.
  apply (get_absent_key schemaA plainOptions "missing" readyClient).
  - reflexivity.
  - reflexivity.
Defined.

(** C9: a store that holds the empty string at the full key is read as a
    store that holds nothing there: [get(key)] returns null,
    [get(key, true)] fails with the not-found error, and the key space is
    left as it was. *)
Theorem get_empty_string_is_absent (template : Schema) (options : ExecutorOptions)
    (key : string) (expiry : option Z) (c : RedisClient) :
  gatePromise (waitInitialization c) = Resolved tt ->
  returnBuffers c = false ->
  keyspace c !! fullKey options key = Some {| entryValue := EmptyString; entryExpiry := expiry |} ->
  fst (get template options key false c) = Resolved VNull /\
  fst (get template options key true c) = Rejected (KeyNotFound key) /\
  (forall force, keyspace (snd (get template options key force c)) = keyspace c).
Proof.
  intros Hopen Htext Hempty.
  assert (Hfalsy : replyTruthy (Client.get (fullKey options key) c) = false).
  { unfold Client.get. rewrite Hempty, Htext. reflexivity. }
  split; [| split].
  - apply (get_falsy_reply template options key false c Hopen Hfalsy).
  - apply (get_falsy_reply template options key true c Hopen Hfalsy).
  - intros force. apply (get_falsy_reply template options key force c Hopen Hfalsy).
Qed.

Lemma get_empty_string_is_absent_witness :
  fst (get schemaA onceOptions "x" false emptyStringClient) = Resolved VNull /\
  fst (get schemaA onceOptions "x" true emptyStringClient) = Rejected (KeyNotFound "x") /\
  (forall force,
     keyspace (snd (get schemaA onceOptions "x" force emptyStringClient))
     = keyspace emptyStringClient).
Proof.
  apply (get_empty_string_is_absent schemaA onceOptions "x" None emptyStringClient).
  - reflexivity.
  - reflexivity.
  - reflexivity.
Defined.

(** C7: a record whose text parses to an array from which the value is
    rebuilt, the rebuilt value failing validation, is read as null, with
    [force] or without. *)
Theorem get_invalid_record_is_null (template : Schema) (options : ExecutorOptions)
    (key : string) (force : bool) (c : RedisClient) (elems : list JsValue) (obj : JsValue) :
  gatePromise (waitInitialization c) = Resolved tt ->
  replyTruthy (Client.get (fullKey options key) c) = true ->
  Json.parse (replyText (Client.get (fullKey options key) c)) = Normal (VArr elems) ->
  match template with
  | SObject shape => fromCompressedArray elems shape
  | _ => Normal (VArr elems)
  end = Normal obj ->
  validate template obj <> [] ->
  fst (get template options key force c) = Resolved VNull.
Proof.
  intros Hopen Htruthy Hparse Hrebuilt Hinvalid.
  rewrite (get_truthy_reply template options key force c Hopen Htruthy).
  unfold sealJsonParser. rewrite Hparse. cbn [bindC].
  destruct template as [kind | inner | item | shape].
  - injection Hrebuilt as <-.
    destruct (validate (SPrimitive kind) (VArr elems)); [contradiction | reflexivity].
  - injection Hrebuilt as <-.
    destruct (validate (SNullable inner) (VArr elems)); [contradiction | reflexivity].
  - injection Hrebuilt as <-.
    destruct (validate (SArray item) (VArr elems)); [contradiction | reflexivity].
  - rewrite Hrebuilt. cbn [bindC].
    destruct (validate (SObject shape) obj); [contradiction | reflexivity].
Qed.

Lemma get_invalid_record_is_null_witness :
  fst (get schemaA plainOptions "x" true invalidRecordClient) = Resolved VNull.
Proof.
  apply (get_invalid_record_is_null schemaA plainOptions "x" true invalidRecordClient
           [VNum 7; VNull] (VObj [("userId", VNum 7); ("userName", VNull)])).
  - reflexivity.
  - reflexivity.
  - vm_compute. reflexivity.
  - reflexivity.
  - vm_compute. discriminate.
Defined.

(** ** The executor: the key handed to [del] *)

(** The full key of a key is never that key. *)
Lemma fullKey_differs (options : ExecutorOptions) (key : string) :
  fullKey options key <> key.
Proof.
  intros Heq. apply (f_equal String.length) in Heq.
  unfold fullKey in Heq. rewrite !length_append in Heq. simpl in Heq. lia.
Qed.

Lemma Client_del_other (key other : string) (c : RedisClient) :
  other <> key ->
  keyspace (snd (Client.del key c)) !! other = keyspace c !! other.
Proof.
  intros Hne. unfold Client.del.
  destruct (keyspace c !! key); simpl; [| reflexivity].
  apply lookup_delete_ne. congruence.
Qed.

(** [delete(key)] returns what [DEL key] counts and leaves the record
    under the full key of [key] where it is. *)
Lemma delete_keeps_record (options : ExecutorOptions) (key : string) (c : RedisClient) :
  gatePromise (waitInitialization c) = Resolved tt ->
  fst (delete key c)
    = Resolved (match keyspace c !! key with Some _ => 1 | None => 0 end) /\
  keyspace (snd (delete key c)) !! fullKey options key = keyspace c !! fullKey options key.
Proof.
  intros Hopen. unfold delete. open_gate Hopen c'.
  match goal with Hks : keyspace c' = keyspace c |- _ => rename Hks into Hsame end.
  rewrite <- Hsame.
  split.
  - unfold Client.del. destruct (keyspace c' !! key); reflexivity.
  - destruct (Client.del key c') as [removed c''] eqn:Hdel. simpl.
    change c'' with (snd (removed, c'')). rewrite <- Hdel.
    apply Client_del_other. apply fullKey_differs.
Qed.

(** With [readOnce], a [get] that finds a record leaves it in the store. *)
Lemma get_keeps_record (template : Schema) (options : ExecutorOptions) (key : string)
    (force : bool) (c : RedisClient) :
  gatePromise (waitInitialization c) = Resolved tt ->
  keyspace (snd (get template options key force c)) !! fullKey options key
  = keyspace c !! fullKey options key.
Proof.
  intros Hopen. unfold get. open_gate Hopen c'.
  match goal with Hks : keyspace c' = keyspace c |- _ => rename Hks into Hsame end.
  match goal with Hrd : isReady c' 0%nat = true |- _ => rename Hrd into Hready end.
  rewrite <- Hsame.
  destruct (replyTruthy (Client.get (fullKey options key) c')); simpl.
  - destruct (readOnce options); [| reflexivity].
    apply (delete_keeps_record options key c').
    rewrite (waitInitialization_ready c' Hready). reflexivity.
  - destruct force; reflexivity.
Qed.

(** C4: [delete("x")] after [set("x", ...)] removes nothing, returns 0 and
    leaves the record under [ns+x]. *)
Theorem delete_leaves_record_example :
  let value := VObj [("userId", VStr "7"); ("userName", VNull)] in
  let stored := snd (set schemaA plainOptions "x" value readyClient) in
  let deleted := delete "x" stored in
  fst deleted = Resolved 0 /\
  keyspace (snd deleted) !! fullKey plainOptions "x" = keyspace stored !! fullKey plainOptions "x" /\
  fst (get schemaA plainOptions "x" false (snd deleted)) = Resolved value.
Proof. vm_compute. repeat split; reflexivity. Qed.

(** C3: the third example of the specification.  The record set with
    [readOnce] is read by the first [get] and again by the second one. *)
Theorem readOnce_second_get_example :
  let value := VObj [("userId", VStr "7"); ("userName", VNull)] in
  let stored := snd (set schemaA onceOptions "x" value readyClient) in
  let first := get schemaA onceOptions "x" false stored in
  let second := get schemaA onceOptions "x" false (snd first) in
  fst first = Resolved value /\ fst second = Resolved value.
Proof. vm_compute. split; reflexivity. Qed.

(** C10: a [readOnce] store that holds an invalid record under [ns+x] and
    another record under [x].  [get("x")] returns null; its [del] removes
    the record under [x], and the record under [ns+x] stays. *)
Theorem readOnce_invalid_record_example :
  let read := get schemaA onceOptions "x" false twoRecordsClient in
  fst read = Resolved VNull /\
  keyspace (snd read) !! "x" = None /\
  keyspace (snd read) !! "ns+x" = Some {| entryValue := "[7,null]"; entryExpiry := None |}.
Proof. vm_compute. repeat split; reflexivity. Qed.

(** ** JSON text: the ends of values *)

Lemma endsValue_cases (rest : string) :
  endsValue rest = true ->
  rest = EmptyString \/ (exists r, rest = String ","%char r) \/
  (exists r, rest = String "]"%char r) \/ (exists r, rest = String "}"%char r).
Proof.
  destruct rest as [| c r]; [auto |]. simpl. intros H.
  apply orb_true_iff in H as [H | H]; [apply orb_true_iff in H as [H | H] |];
    apply Ascii.eqb_eq in H; subst c; eauto.
Qed.


(** ** The text of numbers *)

Lemma code_range (c : ascii) : 0 <= code c < 256.
Proof. unfold code. pose proof (N_ascii_bounded c). lia. Qed.

Lemma charOf_code (c : ascii) : charOf (code c) = c.
Proof. unfold charOf, code. rewrite N2Z.id. apply ascii_N_embedding. Qed.

Lemma code_charOf (n : Z) : 0 <= n < 256 -> code (charOf n) = n.
Proof.
  intros Hn. unfold charOf, code. rewrite N_ascii_embedding by lia. lia.
Qed.

Lemma code_nat (c : ascii) : Z.of_nat (nat_of_ascii c) = code c.
Proof. unfold nat_of_ascii, code. apply N_nat_Z. Qed.

Lemma isDigit_code (c : ascii) : isDigit c = true <-> 48 <= code c <= 57.
Proof.
  unfold isDigit. rewrite <- code_nat. cbn zeta. rewrite andb_true_iff, !Nat.leb_le.
  generalize (nat_of_ascii c). intros n. split; intros [H1 H2]; split; lia.
Qed.

Lemma isDigit_false_code (c : ascii) : isDigit c = false <-> ~ (48 <= code c <= 57).
Proof.
  rewrite <- isDigit_code. destruct (isDigit c); split; congruence.
Qed.

Lemma digitChar_digit (d : Z) :
  0 <= d <= 9 -> isDigit (digitChar d) = true /\ digitValue (digitChar d) = d.
Proof.
  intros Hd. unfold digitValue, digitChar. split.
  - apply isDigit_code. rewrite code_charOf by lia. lia.
  - rewrite code_charOf by lia. lia.
Qed.

Lemma digitChar_zero (d : Z) : 0 <= d <= 9 -> digitChar d = "0"%char -> d = 0.
Proof.
  intros Hd Heq. pose proof (proj2 (digitChar_digit d Hd)) as Hv.
  rewrite Heq in Hv. change (digitValue "0"%char) with 0 in Hv. lia.
Qed.

Lemma allDigits_append (a b : string) : allDigits (a +:+ b) = allDigits a && allDigits b.
Proof.
  induction a as [| c a IH]; [reflexivity |].
  rewrite append_cons. cbn [allDigits]. rewrite IH, andb_assoc. reflexivity.
Qed.

Lemma valueOf_append (a b : string) (v : Z) : valueOf v (a +:+ b) = valueOf (valueOf v a) b.
Proof.
  revert v. induction a as [| c a IH]; intros v; [reflexivity |].
  rewrite append_cons. cbn [valueOf]. apply IH.
Qed.

Lemma valueOf_zeros (j : nat) (v : Z) : valueOf v (zeros j) = v * 10 ^ Z.of_nat j.
Proof.
  revert v. induction j as [| j IH]; intros v.
  - cbn. lia.
  - cbn [zeros valueOf]. rewrite IH. change (digitValue "0"%char) with 0.
    rewrite Nat2Z.inj_succ, Z.pow_succ_r by lia. lia.
Qed.

Lemma allDigits_zeros (j : nat) : allDigits (zeros j) = true.
Proof. induction j as [| j IH]; [reflexivity | exact IH]. Qed.

Lemma length_zeros (j : nat) : String.length (zeros j) = j.
Proof. induction j as [| j IH]; [reflexivity | cbn; rewrite IH; reflexivity]. Qed.

Lemma spanDigits_append (ds rest : string) :
  allDigits ds = true -> notDigitHead rest = true ->
  spanDigits (ds +:+ rest) = (ds, rest).
Proof.
  intros Hds Hrest. induction ds as [| c ds IH].
  - rewrite append_empty. destruct rest as [| c r]; [reflexivity |].
    cbn in Hrest |- *. apply negb_true_iff in Hrest. rewrite Hrest. reflexivity.
  - cbn [allDigits] in Hds. apply andb_true_iff in Hds as [Hc Hds].
    rewrite append_cons. cbn [spanDigits]. rewrite Hc, (IH Hds). reflexivity.
Qed.

Lemma takeChars_dropChars (n : nat) (s : string) : takeChars n s +:+ dropChars n s = s.
Proof.
  revert s. induction n as [| n IH]; intros [| c s]; try reflexivity.
  cbn [takeChars dropChars]. rewrite append_cons, IH. reflexivity.
Qed.

Lemma length_takeChars (n : nat) (s : string) :
  (n <= String.length s)%nat -> String.length (takeChars n s) = n.
Proof.
  revert s. induction n as [| n IH]; intros [| c s] Hn; cbn in *; try lia.
  rewrite IH by lia. reflexivity.
Qed.

Lemma length_dropChars (n : nat) (s : string) :
  String.length (dropChars n s) = (String.length s - n)%nat.
Proof.
  revert s. induction n as [| n IH]; intros [| c s]; cbn; try lia.
  apply IH.
Qed.

(** The digits of a number: digits indeed, at least one, none of them a
    zero in front, and the number is what they write. *)
Lemma digitsFrom_spec (fuel : nat) (n : Z) (acc : string) :
  0 <= n < 2 ^ Z.of_nat (S fuel) ->
  exists c t,
    digitsFrom (S fuel) n acc = String c t +:+ acc /\
    allDigits (String c t) = true /\
    (forall v, valueOf v (String c t) = v * 10 ^ Z.of_nat (String.length (String c t)) + n) /\
    (0 < n -> c <> "0"%char).
Proof.
  revert n acc. induction fuel as [| fuel IH]; intros n acc Hn.
  - assert (Hsmall : n < 10).
    { change (2 ^ Z.of_nat 1) with 2 in Hn. lia. }
    cbn [digitsFrom]. apply Z.ltb_lt in Hsmall as Hlt. rewrite Hlt.
    rewrite Z.mod_small by lia.
    destruct (digitChar_digit n) as (Hd & Hv); [lia |].
    exists (digitChar n), EmptyString. repeat split.
    + cbn [allDigits]. rewrite Hd. reflexivity.
    + intros v. cbn [valueOf String.length]. rewrite Hv. change (10 ^ Z.of_nat 1) with 10. lia.
    + intros Hpos Hzero. apply digitChar_zero in Hzero; lia.
  - change (digitsFrom (S (S fuel)) n acc)
      with (if n <? 10 then String (digitChar (n mod 10)) acc
            else digitsFrom (S fuel) (n / 10) (String (digitChar (n mod 10)) acc)).
    destruct (n <? 10) eqn:Hlt.
    + apply Z.ltb_lt in Hlt. rewrite Z.mod_small by lia.
      destruct (digitChar_digit n) as (Hd & Hv); [lia |].
      exists (digitChar n), EmptyString. repeat split.
      * cbn [allDigits]. rewrite Hd. reflexivity.
      * intros v. cbn [valueOf String.length]. rewrite Hv. change (10 ^ Z.of_nat 1) with 10. lia.
      * intros Hpos Hzero. apply digitChar_zero in Hzero; lia.
    + apply Z.ltb_ge in Hlt.
      assert (Hdiv : 0 <= n / 10 < 2 ^ Z.of_nat (S fuel)).
      { split; [apply Z.div_pos; lia |].
        apply Z.div_lt_upper_bound; [lia |].
        rewrite (Nat2Z.inj_succ (S fuel)), Z.pow_succ_r in Hn by lia. lia. }
      destruct (IH (n / 10) (String (digitChar (n mod 10)) acc) Hdiv)
        as (c & t & Htext & Hall & Hvalue & Hhead).
      pose proof (Z.mod_pos_bound n 10 ltac:(lia)) as Hmod.
      destruct (digitChar_digit (n mod 10)) as (Hd & Hv); [lia |].
      exists c, (t +:+ String (digitChar (n mod 10)) EmptyString). repeat split.
      * rewrite Htext. rewrite !append_cons, append_assoc. reflexivity.
      * rewrite <- append_cons, allDigits_append, Hall. cbn [allDigits]. rewrite Hd. reflexivity.
      * intros v. rewrite <- append_cons, valueOf_append, Hvalue.
        cbn [valueOf]. rewrite Hv.
        rewrite length_append. cbn [String.length].
        replace (Z.of_nat (S (String.length t) + 1)) with (Z.succ (Z.of_nat (S (String.length t))))
          by lia.
        rewrite Z.pow_succ_r by lia.
        pose proof (Z.div_mod n 10 ltac:(lia)). cbn [String.length] in *. lia.
      * intros _. apply Hhead. apply Z.div_str_pos. lia.
Qed.

Lemma digitsOf_spec (n : Z) :
  0 <= n ->
  exists c t,
    digitsOf n = String c t /\
    allDigits (String c t) = true /\
    (forall v, valueOf v (String c t) = v * 10 ^ Z.of_nat (String.length (String c t)) + n) /\
    (0 < n -> c <> "0"%char).
Proof.
  intros Hn. unfold digitsOf.
  destruct (digitsFrom_spec (Z.to_nat (Z.log2 n)) n EmptyString) as (c & t & Htext & Hrest).
  - split; [exact Hn |].
    rewrite Nat2Z.inj_succ, Z2Nat.id by apply Z.log2_nonneg.
    destruct (Z.eq_dec n 0) as [-> | Hne]; [reflexivity |].
    apply Z.log2_spec. lia.
  - exists c, t. rewrite Htext, append_empty_r. split; [reflexivity | exact Hrest].
Qed.

(** *** Zeros at the end of the digits *)

Lemma stripZerosFrom_pow (fuel j : nat) (s e : Z) :
  0 < s -> s mod 10 <> 0 -> (j <= fuel)%nat ->
  stripZerosFrom fuel (s * 10 ^ Z.of_nat j) e = (s, e + Z.of_nat j).
Proof.
  intros Hs Hcanon. revert fuel e. induction j as [| j IH]; intros fuel e Hfuel.
  - rewrite Z.pow_0_r, Z.mul_1_r, Z.add_0_r.
    destruct fuel as [| fuel]; [reflexivity |].
    cbn [stripZerosFrom]. apply Z.eqb_neq in Hcanon. rewrite Hcanon. reflexivity.
  - destruct fuel as [| fuel]; [lia |].
    cbn [stripZerosFrom].
    rewrite Nat2Z.inj_succ, Z.pow_succ_r by lia.
    replace (s * (10 * 10 ^ Z.of_nat j)) with ((s * 10 ^ Z.of_nat j) * 10) by lia.
    rewrite Z.mod_mul by lia. rewrite Z.div_mul by lia.
    assert (Hpos : 0 < s * 10 ^ Z.of_nat j) by (apply Z.mul_pos_pos; lia).
    assert (Hne : (s * 10 ^ Z.of_nat j * 10 =? 0) = false) by (apply Z.eqb_neq; lia).
    rewrite Hne. cbn [Z.eqb andb negb].
    rewrite IH by lia. f_equal. lia.
Qed.

Lemma stripZeros_pow (j : nat) (s e : Z) :
  0 < s -> s mod 10 <> 0 ->
  stripZeros (s * 10 ^ Z.of_nat j) e = (s, e + Z.of_nat j).
Proof.
  intros Hs Hcanon. unfold stripZeros. apply stripZerosFrom_pow; try assumption.
  assert (Hle : Z.of_nat j <= Z.log2 (s * 10 ^ Z.of_nat j)).
  { apply Z.log2_le_pow2; [apply Z.mul_pos_pos; lia |].
    assert (2 ^ Z.of_nat j <= 10 ^ Z.of_nat j) by (apply Z.pow_le_mono_l; lia).
    assert (0 < 10 ^ Z.of_nat j) by lia. nia. }
  lia.
Qed.

Lemma stripZeros_canonical_id (s e : Z) :
  0 < s -> s mod 10 <> 0 -> stripZeros s e = (s, e).
Proof.
  intros Hs Hcanon. pose proof (stripZeros_pow 0 s e Hs Hcanon) as H.
  rewrite Z.pow_0_r, Z.mul_1_r, Z.add_0_r in H. exact H.
Qed.

Lemma stripZerosFrom_canonical (fuel : nat) (m e : Z) :
  0 < m < 2 ^ Z.of_nat fuel ->
  exists s j, stripZerosFrom fuel m e = (s, e + Z.of_nat j) /\
              0 < s /\ s mod 10 <> 0 /\ m = s * 10 ^ Z.of_nat j.
Proof.
  revert m e. induction fuel as [| fuel IH]; intros m e Hm.
  - change (2 ^ Z.of_nat 0) with 1 in Hm. lia.
  - cbn [stripZerosFrom].
    destruct (m mod 10 =? 0) eqn:Hmod.
    + apply Z.eqb_eq in Hmod.
      assert (Hne : (m =? 0) = false) by (apply Z.eqb_neq; lia).
      rewrite Hne. cbn [andb negb].
      pose proof (Z.div_mod m 10 ltac:(lia)) as Hdm.
      destruct (IH (m / 10) (e + 1)) as (s & j & Hstrip & Hs & Hcanon & Hvalue).
      { rewrite Nat2Z.inj_succ, Z.pow_succ_r in Hm by lia. lia. }
      exists s, (S j). rewrite Hstrip. repeat split; try assumption.
      * f_equal. lia.
      * rewrite Nat2Z.inj_succ, Z.pow_succ_r by lia. lia.
    + cbn [andb]. apply Z.eqb_neq in Hmod.
      exists m, 0%nat. rewrite Z.add_0_r, Z.pow_0_r, Z.mul_1_r.
      repeat split; try assumption; lia.
Qed.

Lemma stripZeros_canonical (m e : Z) :
  0 < m ->
  exists s j, stripZeros m e = (s, e + Z.of_nat j) /\
              0 < s /\ s mod 10 <> 0 /\ m = s * 10 ^ Z.of_nat j.
Proof.
  intros Hm. unfold stripZeros. apply stripZerosFrom_canonical.
  split; [exact Hm |].
  rewrite Nat2Z.inj_succ, Z2Nat.id by apply Z.log2_nonneg.
  apply Z.log2_spec. exact Hm.
Qed.

(** A decimal denotes the number of its digits without the zeros at their
    end. *)
Lemma fromDecimal_scaled (negative : bool) (s e : Z) (j : nat) :
  0 < s -> s mod 10 <> 0 ->
  fromDecimal negative (s * 10 ^ Z.of_nat j) (e - Z.of_nat j) = fromDecimal negative s e.
Proof.
  intros Hs Hcanon. unfold fromDecimal.
  assert (Hpos : 0 < s * 10 ^ Z.of_nat j) by (apply Z.mul_pos_pos; lia).
  assert (H1 : (s * 10 ^ Z.of_nat j =? 0) = false) by (apply Z.eqb_neq; lia).
  assert (H2 : (s =? 0) = false) by (apply Z.eqb_neq; lia).
  rewrite H1, H2, (stripZeros_pow j s _ Hs Hcanon), (stripZeros_canonical_id s e Hs Hcanon).
  replace (e - Z.of_nat j + Z.of_nat j) with e by lia. reflexivity.
Qed.

(** *** Reading what was printed *)

Lemma endsValue_notDigitHead (rest : string) : endsValue rest = true -> notDigitHead rest = true.
Proof.
  intros H. destruct (endsValue_cases rest H) as [-> | [[r ->] | [[r ->] | [r ->]]]]; reflexivity.
Qed.

Lemma parseFraction_absent (rest : string) :
  endsValue rest = true -> parseFraction rest = Some (EmptyString, rest).
Proof.
  intros H. destruct (endsValue_cases rest H) as [-> | [[r ->] | [[r ->] | [r ->]]]]; reflexivity.
Qed.

Lemma parseExponent_absent (rest : string) :
  endsValue rest = true -> parseExponent rest = Some (0, rest).
Proof.
  intros H. destruct (endsValue_cases rest H) as [-> | [[r ->] | [[r ->] | [r ->]]]]; reflexivity.
Qed.

Lemma parseFraction_digits (ds rest : string) :
  allDigits ds = true -> ds <> EmptyString -> notDigitHead rest = true ->
  parseFraction (String "."%char (ds +:+ rest)) = Some (ds, rest).
Proof.
  intros Hall Hne Hrest. unfold parseFraction.
  change (Ascii.eqb "."%char "."%char) with true. cbn iota.
  rewrite (spanDigits_append _ _ Hall Hrest). destruct ds; [contradiction | reflexivity].
Qed.

Lemma parseExponent_digits (x : Z) (rest : string) :
  notDigitHead rest = true ->
  parseExponent (String "e"%char ((if 0 <=? x then "+" else "-") +:+ digitsOf (Z.abs x) +:+ rest))
  = Some (x, rest).
Proof.
  intros Hrest.
  destruct (digitsOf_spec (Z.abs x)) as (c & t & Htext & Hall & Hvalue & _); [lia |].
  unfold parseExponent.
  change (Ascii.eqb "e"%char "e"%char || Ascii.eqb "e"%char "E"%char) with true. cbn iota.
  rewrite Htext.
  destruct (0 <=? x) eqn:Hsign.
  - rewrite append_cons, append_empty.
    change (Ascii.eqb "+"%char "-"%char) with false. cbn iota.
    change (Ascii.eqb "+"%char "+"%char) with true. cbn iota.
    rewrite (spanDigits_append _ _ Hall Hrest).
    rewrite Hvalue. apply Z.leb_le in Hsign. do 2 f_equal. lia.
  - rewrite append_cons, append_empty.
    change (Ascii.eqb "-"%char "-"%char) with true. cbn iota.
    rewrite (spanDigits_append _ _ Hall Hrest).
    rewrite Hvalue. apply Z.leb_gt in Hsign. do 2 f_equal. lia.
Qed.

Lemma not_zero_char (c : ascii) : c <> "0"%char -> Ascii.eqb c "0"%char = false.
Proof. intros H. apply Ascii.eqb_neq. exact H. Qed.

(** [JSON.parse] reads the text of a decimal as the number that the
    decimal denotes. *)
Lemma parseDecimal_showDecimal (negative : bool) (s e : Z) (rest : string) :
  0 < s -> s mod 10 <> 0 -> endsValue rest = true ->
  parseDecimal negative (showDecimal s e +:+ rest) = Some (fromDecimal negative s e, rest) /\
  exists c t, showDecimal s e = String c t /\ isDigit c = true.
Proof.
  intros Hs Hcanon Hrest.
  pose proof (endsValue_notDigitHead rest Hrest) as Hhead.
  destruct (digitsOf_spec s) as (c & t & Htext & Hall & Hvalue & Hlead); [lia |].
  specialize (Hlead Hs). apply not_zero_char in Hlead.
  pose proof Hall as Hall'. cbn [allDigits] in Hall'. apply andb_true_iff in Hall' as [Hc Ht].
  assert (Hone : allDigits (String c EmptyString) = true).
  { cbn [allDigits]. rewrite Hc. reflexivity. }
  assert (Hs0 : forall a, 0 * a + s = s) by (intros; lia).
  unfold showDecimal. rewrite Htext. cbn zeta.
  set (k := Z.of_nat (String.length (String c t))).
  assert (Hk : k = Z.of_nat (String.length t) + 1) by (unfold k; cbn [String.length]; lia).
  destruct ((k <=? e + k) && (e + k <=? 21)) eqn:Hplain.
  { (* the digits, then zeros *)
    apply andb_true_iff in Hplain as [He _]. apply Z.leb_le in He.
    split; [| exists c, (t +:+ zeros (Z.to_nat (e + k - k))); split; [reflexivity | exact Hc]].
    unfold parseDecimal.
    rewrite spanDigits_append; [| rewrite allDigits_append, Hall, allDigits_zeros; reflexivity
                                | exact Hhead].
    rewrite append_cons. rewrite Hlead. cbn [andb].
    rewrite (parseFraction_absent rest Hrest), (parseExponent_absent rest Hrest).
    rewrite append_empty_r. rewrite <- append_cons, valueOf_append, Hvalue, valueOf_zeros, Hs0.
    cbn [String.length]. f_equal. f_equal.
    rewrite <- (fromDecimal_scaled negative s e (Z.to_nat (e + k - k)) Hs Hcanon).
    f_equal. lia. }
  destruct ((0 <? e + k) && (e + k <=? 21)) eqn:Hpoint.
  { (* the point inside the digits *)
    assert (Hlt : 0 < e + k < k).
    { apply andb_true_iff in Hpoint as [Hpos H21]. apply Z.ltb_lt in Hpos.
      rewrite H21, andb_true_r in Hplain. apply Z.leb_gt in Hplain. lia. }
    destruct (Z.to_nat (e + k)) as [| m] eqn:Hm; [lia |].
    cbn [takeChars dropChars].
    split; [| exists c, (takeChars m t +:+ "." +:+ dropChars m t); split; [reflexivity | exact Hc]].
    assert (Hsplit : allDigits (takeChars m t) = true /\ allDigits (dropChars m t) = true).
    { rewrite <- (takeChars_dropChars m t), allDigits_append in Ht.
      apply andb_true_iff in Ht. exact Ht. }
    destruct Hsplit as [Htake Hdrop].
    assert (Hlen : String.length (dropChars m t) = (String.length t - m)%nat)
      by apply length_dropChars.
    assert (Hnonempty : dropChars m t <> EmptyString).
    { intros Hempty. rewrite Hempty in Hlen. cbn [String.length] in Hlen. lia. }
    unfold parseDecimal.
    rewrite !append_assoc, !append_cons, append_empty.
    rewrite <- (append_cons c (takeChars m t)).
    rewrite spanDigits_append;
      [| cbn [allDigits]; rewrite Hc, Htake; reflexivity | reflexivity].
    rewrite Hlead. cbn [andb].
    rewrite (parseFraction_digits _ _ Hdrop Hnonempty Hhead).
    rewrite (parseExponent_absent rest Hrest).
    rewrite append_cons, takeChars_dropChars, Hvalue, Hs0, Hlen.
    do 3 f_equal. lia. }
  destruct ((-6 <? e + k) && (e + k <=? 0)) eqn:Hsmall.
  { (* zeros after the point *)
    apply andb_true_iff in Hsmall as [_ Hneg]. apply Z.leb_le in Hneg.
    split; [| exists "0"%char, ("." +:+ zeros (Z.to_nat (- (e + k))) +:+ String c t);
              split; reflexivity].
    unfold parseDecimal.
    change ("0." +:+ zeros (Z.to_nat (- (e + k))) +:+ String c t)
      with (String "0"%char (String "."%char (zeros (Z.to_nat (- (e + k))) +:+ String c t))).
    rewrite !append_cons.
    change (String "0"%char
              (String "."%char ((zeros (Z.to_nat (- (e + k))) +:+ String c t) +:+ rest)))
      with ("0" +:+
            String "."%char ((zeros (Z.to_nat (- (e + k))) +:+ String c t) +:+ rest)).
    rewrite spanDigits_append; [| reflexivity | reflexivity].
    change (Ascii.eqb "0"%char "0"%char && negb (String.eqb EmptyString EmptyString)) with false.
    cbn iota.
    rewrite parseFraction_digits;
      [| rewrite allDigits_append, allDigits_zeros, Hall; reflexivity
       | destruct (Z.to_nat (- (e + k))); discriminate
       | exact Hhead].
    rewrite (parseExponent_absent rest Hrest).
    rewrite append_cons, append_empty. cbn [valueOf].
    change (10 * 0 + digitValue "0"%char) with 0.
    rewrite valueOf_append, valueOf_zeros, Hvalue.
    rewrite length_append, length_zeros.
    do 3 f_equal. unfold k in *. lia. }
  (* the exponent written out *)
  split; [| destruct t; exists c; eexists; split; (reflexivity || exact Hc)].
  unfold parseDecimal.
  destruct t as [| c' t'].
  - rewrite !append_cons, append_assoc, append_empty.
    change (String c (String "e"%char
              (((if 0 <=? e + k - 1 then "+" else "-") +:+ digitsOf (Z.abs (e + k - 1)))
               +:+ rest)))
      with (String c EmptyString +:+
            String "e"%char
              (((if 0 <=? e + k - 1 then "+" else "-") +:+ digitsOf (Z.abs (e + k - 1)))
               +:+ rest)).
    rewrite spanDigits_append; [| exact Hone | reflexivity].
    rewrite Hlead. cbn [andb].
    change (parseFraction (String "e"%char ?x)) with (Some (EmptyString, String "e"%char x)).
    rewrite append_assoc, (parseExponent_digits _ _ Hhead).
    rewrite append_empty_r, Hvalue, Hs0. do 3 f_equal. cbn [String.length] in *. lia.
  - repeat (rewrite append_assoc || rewrite append_cons || rewrite append_empty).
    change (String c (String "."%char ?x)) with (String c EmptyString +:+ String "."%char x).
    rewrite spanDigits_append; [| exact Hone | reflexivity].
    rewrite Hlead. cbn [andb].
    rewrite <- (append_cons c' t').
    rewrite parseFraction_digits; [| exact Ht | discriminate | reflexivity].
    rewrite (parseExponent_digits _ _ Hhead).
    rewrite append_cons, append_empty, Hvalue, Hs0. do 3 f_equal. lia.
Qed.

Lemma JsNumber_eqb_eq (x y : JsNumber) : JsNumber_eqb x y = true -> x = y.
Proof.
  destruct x as [n | s p | | | b], y as [n' | s' p' | | | b']; cbn; try discriminate;
    try reflexivity.
  - intros H. apply Z.eqb_eq in H. congruence.
  - intros H. apply andb_true_iff in H as [Hs Hp].
    apply Z.eqb_eq in Hs. apply Pos.eqb_eq in Hp. congruence.
  - intros H. apply Bool.eqb_prop in H. congruence.
Qed.

Lemma digit_not_minus (c : ascii) : isDigit c = true -> Ascii.eqb c "-"%char = false.
Proof.
  intros Hd. destruct (Ascii.eqb c "-"%char) eqn:He; [| reflexivity].
  apply Ascii.eqb_eq in He. subst c. discriminate.
Qed.

Lemma digit_not_whitespace (c : ascii) : isDigit c = true -> isWhitespace c = false.
Proof.
  unfold isDigit, isWhitespace. intros Hd.
  apply andb_true_iff in Hd as [Hlo Hhi].
  apply Nat.leb_le in Hlo. apply Nat.leb_le in Hhi.
  repeat (apply orb_false_iff; split); apply Nat.eqb_neq; lia.
Qed.

(** The text of a finite double is read as that double. *)
Lemma parseNumber_showNumber (x : JsNumber) (rest : string) :
  isDouble x = true ->
  readBackNumber x <> VNull ->
  endsValue rest = true ->
  (exists y, readBackNumber x = VNum y /\
             parseNumber (showNumber x +:+ rest) = Some (y, rest)) /\
  exists c s, showNumber x +:+ rest = String c s /\
              (Ascii.eqb c "-"%char || isDigit c = true) /\ isWhitespace c = false.
Proof.
  intros Hdouble Hfinite Hrest.
  assert (Hzero : parseNumber ("0" +:+ rest) = Some (NInt 0, rest)).
  { rewrite append_cons, append_empty. unfold parseNumber.
    change (Ascii.eqb "0"%char "-"%char) with false. cbn iota.
    unfold parseDecimal.
    change (String "0"%char rest) with ("0" +:+ rest).
    rewrite spanDigits_append;
      [| reflexivity | apply endsValue_notDigitHead; exact Hrest].
    change (Ascii.eqb "0"%char "0"%char && negb (String.eqb EmptyString EmptyString)) with false.
    cbn iota. rewrite (parseFraction_absent rest Hrest), (parseExponent_absent rest Hrest).
    reflexivity. }
  assert (Hfinite' : forall x', (x' = x) ->
            (exists n, x = NInt n) \/ (exists s p, x = NFrac s p) \/ x = NNegZero).
  { intros x' _. destruct x; eauto; cbn in Hfinite; contradiction. }
  destruct (Hfinite' x eq_refl) as [(n & ->) | [(s & p & ->) | ->]]; clear Hfinite'.
  - (* an integer *)
    destruct (Z.eq_dec n 0) as [-> | Hne].
    + split; [exists (NInt 0); split; [reflexivity | exact Hzero] |].
      exists "0"%char, rest. repeat split.
    + cbn [isDouble] in Hdouble. apply JsNumber_eqb_eq in Hdouble.
      cbn [readBackNumber]. unfold showNumber.
      cbn [mantissa exponent isNegative] in *.
      assert (Hm : (Z.abs n =? 0) = false) by (apply Z.eqb_neq; lia).
      rewrite Hm.
      destruct (stripZeros_canonical (Z.abs n) 0) as (s & j & Hstrip & Hs & Hcanon & Hvalue);
        [lia |].
      rewrite Hstrip.
      assert (Hsame : forall negative,
                fromDecimal negative s (0 + Z.of_nat j) = fromDecimal negative (Z.abs n) 0).
      { intros negative. rewrite Hvalue.
        rewrite <- (fromDecimal_scaled negative s (0 + Z.of_nat j) j Hs Hcanon).
        f_equal. lia. }
      destruct (parseDecimal_showDecimal (n <? 0) s (0 + Z.of_nat j) rest Hs Hcanon Hrest)
        as (Hparse & c & t & Htext & Hc).
      rewrite Hsame, Hdouble in Hparse.
      destruct (n <? 0) eqn:Hsign.
      * split; [exists (NInt n); split; [reflexivity |] |].
        -- rewrite append_cons. unfold parseNumber.
           change (Ascii.eqb "-"%char "-"%char) with true. cbn iota. exact Hparse.
        -- eexists _, _. rewrite append_cons. repeat split.
      * split; [exists (NInt n); split; [reflexivity |] |].
        -- rewrite Htext in Hparse |- *. rewrite append_cons in Hparse |- *.
           unfold parseNumber. rewrite (digit_not_minus c Hc). exact Hparse.
        -- exists c, (t +:+ rest). rewrite Htext, append_cons. split; [reflexivity |].
           split; [rewrite Hc; apply orb_true_r | apply digit_not_whitespace; exact Hc].
  - (* a number with a fraction *)
    cbn [isDouble] in Hdouble. apply JsNumber_eqb_eq in Hdouble.
    cbn [readBackNumber]. unfold showNumber.
    cbn [mantissa exponent isNegative] in *.
    destruct (Z.eq_dec (Z.abs s) 0) as [Hz | Hne].
    { rewrite Hz in Hdouble. unfold fromDecimal in Hdouble. cbn in Hdouble.
      destruct (s <? 0); discriminate. }
    assert (Hm : (Z.abs s =? 0) = false) by (apply Z.eqb_neq; lia).
    rewrite Hm.
    destruct (stripZeros_canonical (Z.abs s) (- Z.pos p))
      as (s' & j & Hstrip & Hs & Hcanon & Hvalue); [lia |].
    rewrite Hstrip.
    assert (Hsame : forall negative,
              fromDecimal negative s' (- Z.pos p + Z.of_nat j)
              = fromDecimal negative (Z.abs s) (- Z.pos p)).
    { intros negative. rewrite Hvalue.
      rewrite <- (fromDecimal_scaled negative s' (- Z.pos p + Z.of_nat j) j Hs Hcanon).
      f_equal. lia. }
    destruct (parseDecimal_showDecimal (s <? 0) s' (- Z.pos p + Z.of_nat j) rest Hs Hcanon Hrest)
      as (Hparse & c & t & Htext & Hc).
    rewrite Hsame, Hdouble in Hparse.
    destruct (s <? 0) eqn:Hsign.
    + split; [exists (NFrac s p); split; [reflexivity |] |].
      * rewrite append_cons. unfold parseNumber.
        change (Ascii.eqb "-"%char "-"%char) with true. cbn iota. exact Hparse.
      * eexists _, _. rewrite append_cons. repeat split.
    + split; [exists (NFrac s p); split; [reflexivity |] |].
      * rewrite Htext in Hparse |- *. rewrite append_cons in Hparse |- *.
        unfold parseNumber. rewrite (digit_not_minus c Hc). exact Hparse.
      * exists c, (t +:+ rest). rewrite Htext, append_cons. split; [reflexivity |].
        split; [rewrite Hc; apply orb_true_r | apply digit_not_whitespace; exact Hc].
  - (* minus zero *)
    split; [exists (NInt 0); split; [reflexivity | exact Hzero] |].
    exists "0"%char, rest. repeat split.
Qed.

(** ** The text of strings *)

Lemma hexValue_hexDigit (n : nat) : (n < 16)%nat -> hexValue (hexDigit n) = Some n.
Proof.
  intros Hn. do 16 (destruct n as [| n]; [reflexivity |]). lia.
Qed.

Lemma hexUnit_escapeUnit (unit : Z) (tail : string) :
  0 <= unit < 65536 ->
  exists h1 h2 h3 h4,
    escapeUnit unit +:+ tail
    = String backslash (String "u"%char (String h1 (String h2 (String h3 (String h4 tail))))) /\
    hexUnit h1 h2 h3 h4 = Some unit.
Proof.
  intros Hu. unfold escapeUnit. eexists _, _, _, _. split; [reflexivity |].
  unfold hexUnit.
  rewrite !hexValue_hexDigit by (Z.div_mod_to_equations; lia).
  f_equal. rewrite !Z2Nat.id by (Z.div_mod_to_equations; lia).
  Z.div_mod_to_equations. lia.
Qed.

Lemma surrogateUnit_range (c d e : ascii) (unit : Z) :
  surrogateUnit c d e = Some unit ->
  55296 <= unit < 57344 /\ utf8 unit = String c (String d (String e EmptyString)).
Proof.
  unfold surrogateUnit.
  destruct ((code c =? 237) && (160 <=? code d) && (code d <=? 191)
            && (128 <=? code e) && (code e <=? 191)) eqn:Hcond; [| discriminate].
  repeat (apply andb_true_iff in Hcond as [Hcond ?]).
  apply Z.eqb_eq in Hcond.
  repeat match goal with
         | H : (_ <=? _) = true |- _ => apply Z.leb_le in H
         end.
  intros [= <-]. split; [lia |].
  unfold utf8.
  assert (Hu1 : (53248 + (code d - 128) * 64 + (code e - 128) <? 128) = false)
    by (apply Z.ltb_ge; lia).
  assert (Hu2 : (53248 + (code d - 128) * 64 + (code e - 128) <? 2048) = false)
    by (apply Z.ltb_ge; lia).
  assert (Hu3 : (53248 + (code d - 128) * 64 + (code e - 128) <? 65536) = true)
    by (apply Z.ltb_lt; lia).
  rewrite Hu1, Hu2, Hu3.
  replace (224 + (53248 + (code d - 128) * 64 + (code e - 128)) / 4096) with (code c)
    by (Z.div_mod_to_equations; lia).
  replace (128 + ((53248 + (code d - 128) * 64 + (code e - 128)) / 64) mod 64) with (code d)
    by (Z.div_mod_to_equations; lia).
  replace (128 + (53248 + (code d - 128) * 64 + (code e - 128)) mod 64) with (code e)
    by (Z.div_mod_to_equations; lia).
  rewrite !charOf_code. reflexivity.
Qed.

Lemma parseStringBody_escapeChar (c : ascii) (tail : string) :
  parseStringBody (escapeChar c +:+ tail)
  = match parseStringBody tail with
    | Some (body, rest) => Some (String c body, rest)
    | None => None
    end.
Proof.
  destruct c as [[] [] [] [] [] [] [] []]; reflexivity.
Qed.

Lemma lowEscape_escapeChar (c : ascii) (tail : string) :
  lowEscape (escapeChar c +:+ tail) = None.
Proof.
  destruct c as [[] [] [] [] [] [] [] []]; reflexivity.
Qed.

Lemma quoteBody_cons (c : ascii) (r : string) :
  (exists d e r' unit, r = String d (String e r') /\ surrogateUnit c d e = Some unit /\
                       quoteBody (String c r) = escapeUnit unit +:+ quoteBody r') \/
  (leadingSurrogate (String c r) = None /\
   quoteBody (String c r) = escapeChar c +:+ quoteBody r).
Proof.
  destruct r as [| d [| e r']]; [right; split; reflexivity .. |].
  cbn [quoteBody leadingSurrogate].
  destruct (surrogateUnit c d e) as [unit |] eqn:Hunit.
  - left. exists d, e, r', unit. auto.
  - right. split; reflexivity.
Qed.

(** The text of a string does not go on with the escape of a second half
    when the string does not go on with one. *)
Lemma lowEscape_quoteBody (s rest : string) :
  match leadingSurrogate s with
  | Some unit => unit < 56320
  | None => True
  end ->
  lowEscape (quoteBody s +:+ String dquote rest) = None.
Proof.
  intros Hlead. destruct s as [| c r]; [reflexivity |].
  destruct (quoteBody_cons c r) as [(d & e & r' & unit & -> & Hunit & ->) | (Hnone & ->)].
  - cbn [leadingSurrogate] in Hlead. rewrite Hunit in Hlead.
    destruct (surrogateUnit_range c d e unit Hunit) as (Hrange & _).
    rewrite append_assoc.
    destruct (hexUnit_escapeUnit unit (quoteBody r' +:+ String dquote rest))
      as (h1 & h2 & h3 & h4 & -> & Hhex); [lia |].
    unfold lowEscape.
    change (Ascii.eqb backslash backslash) with true. cbn iota.
    change (Ascii.eqb "u"%char "u"%char) with true. cbn iota.
    rewrite Hhex.
    assert (Hlow : (56320 <=? unit) = false) by (apply Z.leb_gt; lia).
    rewrite Hlow. reflexivity.
  - rewrite append_assoc. apply lowEscape_escapeChar.
Qed.

Lemma isJsString_tail (c : ascii) (r : string) :
  isJsString (String c r) = true -> isJsString r = true.
Proof. cbn [isJsString]. intros H. apply andb_true_iff in H as [_ H]. exact H. Qed.

(** The text of a string of JavaScript is read as that string. *)
Lemma parseStringBody_quoteBody (s rest : string) :
  isJsString s = true ->
  parseStringBody (quoteBody s +:+ String dquote rest) = Some (s, rest).
Proof.
  assert (Hlen : forall n t, (String.length t <= n)%nat -> isJsString t = true ->
            parseStringBody (quoteBody t +:+ String dquote rest) = Some (t, rest)).
  { clear s. induction n as [| n IH]; intros s Hn Hjs.
    - destruct s; [reflexivity | cbn in Hn; lia].
    - destruct s as [| c r]; [reflexivity |].
      destruct (quoteBody_cons c r) as [(d & e & r' & unit & -> & Hunit & ->) | (Hnone & ->)].
      + destruct (surrogateUnit_range c d e unit Hunit) as (Hrange & Hutf8).
        rewrite append_assoc.
        destruct (hexUnit_escapeUnit unit (quoteBody r' +:+ String dquote rest))
          as (h1 & h2 & h3 & h4 & -> & Hhex); [lia |].
        assert (Hrest : isJsString r' = true).
        { do 3 apply isJsString_tail in Hjs. exact Hjs. }
        assert (Hbody : parseStringBody (quoteBody r' +:+ String dquote rest) = Some (r', rest)).
        { apply IH; [cbn [String.length] in Hn; lia | exact Hrest]. }
        assert (Hnopair : (if (55296 <=? unit) && (unit <? 56320)
                           then lowEscape (quoteBody r' +:+ String dquote rest)
                           else None) = None).
        { destruct ((55296 <=? unit) && (unit <? 56320)) eqn:Hhigh; [| reflexivity].
          apply lowEscape_quoteBody.
          cbn [isJsString] in Hjs. apply andb_true_iff in Hjs as [Hpair _].
          apply negb_true_iff in Hpair. unfold startsWithPair in Hpair.
          cbn [leadingSurrogate dropChars] in Hpair. rewrite Hunit in Hpair.
          change (leadingSurrogate r') with (leadingSurrogate r').
          destruct (leadingSurrogate r') as [second |]; [| exact I].
          apply andb_true_iff in Hhigh as [_ Hhigh]. rewrite Hhigh in Hpair.
          cbn [andb] in Hpair. apply Z.leb_gt in Hpair. exact Hpair. }
        cbn [parseStringBody].
        change (Ascii.eqb backslash dquote) with false. cbn iota.
        change (Ascii.eqb backslash backslash) with true. cbn iota.
        change (Ascii.eqb "u"%char "u"%char) with true. cbn iota.
        rewrite Hhex, Hnopair, Hbody, Hutf8. reflexivity.
      + rewrite append_assoc, parseStringBody_escapeChar.
        rewrite IH; [reflexivity | cbn [String.length] in Hn; lia |].
        apply isJsString_tail in Hjs. exact Hjs. }
  intros Hjs. exact (Hlen (String.length s) s (le_n _) Hjs).
Qed.

(** ** JSON text: parsing what was written *)

(** Induction on values, through the items of arrays and the properties of objects. *)
Lemma JsValue_nested_ind (P : JsValue -> Prop) :
  P VUndefined -> P VNull -> (forall b, P (VBool b)) -> (forall n, P (VNum n)) ->
  (forall s, P (VStr s)) ->
  (forall elems, Forall P elems -> P (VArr elems)) ->
  (forall props, Forall (fun kv => P (snd kv)) props -> P (VObj props)) ->
  forall v, P v.
Proof.
  intros Hu Hn Hb Hz Hs Ha Ho.
  fix self 1. intros [| | b | n | s | elems | props].
  - exact Hu.
  - exact Hn.
  - apply Hb.
  - apply Hz.
  - apply Hs.
  - apply Ha. induction elems as [| v elems IH]; constructor; [apply self | exact IH].
  - apply Ho. induction props as [| [k v] props IH]; constructor; [apply self | exact IH].
Qed.

Lemma showNumber_head (x : JsNumber) :
  exists c s, showNumber x = String c s /\ isWhitespace c = false /\
              Ascii.eqb c "]"%char = false.
Proof.
  assert (Hdecimal : forall negative m e, 0 < m ->
            exists c s,
              (let (s', e') := stripZeros m e in
               if negative : bool then String "-"%char (showDecimal s' e') else showDecimal s' e')
              = String c s /\ isWhitespace c = false /\ Ascii.eqb c "]"%char = false).
  { intros negative m e Hm.
    destruct (stripZeros_canonical m e Hm) as (s' & j & -> & Hs & Hcanon & _).
    destruct negative; [eexists _, _; repeat split |].
    destruct (parseDecimal_showDecimal false s' (e + Z.of_nat j) EmptyString Hs Hcanon eq_refl)
      as (_ & c & t & -> & Hc).
    exists c, t. split; [reflexivity |]. split; [apply digit_not_whitespace; exact Hc |].
    destruct (Ascii.eqb c "]"%char) eqn:He; [| reflexivity].
    apply Ascii.eqb_eq in He. subst c. discriminate. }
  destruct x as [n | s p | | | b]; try (eexists _, _; repeat split; reflexivity).
  - unfold showNumber. cbn [mantissa exponent isNegative].
    destruct (Z.abs n =? 0) eqn:Hz; [eexists _, _; repeat split; reflexivity |].
    apply Z.eqb_neq in Hz. apply Hdecimal. lia.
  - unfold showNumber. cbn [mantissa exponent isNegative].
    destruct (Z.abs s =? 0) eqn:Hz; [eexists _, _; repeat split; reflexivity |].
    apply Z.eqb_neq in Hz. apply Hdecimal. lia.
Qed.

Lemma stringifyValue_head (v : JsValue) :
  exists c s, stringifyValue v = String c s /\ isWhitespace c = false /\
              Ascii.eqb c "]"%char = false.
Proof.
  destruct v as [| | [] | n | s | elems | props]; try (eexists _, _; repeat split; reflexivity).
  apply showNumber_head.
Qed.

Lemma stringifyValue_nonempty (v : JsValue) : stringifyValue v <> EmptyString.
Proof.
  destruct (stringifyValue_head v) as (ch & s & Htext & _). rewrite Htext. discriminate.
Qed.

Lemma parseElements_joinComma (v : JsValue) (elems : list JsValue) :
  Forall ParsesBack (v :: elems) ->
  forallb isJsValue (v :: elems) = true ->
  forall fuel rest, (itemsWeight (v :: elems) <= fuel)%nat ->
  parseElements fuel (joinComma (List.map stringifyValue (v :: elems)) +:+ String "]"%char rest)
  = Some (List.map readBack (v :: elems), rest).
Proof.
  revert v. induction elems as [| w elems IH]; intros v Hall Hjs fuel rest Hfuel.
  - apply Forall_inv in Hall. cbn [forallb] in Hjs.
    rewrite andb_true_r in Hjs.
    cbn [itemsWeight fold_right] in Hfuel.
    destruct fuel as [| fuel]; [lia |].
    cbn [List.map joinComma parseElements].
    rewrite (Hall Hjs fuel (String "]"%char rest)) by (reflexivity || lia).
    reflexivity.
  - pose proof (Forall_inv Hall) as Hv. apply Forall_inv_tail in Hall.
    cbn [forallb] in Hjs. apply andb_true_iff in Hjs as [Hvj Hjs].
    change (itemsWeight (v :: w :: elems)) with (S (weight v) + itemsWeight (w :: elems))%nat in Hfuel.
    destruct fuel as [| fuel]; [lia |].
    change (joinComma (List.map stringifyValue (v :: w :: elems)))
      with (stringifyValue v +:+ "," +:+ joinComma (List.map stringifyValue (w :: elems))).
    rewrite !append_assoc. rewrite append_cons, append_empty.
    cbn [parseElements].
    rewrite (Hv Hvj fuel) by (reflexivity || lia).
    cbn [skipWhitespace isWhitespace].
    change (isWhitespace ","%char) with false. cbn iota.
    change (Ascii.eqb ","%char ","%char) with true. cbn iota.
    rewrite (IH w Hall Hjs fuel rest) by lia.
    reflexivity.
Qed.

(** The text, the value read back and the fuel of an object, by the
    properties that are written. *)
Lemma stringifyValue_object (props : list (string * JsValue)) :
  stringifyValue (VObj props)
  = String "{"%char (joinComma (List.map memberText (written props)) +:+ "}").
Proof.
  cbn [stringifyValue]. rewrite append_cons, append_empty. do 3 f_equal.
  induction props as [| [k v] props IH]; [reflexivity |].
  destruct v; cbn [written List.map]; rewrite <- ?IH; reflexivity.
Qed.

Lemma readBack_object (props : list (string * JsValue)) :
  readBack (VObj props)
  = objectOf (List.map (fun kv => (fst kv, readBack (snd kv))) (written props)).
Proof.
  cbn [readBack]. f_equal.
  induction props as [| [k v] props IH]; [reflexivity |].
  destruct v; cbn [written List.map]; rewrite <- ?IH; reflexivity.
Qed.

Lemma weight_object (props : list (string * JsValue)) :
  weight (VObj props) = S (membersWeight (written props)).
Proof.
  cbn [weight]. f_equal.
  induction props as [| [k v] props IH]; [reflexivity |].
  destruct v; cbn [written membersWeight fold_right]; fold (membersWeight (written props));
    rewrite <- ?IH; reflexivity.
Qed.

Lemma isJsValue_object (props : list (string * JsValue)) :
  isJsValue (VObj props) = true <->
  Forall (fun kv => isJsString (fst kv) = true /\ isJsValue (snd kv) = true) props.
Proof.
  cbn [isJsValue].
  induction props as [| [k v] props IH].
  - split; [constructor | reflexivity].
  - rewrite !andb_true_iff. split.
    + intros [[Hk Hv] Hrest]. constructor; [split; assumption | apply IH; exact Hrest].
    + intros Hall. pose proof (Forall_inv Hall) as [Hk Hv]. apply Forall_inv_tail in Hall.
      repeat split; [exact Hk | exact Hv | apply IH; exact Hall].
Qed.

Lemma written_incl (props : list (string * JsValue)) (kv : string * JsValue) :
  In kv (written props) -> In kv props /\ snd kv <> VUndefined.
Proof.
  induction props as [| [k v] props IH]; [intros [] |].
  destruct v; cbn [written];
    try (intros [<- | Hin]; [split; [left; reflexivity | discriminate] |
                             destruct (IH Hin); split; [right |]; assumption]).
  intros Hin. destruct (IH Hin). split; [right |]; assumption.
Qed.

Lemma memberText_head (kv : string * JsValue) :
  exists t, memberText kv = String dquote t.
Proof. destruct kv as [k v]. eexists. reflexivity. Qed.

Lemma parseMembers_joinComma (kv : string * JsValue) (members : list (string * JsValue)) :
  Forall (fun kv => ParsesBack (snd kv)) (kv :: members) ->
  Forall (fun kv => isJsString (fst kv) = true /\ isJsValue (snd kv) = true) (kv :: members) ->
  forall fuel rest, (membersWeight (kv :: members) <= fuel)%nat ->
  parseMembers fuel (joinComma (List.map memberText (kv :: members)) +:+ String "}"%char rest)
  = Some (List.map (fun kv => (fst kv, readBack (snd kv))) (kv :: members), rest).
Proof.
  assert (Hone : forall (k : string) (v : JsValue) fuel tail,
            ParsesBack v -> isJsString k = true -> isJsValue v = true ->
            (weight v <= fuel)%nat -> endsValue tail = true ->
            parseStringBody (quoteBody k +:+ String dquote (":" +:+ stringifyValue v +:+ tail))
            = Some (k, String ":"%char (stringifyValue v +:+ tail)) /\
            parseValue fuel (stringifyValue v +:+ tail) = Some (readBack v, tail)).
  { intros k v fuel tail Hv Hk Hjs Hfuel Htail. split.
    - rewrite (parseStringBody_quoteBody k _ Hk). rewrite append_cons, append_empty. reflexivity.
    - apply Hv; assumption. }
  revert kv. induction members as [| next members IH]; intros [k v] Hall Hjs fuel rest Hfuel.
  - apply Forall_inv in Hall. apply Forall_inv in Hjs. destruct Hjs as [Hk Hv].
    cbn [fst snd] in *.
    cbn [membersWeight fold_right snd] in Hfuel.
    destruct fuel as [| fuel]; [lia |].
    destruct (Hone k v fuel (String "}"%char rest) Hall Hk Hv) as [Hkey Hvalue];
      [lia | reflexivity |].
    cbn [List.map joinComma fst snd]. unfold memberText, quote. cbn [fst snd].
    repeat (rewrite append_assoc || rewrite append_cons || rewrite append_empty).
    cbn [parseMembers skipWhitespace].
    change (isWhitespace dquote) with false. cbn iota.
    change (Ascii.eqb dquote dquote) with true. cbn iota.
    repeat (rewrite append_assoc in Hkey || rewrite append_cons in Hkey
            || rewrite append_empty in Hkey).
    rewrite Hkey. cbn [skipWhitespace].
    change (isWhitespace ":"%char) with false. cbn iota.
    change (Ascii.eqb ":"%char ":"%char) with true. cbn iota.
    rewrite Hvalue. cbn [skipWhitespace].
    change (isWhitespace "}"%char) with false. cbn iota.
    change (Ascii.eqb "}"%char ","%char) with false. cbn iota.
    change (Ascii.eqb "}"%char "}"%char) with true. cbn iota.
    reflexivity.
  - pose proof (Forall_inv Hall) as Hpv. apply Forall_inv_tail in Hall.
    pose proof (Forall_inv Hjs) as [Hk Hv]. apply Forall_inv_tail in Hjs.
    cbn [fst snd] in *.
    change (membersWeight ((k, v) :: next :: members))
      with (S (weight v) + membersWeight (next :: members))%nat in Hfuel.
    destruct fuel as [| fuel]; [lia |].
    change (joinComma (List.map memberText ((k, v) :: next :: members)))
      with (memberText (k, v) +:+ "," +:+ joinComma (List.map memberText (next :: members))).
    set (others := joinComma (List.map memberText (next :: members)) +:+ String "}"%char rest).
    destruct (Hone k v fuel (String ","%char others) Hpv Hk Hv) as [Hkey Hvalue];
      [lia | reflexivity |].
    change (memberText (k, v))
      with (String dquote (quoteBody k +:+ String dquote EmptyString) +:+ ":" +:+ stringifyValue v).
    repeat (rewrite append_assoc || rewrite append_cons || rewrite append_empty).
    fold others.
    cbn [parseMembers skipWhitespace].
    change (isWhitespace dquote) with false. cbn iota.
    change (Ascii.eqb dquote dquote) with true. cbn iota.
    repeat (rewrite append_assoc in Hkey || rewrite append_cons in Hkey
            || rewrite append_empty in Hkey).
    rewrite Hkey. cbn [skipWhitespace].
    change (isWhitespace ":"%char) with false. cbn iota.
    change (Ascii.eqb ":"%char ":"%char) with true. cbn iota.
    rewrite Hvalue. cbn [skipWhitespace].
    change (isWhitespace ","%char) with false. cbn iota.
    change (Ascii.eqb ","%char ","%char) with true. cbn iota.
    unfold others. rewrite (IH next Hall Hjs fuel rest) by lia.
    reflexivity.
Qed.

Lemma parseValue_stringifyValue (v : JsValue) : ParsesBack v.
Proof.
  induction v as [| | b | n | s | elems IH | props IH] using JsValue_nested_ind;
    intros Hjs fuel rest Hfuel Hrest;
    (destruct fuel as [| fuel]; [cbn [weight] in Hfuel; lia |]).
  - reflexivity.
  - reflexivity.
  - destruct b; reflexivity.
  - cbn [isJsValue] in Hjs. cbn [readBack stringifyValue].
    destruct (readBackNumber n) as [| | | y | | |] eqn:Hback;
      try (destruct n; discriminate Hback).
    + destruct n; try discriminate Hback; reflexivity.
    + destruct (parseNumber_showNumber n rest Hjs) as ((y' & Hy & Hparse) & c & s & Htext & Hlead & Hws);
        [rewrite Hback; discriminate | exact Hrest |].
      rewrite Hback in Hy. injection Hy as <-.
      cbn [parseValue]. rewrite Htext. cbn [skipWhitespace].
      rewrite Hws, Hlead. rewrite <- Htext, Hparse. reflexivity.
  - cbn [isJsValue] in Hjs.
    change (stringifyValue (VStr s) +:+ rest)
      with (String dquote ((quoteBody s +:+ String dquote EmptyString) +:+ rest)).
    rewrite append_assoc.
    change (String dquote EmptyString +:+ rest) with (String dquote rest).
    cbn [parseValue skipWhitespace].
    change (isWhitespace dquote) with false. cbn iota.
    change (Ascii.eqb dquote "-"%char || isDigit dquote) with false. cbn iota.
    change (Ascii.eqb dquote "["%char) with false. cbn iota.
    change (Ascii.eqb dquote "{"%char) with false. cbn iota.
    change (Ascii.eqb dquote dquote) with true. cbn iota.
    rewrite (parseStringBody_quoteBody s rest Hjs). reflexivity.
  - change (stringifyValue (VArr elems) +:+ rest)
      with (String "["%char ((joinComma (List.map stringifyValue elems) +:+ "]") +:+ rest)).
    rewrite append_assoc.
    change ("]" +:+ rest) with (String "]"%char rest).
    cbn [parseValue skipWhitespace].
    change (isWhitespace "["%char) with false. cbn iota.
    change (Ascii.eqb "["%char "-"%char || isDigit "["%char) with false. cbn iota.
    change (Ascii.eqb "["%char "["%char) with true. cbn iota.
    destruct elems as [| v elems].
    + reflexivity.
    + destruct (stringifyValue_head v) as (c & s & Hhead & Hws & Hclose).
      assert (Hjoin : exists t, joinComma (List.map stringifyValue (v :: elems)) = String c t).
      { destruct elems as [| w elems].
        - exists s. exact Hhead.
        - exists (s +:+ "," +:+ joinComma (List.map stringifyValue (w :: elems))).
          change (joinComma (List.map stringifyValue (v :: w :: elems)))
            with (stringifyValue v +:+ "," +:+ joinComma (List.map stringifyValue (w :: elems))).
          rewrite Hhead. reflexivity. }
      destruct Hjoin as (t & Hjoin).
      rewrite Hjoin at 1. rewrite append_cons. cbn [skipWhitespace]. rewrite Hws, Hclose.
      cbn [isJsValue] in Hjs. cbn [weight] in Hfuel.
      rewrite (parseElements_joinComma v elems IH Hjs fuel rest) by (unfold itemsWeight; lia).
      reflexivity.
  - rewrite stringifyValue_object, readBack_object. rewrite weight_object in Hfuel.
    rewrite append_cons, append_assoc.
    change ("}" +:+ rest) with (String "}"%char rest).
    cbn [parseValue skipWhitespace].
    change (isWhitespace "{"%char) with false. cbn iota.
    change (Ascii.eqb "{"%char "-"%char || isDigit "{"%char) with false. cbn iota.
    change (Ascii.eqb "{"%char "["%char) with false. cbn iota.
    change (Ascii.eqb "{"%char "{"%char) with true. cbn iota.
    assert (Hback : Forall (fun kv => ParsesBack (snd kv)) (written props)).
    { apply List.Forall_forall. intros kv Hin. apply written_incl in Hin as [Hin _].
      rewrite List.Forall_forall in IH. exact (IH kv Hin). }
    assert (Hvalues : Forall (fun kv => isJsString (fst kv) = true /\ isJsValue (snd kv) = true)
                             (written props)).
    { apply isJsValue_object in Hjs. apply List.Forall_forall. intros kv Hin.
      apply written_incl in Hin as [Hin _].
      rewrite List.Forall_forall in Hjs. exact (Hjs kv Hin). }
    destruct (written props) as [| kv members].
    + reflexivity.
    + destruct (memberText_head kv) as (t & Hhead).
      assert (Hjoin : exists t', joinComma (List.map memberText (kv :: members))
                                 = String dquote t').
      { destruct members as [| next members].
        - exists t. exact Hhead.
        - exists (t +:+ "," +:+ joinComma (List.map memberText (next :: members))).
          change (joinComma (List.map memberText (kv :: next :: members)))
            with (memberText kv +:+ "," +:+ joinComma (List.map memberText (next :: members))).
          rewrite Hhead. reflexivity. }
      destruct Hjoin as (t' & Hjoin).
      rewrite Hjoin at 1. rewrite append_cons. cbn [skipWhitespace].
      change (isWhitespace dquote) with false. cbn iota.
      change (Ascii.eqb dquote "}"%char) with false. cbn iota.
      rewrite (parseMembers_joinComma kv members Hback Hvalues fuel rest) by lia.
      reflexivity.
Qed.

Lemma itemsWeight_le_length (elems : list JsValue) :
  Forall (fun v => (weight v <= String.length (stringifyValue v))%nat) elems ->
  (itemsWeight elems <= S (String.length (joinComma (List.map stringifyValue elems))))%nat.
Proof.
  induction elems as [| v elems IH]; intros Hall.
  - cbn. lia.
  - pose proof (Forall_inv Hall) as Hv. cbn beta in Hv.
    apply Forall_inv_tail in Hall. specialize (IH Hall).
    change (itemsWeight (v :: elems)) with (S (weight v) + itemsWeight elems)%nat.
    destruct elems as [| w elems].
    + cbn [List.map joinComma]. cbn [itemsWeight fold_right]. lia.
    + change (joinComma (List.map stringifyValue (v :: w :: elems)))
        with (stringifyValue v +:+ "," +:+ joinComma (List.map stringifyValue (w :: elems))).
      rewrite !length_append. cbn [String.length]. lia.
Qed.

Lemma membersWeight_le_length (members : list (string * JsValue)) :
  Forall (fun kv => (weight (snd kv) <= String.length (stringifyValue (snd kv)))%nat) members ->
  (membersWeight members <= S (String.length (joinComma (List.map memberText members))))%nat.
Proof.
  assert (Hmember : forall kv,
            (String.length (stringifyValue (snd kv)) < String.length (memberText kv))%nat).
  { intros [k v]. unfold memberText, quote. cbn [fst snd].
    rewrite !length_append. cbn [String.length]. lia. }
  induction members as [| kv members IH]; intros Hall.
  - cbn. lia.
  - pose proof (Forall_inv Hall) as Hv. cbn beta in Hv.
    apply Forall_inv_tail in Hall. specialize (IH Hall). specialize (Hmember kv).
    change (membersWeight (kv :: members)) with (S (weight (snd kv)) + membersWeight members)%nat.
    destruct members as [| next members].
    + cbn [List.map joinComma]. cbn [membersWeight fold_right]. lia.
    + change (joinComma (List.map memberText (kv :: next :: members)))
        with (memberText kv +:+ "," +:+ joinComma (List.map memberText (next :: members))).
      rewrite !length_append. cbn [String.length]. lia.
Qed.

Lemma weight_le_length (v : JsValue) :
  (weight v <= String.length (stringifyValue v))%nat.
Proof.
  induction v as [| | b | n | s | elems IH | props IH] using JsValue_nested_ind.
  - cbn. lia.
  - cbn. lia.
  - destruct b; cbn; lia.
  - destruct (stringifyValue_head (VNum n)) as (c & s & -> & _). cbn. lia.
  - cbn. lia.
  - cbn [weight]. fold (itemsWeight elems).
    change (stringifyValue (VArr elems))
      with (String "["%char (joinComma (List.map stringifyValue elems) +:+ "]")).
    cbn [String.length]. rewrite length_append. cbn [String.length].
    pose proof (itemsWeight_le_length elems IH). lia.
  - rewrite weight_object, stringifyValue_object.
    cbn [String.length]. rewrite length_append. cbn [String.length].
    assert (Hall : Forall (fun kv => (weight (snd kv)
                                      <= String.length (stringifyValue (snd kv)))%nat)
                          (written props)).
    { apply List.Forall_forall. intros kv Hin. apply written_incl in Hin as [Hin _].
      rewrite List.Forall_forall in IH. exact (IH kv Hin). }
    pose proof (membersWeight_le_length (written props) Hall). lia.
Qed.

(** [JSON.parse(JSON.stringify(v))], for every value of JavaScript. *)
Lemma parse_stringifyValue (v : JsValue) :
  isJsValue v = true -> parse (stringifyValue v) = Normal (readBack v).
Proof.
  intros Hjs. unfold parse.
  pose proof (parseValue_stringifyValue v Hjs (S (String.length (stringifyValue v)))
                EmptyString) as Hparse.
  rewrite append_empty_r in Hparse.
  rewrite Hparse; [reflexivity | | reflexivity].
  pose proof (weight_le_length v). lia.
Qed.

(** ** The schema codec *)

Lemma mapC_ext {A B : Type} (f g : A -> Completion B) (l : list A) :
  (forall a, In a l -> f a = g a) -> mapC f l = mapC g l.
Proof.
  induction l as [| a l IH]; intros Hext; [reflexivity |].
  cbn [mapC]. rewrite (Hext a) by (left; reflexivity).
  rewrite IH by (intros b Hb; apply Hext; right; exact Hb). reflexivity.
Qed.

(** [serialize] as the source writes it: the test on [typeof], the field
    names of [this.template], and one of the two loops. *)
Lemma serialize_unfold (template : Schema) (payload : JsValue) :
  serialize template payload =
  if negb (typeofObject payload) then Normal payload
  else
    let* keys := schemaShapeKeys template in
    match keys with
    | _ :: _ =>
        let* response :=
          mapC (fun key =>
                  let* v := getProp payload key in
                  serializeNested (serialize template) v) keys in
        Normal (VArr response)
    | [] =>
        let* values := Object_values payload in
        let* response := mapC (serializeNested (serialize template)) values in
        Normal (VArr response)
    end.
Proof.
  destruct payload as [| | b | n | s | elems | props]; try reflexivity.
  - (* null *)
    cbn [serialize typeofObject negb].
    destruct (schemaShapeKeys template) as [[| key keys] | e]; reflexivity.
  - (* array *)
    cbn [serialize typeofObject negb].
    destruct (schemaShapeKeys template) as [[| key keys] | e]; cbn [bindC]; [| | reflexivity].
    + cbn [Object_values bindC]. f_equal.
      induction elems as [| v elems IH]; [reflexivity |].
      cbn [mapC]. rewrite IH. reflexivity.
    + f_equal. apply mapC_ext. intros k _.
      cbn [getProp]. destruct (String.eqb k "length"); [reflexivity |].
      cbn [bindC]. generalize 0%nat.
      induction elems as [| v elems IH]; intros from; [reflexivity |].
      cbn [lookupIndex]. destruct (String.eqb (indexName from) k); [reflexivity | apply IH].
  - (* object *)
    cbn [serialize typeofObject negb].
    destruct (schemaShapeKeys template) as [[| key keys] | e]; cbn [bindC]; [| | reflexivity].
    + cbn [Object_values bindC]. f_equal.
      induction props as [| [k v] props IH]; [reflexivity |].
      cbn [List.map mapC snd]. rewrite IH. reflexivity.
    + f_equal. apply mapC_ext. intros k _.
      cbn [getProp bindC].
      induction props as [| [k' v] props IH]; [reflexivity |].
      cbn [lookupProp]. destruct (String.eqb k' k); [reflexivity | apply IH].
Qed.

(** C2: the second example of the specification.  The nested record is
    encoded with the field names of the outer schema, [profile] and
    [active], none of which it has: the encoding is
    [[undefined, undefined], true] and not [["1", "bob"], true]. *)
Theorem serialize_nested_object_example :
  serialize schemaB
    (VObj [("profile", VObj [("userId", VStr "1"); ("userName", VStr "bob")]);
           ("active", VBool true)])
  = Normal (VArr [VArr [VUndefined; VUndefined]; VBool true]).
Proof. reflexivity. Qed.

(** The same slip on a field that holds an array. *)
Example serialize_array_field_example :
  serialize (SObject [("tags", SArray (SPrimitive PString))])
    (VObj [("tags", VArr [VStr "a"; VStr "b"])])
  = Normal (VArr [VArr [VUndefined]]).
Proof. reflexivity. Qed.

(** The decoder on the text that the specification expects for that
    example: the nested call is handed the shape of [profile], reads
    [__$shape] of it and throws. *)
Example sealJsonParser_nested_object_example :
  sealJsonParser (stringifyValue (VArr [VArr [VStr "1"; VStr "bob"]; VBool true])) schemaB
  = Thrown TypeError.
Proof. vm_compute. reflexivity. Qed.

Lemma serializeNested_scalar (recur : JsValue -> Completion JsValue) (v : JsValue) :
  isScalar v = true -> serializeNested recur v = Normal v.
Proof. destruct v; try discriminate; reflexivity. Qed.

Lemma serializeNested_undefined (recur : JsValue -> Completion JsValue) :
  serializeNested recur VUndefined = Normal VUndefined.
Proof. reflexivity. Qed.

Lemma mapC_normal {A B : Type} (f : A -> Completion B) (g : A -> B) (l : list A) :
  (forall a, In a l -> f a = Normal (g a)) -> mapC f l = Normal (List.map g l).
Proof.
  induction l as [| a l IH]; intros Hall; [reflexivity |].
  cbn [mapC List.map]. rewrite (Hall a) by (left; reflexivity). cbn [bindC].
  rewrite IH by (intros b Hb; apply Hall; right; exact Hb). reflexivity.
Qed.

Lemma lookupProp_scalar (props : list (string * JsValue)) (key : string) :
  Forall (fun kv => isScalar (snd kv) = true) props ->
  lookupProp props key = VUndefined \/ isScalar (lookupProp props key) = true.
Proof.
  induction props as [| [k v] props IH]; intros Hall; [left; reflexivity |].
  cbn [lookupProp]. destruct (String.eqb k key).
  - right. exact (Forall_inv Hall).
  - apply IH. exact (Forall_inv_tail Hall).
Qed.

Lemma lookupProp_in (props : list (string * JsValue)) (key : string) :
  In key (List.map fst props) -> In (key, lookupProp props key) props.
Proof.
  induction props as [| [k v] props IH]; intros Hin; [contradiction |].
  cbn [lookupProp]. destruct (String.eqb k key) eqn:Heq.
  - apply String.eqb_eq in Heq. subst k. left. reflexivity.
  - right. apply IH. destruct Hin as [Hk | Hin]; [| exact Hin].
    cbn in Hk. subst k. rewrite String.eqb_refl in Heq. discriminate.
Qed.

Lemma lookupProp_nodup (props : list (string * JsValue)) (key : string) (v : JsValue) :
  List.NoDup (List.map fst props) -> In (key, v) props -> lookupProp props key = v.
Proof.
  induction props as [| [k w] props IH]; intros Hnd Hin; [contradiction |].
  cbn [List.map fst] in Hnd. apply NoDup_cons_iff in Hnd as [Hfresh Hnd].
  cbn [lookupProp]. destruct (String.eqb k key) eqn:Heq.
  - apply String.eqb_eq in Heq. subst k.
    destruct Hin as [Hhead | Hin]; [congruence |].
    exfalso. apply Hfresh. apply (in_map fst) in Hin. exact Hin.
  - destruct Hin as [Hhead | Hin].
    + injection Hhead as -> ->. rewrite String.eqb_refl in Heq. discriminate.
    + apply IH; assumption.
Qed.

(** The description of an object schema lists its fields. *)
Lemma schemaShapeKeys_object (shape : list (string * Schema)) :
  schemaShapeKeys (SObject shape) = Normal (List.map fst shape).
Proof.
  unfold schemaShapeKeys. cbn. f_equal. rewrite List.map_map. reflexivity.
Qed.

Lemma schemaShapeKeys_other (template : Schema) :
  instanceofObjectSchema template = false -> schemaShapeKeys template = Normal [].
Proof. destruct template; try discriminate; reflexivity. Qed.

(** Under an object schema that declares a field, a record of scalars,
    be it the payload or the value of one of its fields, is encoded as the
    row of its values under the field names of the schema. *)
Lemma serialize_row (shape : list (string * Schema)) (props : list (string * JsValue)) :
  shape <> [] ->
  Forall (fun kv => isScalar (snd kv) = true) props ->
  serialize (SObject shape) (VObj props) = Normal (VArr (rowOf props (List.map fst shape))).
Proof.
  intros Hfields Hscalars.
  rewrite serialize_unfold. cbn [typeofObject negb].
  rewrite schemaShapeKeys_object. cbn [bindC].
  destruct (List.map fst shape) as [| key keys] eqn:Hkeys.
  - destruct shape; [contradiction | discriminate].
  - rewrite <- Hkeys.
    rewrite (mapC_normal _ (lookupProp props)); [reflexivity |].
    intros k _. cbn [getProp bindC].
    destruct (lookupProp_scalar props k Hscalars) as [-> | Hs];
      [reflexivity | apply serializeNested_scalar; exact Hs].
Qed.

(** The encoding of a field that holds a record of scalars: its row under
    the field names of the outer schema, whatever schema the field has. *)
Lemma serialize_nested_row (shape : list (string * Schema))
    (props inner : list (string * JsValue)) (key : string) :
  shape <> [] ->
  lookupProp props key = VObj inner ->
  Forall (fun kv => isScalar (snd kv) = true) inner ->
  (let* v := getProp (VObj props) key in serializeNested (serialize (SObject shape)) v)
  = Normal (VArr (rowOf inner (List.map fst shape))).
Proof.
  intros Hfields Hfield Hscalars. cbn [getProp bindC]. rewrite Hfield.
  cbn [serializeNested]. apply serialize_row; assumption.
Qed.

Lemma serialize_record (shape : list (string * Schema)) (props : list (string * JsValue)) :
  Permutation (List.map fst props) (List.map fst shape) ->
  Forall (fun kv => isScalar (snd kv) = true) props ->
  serialize (SObject shape) (VObj props) = Normal (VArr (rowOf props (List.map fst shape))).
Proof.
  intros Hperm Hscalars. destruct shape as [| field shape].
  - symmetry in Hperm. apply Permutation_nil in Hperm. destruct props; [reflexivity | discriminate].
  - apply serialize_row; [discriminate | exact Hscalars].
Qed.

Lemma serialize_array (template : Schema) (elems : list JsValue) :
  instanceofObjectSchema template = false ->
  Forall (fun v => isScalar v = true) elems ->
  serialize template (VArr elems) = Normal (VArr elems).
Proof.
  intros Hother Hscalars.
  rewrite serialize_unfold. cbn [typeofObject negb].
  rewrite (schemaShapeKeys_other template Hother). cbn [bindC Object_values].
  rewrite (mapC_normal _ (fun v => v)).
  - rewrite List.map_id. reflexivity.
  - intros v Hin. apply serializeNested_scalar.
    rewrite List.Forall_forall in Hscalars. apply Hscalars, Hin.
Qed.

Lemma scalars_isArrayTree (elems : list JsValue) :
  Forall (fun v => isScalar v = true) elems -> isArrayTree (VArr elems) = true.
Proof.
  intros Hall. cbn [isArrayTree]. apply forallb_forall. intros v Hin.
  rewrite List.Forall_forall in Hall. specialize (Hall v Hin). destruct v; try discriminate; reflexivity.
Qed.

(** A scalar of JSON is a scalar, is a value of JavaScript, and is read
    back as it is. *)
Lemma isJsonScalar_spec (v : JsValue) :
  isJsonScalar v = true -> isScalar v = true /\ isJsValue v = true /\ readBack v = v.
Proof.
  destruct v as [| | b | [n | s p | | | negative] | s | elems | props]; try discriminate;
    intros H; repeat split; exact H.
Qed.

Lemma jsonScalars_scalars (elems : list JsValue) :
  Forall (fun v => isJsonScalar v = true) elems -> Forall (fun v => isScalar v = true) elems.
Proof.
  intros Hall. apply List.Forall_forall. intros v Hin.
  rewrite List.Forall_forall in Hall. exact (proj1 (isJsonScalar_spec v (Hall v Hin))).
Qed.

Lemma jsonScalars_isJsValue (elems : list JsValue) :
  Forall (fun v => isJsonScalar v = true) elems -> isJsValue (VArr elems) = true.
Proof.
  intros Hall. cbn [isJsValue]. apply forallb_forall. intros v Hin.
  rewrite List.Forall_forall in Hall.
  exact (proj1 (proj2 (isJsonScalar_spec v (Hall v Hin)))).
Qed.

Lemma scalars_readBack (elems : list JsValue) :
  Forall (fun v => isJsonScalar v = true) elems -> readBack (VArr elems) = VArr elems.
Proof.
  intros Hall. cbn [readBack]. f_equal.
  induction Hall as [| v elems Hv Hall IH]; [reflexivity |].
  cbn [List.map]. rewrite IH. rewrite (proj2 (proj2 (isJsonScalar_spec v Hv))). reflexivity.
Qed.

(** The text that [set] writes for an array of scalars parses back to it. *)
Lemma parse_stringify_scalars (elems : list JsValue) :
  Forall (fun v => isJsonScalar v = true) elems ->
  (let* text := jsonStringify (VArr elems) in Json.parse text) = Normal (VArr elems).
Proof.
  intros Hall. cbn [jsonStringify Json.stringify bindC].
  rewrite parse_stringifyValue by (apply jsonScalars_isJsValue, Hall).
  rewrite scalars_readBack by exact Hall. reflexivity.
Qed.

Lemma JsNumber_eqb_refl (x : JsNumber) : JsNumber_eqb x x = true.
Proof.
  destruct x as [n | s p | | | negative]; cbn; try reflexivity.
  - apply Z.eqb_refl.
  - rewrite Z.eqb_refl, Pos.eqb_refl. reflexivity.
  - apply Bool.eqb_reflx.
Qed.

Lemma deepEqual_scalar (v : JsValue) : isScalar v = true -> deepEqual v v = true.
Proof.
  destruct v; try discriminate; intros _; cbn [deepEqual].
  - reflexivity.
  - apply Bool.eqb_reflx.
  - apply JsNumber_eqb_refl.
  - apply String.eqb_refl.
Qed.

Lemma deepEqual_scalars (elems : list JsValue) :
  Forall (fun v => isScalar v = true) elems -> deepEqual (VArr elems) (VArr elems) = true.
Proof.
  intros Hall. cbn [deepEqual].
  induction Hall as [| v elems Hv Hall IH]; [reflexivity |].
  rewrite (deepEqual_scalar v Hv), IH. reflexivity.
Qed.

(** ** Decoding a row of scalars *)

Lemma setProp_fresh (props : list (string * JsValue)) (key : string) (value : JsValue) :
  ~ In key (List.map fst props) -> setProp props key value = props ++ [(key, value)].
Proof.
  induction props as [| [k v] props IH]; intros Hfresh; [reflexivity |].
  cbn [setProp]. destruct (String.eqb k key) eqn:Heq.
  - apply String.eqb_eq in Heq. subst k. exfalso. apply Hfresh. left. reflexivity.
  - rewrite IH; [reflexivity |]. intros Hin. apply Hfresh. right. exact Hin.
Qed.

Lemma rebuilt_keys (f : string -> JsValue) (shape : list (string * Schema)) :
  List.map fst (rebuilt f shape) = List.map fst shape.
Proof. unfold rebuilt. rewrite List.map_map. reflexivity. Qed.

Lemma fromCompressedArrayFrom_row (f : string -> JsValue)
    (done rest : list (string * Schema)) :
  List.NoDup (List.map fst (done ++ rest)) ->
  (forall field, In field rest -> instanceofObjectSchema (snd field) = false) ->
  fromCompressedArrayFrom (List.map f (List.map fst (done ++ rest))) rest
    (List.length done) (rebuilt f done)
  = Normal (VObj (rebuilt f (done ++ rest))).
Proof.
  revert done. induction rest as [| [key propSchema] rest IH]; intros done Hnd Hflat.
  - rewrite List.app_nil_r. reflexivity.
  - cbn [fromCompressedArrayFrom].
    pose proof (Hflat (key, propSchema) (or_introl eq_refl)) as Hfield. cbn [snd] in Hfield.
    rewrite Hfield. cbn [bindC].
    assert (Hraw : nth (List.length done)
                       (List.map f (List.map fst (done ++ (key, propSchema) :: rest)))
                       VUndefined = f key).
    { rewrite !List.map_app. cbn [List.map fst].
      rewrite List.app_nth2 by (rewrite !List.length_map; lia).
      rewrite !List.length_map, Nat.sub_diag. reflexivity. }
    rewrite Hraw.
    assert (Hfresh : ~ In key (List.map fst (rebuilt f done))).
    { rewrite rebuilt_keys. rewrite List.map_app in Hnd. cbn [List.map fst] in Hnd.
      apply List.NoDup_remove_2 in Hnd. intros Hin. apply Hnd. apply in_or_app. left. exact Hin. }
    rewrite (setProp_fresh _ _ _ Hfresh).
    assert (Hsplit : done ++ (key, propSchema) :: rest = (done ++ [(key, propSchema)]) ++ rest).
    { rewrite <- List.app_assoc. reflexivity. }
    rewrite Hsplit in Hnd |- *.
    replace (rebuilt f done ++ [(key, f key)]) with (rebuilt f (done ++ [(key, propSchema)]))
      by (unfold rebuilt; rewrite List.map_app; reflexivity).
    replace (S (List.length done)) with (List.length (done ++ [(key, propSchema)]))
      by (rewrite List.length_app; cbn [List.length]; lia).
    apply IH; [exact Hnd |].
    intros field Hin. apply Hflat. right. exact Hin.
Qed.

(** Rebuilding under a schema that declares a field by an object schema
    throws, whatever the array holds. *)
Lemma fromCompressedArrayFrom_nested (arr : list JsValue) (shape : list (string * Schema))
    (idx : nat) (result : list (string * JsValue)) :
  existsb (fun field => instanceofObjectSchema (snd field)) shape = true ->
  fromCompressedArrayFrom arr shape idx result = Thrown TypeError.
Proof.
  revert idx result. induction shape as [| [key propSchema] shape IH]; intros idx result Hnested.
  - discriminate.
  - cbn [fromCompressedArrayFrom]. cbn [existsb snd] in Hnested.
    destruct (instanceofObjectSchema propSchema); [reflexivity |].
    cbn [bindC]. apply IH. exact Hnested.
Qed.

Lemma fromCompressedArray_row (f : string -> JsValue) (shape : list (string * Schema)) :
  List.NoDup (List.map fst shape) ->
  (forall field, In field shape -> instanceofObjectSchema (snd field) = false) ->
  fromCompressedArray (List.map f (List.map fst shape)) shape = Normal (VObj (rebuilt f shape)).
Proof.
  intros Hnd Hflat. exact (fromCompressedArrayFrom_row f [] shape Hnd Hflat).
Qed.

Lemma lookupProp_rebuilt (f : string -> JsValue) (shape : list (string * Schema)) (key : string) :
  In key (List.map fst shape) -> lookupProp (rebuilt f shape) key = f key.
Proof.
  induction shape as [| [k s] shape IH]; intros Hin; [contradiction |].
  cbn [rebuilt List.map fst lookupProp]. destruct (String.eqb k key) eqn:Heq.
  - apply String.eqb_eq in Heq. subst k. reflexivity.
  - apply IH. destruct Hin as [Hk | Hin]; [| exact Hin].
    cbn in Hk. subst k. rewrite String.eqb_refl in Heq. discriminate.
Qed.

Lemma flat_map_ext_in {A B : Type} (f g : A -> list B) (l : list A) :
  (forall a, In a l -> f a = g a) -> flat_map f l = flat_map g l.
Proof.
  induction l as [| a l IH]; intros Hext; [reflexivity |].
  cbn [flat_map]. rewrite (Hext a) by (left; reflexivity).
  rewrite IH by (intros b Hb; apply Hext; right; exact Hb). reflexivity.
Qed.

Lemma flat_map_nil_inv {A B : Type} (f : A -> list B) (l : list A) (a : A) :
  flat_map f l = [] -> In a l -> f a = [].
Proof.
  induction l as [| b l IH]; intros Hnil Hin; [contradiction |].
  cbn [flat_map] in Hnil. apply List.app_eq_nil in Hnil as [Hb Hl].
  destruct Hin as [-> | Hin]; [exact Hb | apply IH; assumption].
Qed.

(** A valid record of scalars has no field declared by an object schema. *)
Lemma valid_scalars_flat (shape : list (string * Schema)) (props : list (string * JsValue)) :
  Permutation (List.map fst props) (List.map fst shape) ->
  Forall (fun kv => isScalar (snd kv) = true) props ->
  validate (SObject shape) (VObj props) = [] ->
  forall field, In field shape -> instanceofObjectSchema (snd field) = false.
Proof.
  intros Hperm Hscalars Hvalid [key propSchema] Hin.
  cbn [validate] in Hvalid.
  pose proof (flat_map_nil_inv _ _ _ Hvalid Hin) as Hfield. cbn [fst snd] in Hfield.
  assert (Hkey : In key (List.map fst props)).
  { apply (Permutation_in key (Permutation_sym Hperm)).
    change key with (fst (key, propSchema)). apply in_map. exact Hin. }
  apply lookupProp_in in Hkey.
  rewrite List.Forall_forall in Hscalars. specialize (Hscalars _ Hkey). cbn [snd] in Hscalars.
  destruct propSchema as [kind | inner | item | shape']; try reflexivity.
  cbn [validate] in Hfield.
  destruct (lookupProp props key); discriminate.
Qed.

Lemma validate_rebuilt (shape : list (string * Schema)) (props : list (string * JsValue)) :
  validate (SObject shape) (VObj (rebuilt (lookupProp props) shape))
  = validate (SObject shape) (VObj props).
Proof.
  cbn [validate]. apply flat_map_ext_in. intros [key propSchema] Hin. cbn [fst snd].
  rewrite lookupProp_rebuilt; [reflexivity |].
  change key with (fst (key, propSchema)). apply in_map. exact Hin.
Qed.

Lemma deepEqual_rebuilt (shape : list (string * Schema)) (props : list (string * JsValue)) :
  List.NoDup (List.map fst shape) ->
  Permutation (List.map fst props) (List.map fst shape) ->
  Forall (fun kv => isScalar (snd kv) = true) props ->
  deepEqual (VObj props) (VObj (rebuilt (lookupProp props) shape)) = true.
Proof.
  intros Hnd Hperm Hscalars.
  assert (Hnd' : List.NoDup (List.map fst props)).
  { apply (Permutation_NoDup (Permutation_sym Hperm)). exact Hnd. }
  cbn [deepEqual]. apply andb_true_iff. split.
  - apply Nat.eqb_eq. unfold rebuilt. rewrite List.length_map.
    apply Permutation_length in Hperm. rewrite !List.length_map in Hperm. exact Hperm.
  - set (decoded := rebuilt (lookupProp props) shape).
    match goal with
    | |- ?F props = true =>
        set (fields := F);
        assert (Hfields : forall ps, (forall kv, In kv ps -> In kv props) -> fields ps = true)
    end.
    { induction ps as [| [k v] ps IH]; intros Hincl; [reflexivity |].
      assert (Hin : In (k, v) props) by (apply Hincl; left; reflexivity).
      assert (Hkey : In k (List.map fst shape)).
      { apply (Permutation_in k Hperm). change k with (fst (k, v)). apply in_map. exact Hin. }
      change (fields ((k, v) :: ps))
        with (existsb (String.eqb k) (List.map fst decoded)
              && deepEqual v (lookupProp decoded k) && fields ps).
      unfold decoded. rewrite rebuilt_keys.
      rewrite (lookupProp_rebuilt _ _ _ Hkey).
      rewrite (lookupProp_nodup props k v Hnd' Hin).
      rewrite List.Forall_forall in Hscalars.
      rewrite (deepEqual_scalar v (Hscalars _ Hin)).
      rewrite IH by (intros kv Hkv; apply Hincl; right; exact Hkv).
      rewrite !andb_true_r. apply existsb_exists. exists k. split; [exact Hkey | apply String.eqb_refl]. }
    apply Hfields. auto.
Qed.

Lemma rowOf_scalars (shape : list (string * Schema)) (props : list (string * JsValue)) :
  Permutation (List.map fst props) (List.map fst shape) ->
  Forall (fun kv => isScalar (snd kv) = true) props ->
  Forall (fun v => isScalar v = true) (rowOf props (List.map fst shape)).
Proof.
  intros Hperm Hscalars. unfold rowOf. apply List.Forall_forall. intros v Hin.
  apply in_map_iff in Hin as (key & <- & Hkey).
  apply (Permutation_in key (Permutation_sym Hperm)) in Hkey.
  apply lookupProp_in in Hkey.
  rewrite List.Forall_forall in Hscalars. exact (Hscalars _ Hkey).
Qed.

Lemma jsonScalar_props (props : list (string * JsValue)) :
  Forall (fun kv => isJsonScalar (snd kv) = true) props ->
  Forall (fun kv => isScalar (snd kv) = true) props.
Proof.
  intros Hall. apply List.Forall_forall. intros kv Hin.
  rewrite List.Forall_forall in Hall. exact (proj1 (isJsonScalar_spec _ (Hall kv Hin))).
Qed.

Lemma rowOf_jsonScalars (shape : list (string * Schema)) (props : list (string * JsValue)) :
  Permutation (List.map fst props) (List.map fst shape) ->
  Forall (fun kv => isJsonScalar (snd kv) = true) props ->
  Forall (fun v => isJsonScalar v = true) (rowOf props (List.map fst shape)).
Proof.
  intros Hperm Hscalars. unfold rowOf. apply List.Forall_forall. intros v Hin.
  apply in_map_iff in Hin as (key & <- & Hkey).
  apply (Permutation_in key (Permutation_sym Hperm)) in Hkey.
  apply lookupProp_in in Hkey.
  rewrite List.Forall_forall in Hscalars. exact (Hscalars _ Hkey).
Qed.

(** The records and arrays of scalars of JSON go through the codec and
    the JSON text unharmed. *)
Lemma round_trip_flat (template : Schema) (value : JsValue) :
  holdsScalars template value ->
  validate template value = [] ->
  exists decoded,
    (let* payload := serialize template value in
     let* text := jsonStringify payload in
     sealJsonParser text template) = Normal decoded /\
    deepEqual value decoded = true /\
    validate template decoded = [].
Proof.
  intros Hcovered Hvalid.
  destruct template as [kind | inner | item | shape].
  1-3: destruct value as [| | | | | elems |]; try contradiction;
       cbn [holdsScalars] in Hcovered;
       pose proof (jsonScalars_scalars elems Hcovered) as Hscalars;
       exists (VArr elems);
       rewrite serialize_array by (reflexivity || exact Hscalars);
       cbn [bindC]; unfold sealJsonParser;
       pose proof (parse_stringify_scalars elems Hcovered) as Hparse;
       destruct (jsonStringify (VArr elems)) as [text | e]; [| discriminate];
       cbn [bindC] in Hparse |- *; rewrite Hparse; cbn [bindC];
       rewrite Hvalid;
       (split; [reflexivity | split; [apply deepEqual_scalars; exact Hscalars | reflexivity]]).
  destruct value as [| | | | | | props]; try contradiction.
  destruct Hcovered as (Hnd & Hperm & Hjson).
  pose proof (jsonScalar_props props Hjson) as Hscalars.
  exists (VObj (rebuilt (lookupProp props) shape)).
  rewrite (serialize_record shape props Hperm Hscalars). cbn [bindC].
  pose proof (rowOf_jsonScalars shape props Hperm Hjson) as Hrow.
  pose proof (parse_stringify_scalars _ Hrow) as Hparse.
  unfold sealJsonParser.
  destruct (jsonStringify (VArr (rowOf props (List.map fst shape)))) as [text | e];
    [| discriminate].
  cbn [bindC] in Hparse |- *. rewrite Hparse. cbn [bindC].
  unfold rowOf.
  rewrite (fromCompressedArray_row (lookupProp props) shape Hnd
             (valid_scalars_flat shape props Hperm Hscalars Hvalid)).
  cbn [bindC]. rewrite validate_rebuilt, Hvalid.
  split; [reflexivity |]. split; [| reflexivity].
  apply deepEqual_rebuilt; assumption.
Qed.

(** A boolean, a number or a string is handed on as it is, and the
    decoder refuses a text that is not an array: so it is under every
    schema. *)
Lemma bare_scalar_rejected (template : Schema) (value : JsValue) :
  isScalar value = true -> isJsValue value = true -> value <> VNull ->
  serialize template value = Normal value /\
  (let* payload := serialize template value in
   let* text := jsonStringify payload in
   sealJsonParser text template) = Thrown InputNotArray.
Proof.
  intros Hscalar Hjs Hnull.
  assert (Hparse : Json.parse (stringifyValue value) = Normal (readBack value)).
  { apply parse_stringifyValue. exact Hjs. }
  assert (Hbare : forall elems, readBack value <> VArr elems).
  { intros elems. destruct value as [| | b | [n | s p | | | negative] | s | |];
      try discriminate. }
  assert (Hrefused : sealJsonParser (stringifyValue value) template = Thrown InputNotArray).
  { unfold sealJsonParser. rewrite Hparse. cbn [bindC].
    destruct (readBack value) as [| | | | | elems |] eqn:Hback; try reflexivity.
    exfalso. exact (Hbare elems eq_refl). }
  destruct value; try discriminate; try contradiction;
    (split; [reflexivity |]); cbn [serialize bindC jsonStringify stringify]; exact Hrefused.
Qed.

(** C1, as amended: a valid value is encoded to a text which is decoded
    to a valid value, deep-equal to the original, when it is, under an
    object schema, a record that has the declared fields and no other, each
    holding [null], a boolean, a string or a finite number other than [-0],
    or, under any other schema, an array of such scalars; and a valid
    boolean, number or string is encoded as itself, to a text that the
    decoder refuses with the error [InputNotArray]. *)
Theorem codec_round_trip (template : Schema) (value : JsValue) :
  validate template value = [] ->
  let decoding :=
    let* payload := serialize template value in
    let* text := jsonStringify payload in
    sealJsonParser text template in
  (holdsScalars template value ->
   exists decoded,
     decoding = Normal decoded /\
     deepEqual value decoded = true /\
     validate template decoded = []) /\
  (isScalar value = true -> isJsValue value = true -> value <> VNull ->
   serialize template value = Normal value /\ decoding = Thrown InputNotArray).
Proof.
  intros Hvalid decoding. split.
  - intros Hcovered. exact (round_trip_flat template value Hcovered Hvalid).
  - intros Hscalar Hjs Hnull. exact (bare_scalar_rejected template value Hscalar Hjs Hnull).
Qed.

Lemma codec_round_trip_witness :
  (exists decoded,
     (let* payload :=
        serialize schemaC (VObj [("note", VStr "a"); ("count", VNum (NFrac 15 1))]) in
      let* text := jsonStringify payload in
      sealJsonParser text schemaC) = Normal decoded /\
     deepEqual (VObj [("note", VStr "a"); ("count", VNum (NFrac 15 1))]) decoded = true /\
     validate schemaC decoded = []) /\
  (serialize (SPrimitive PNumber) (VNum 7) = Normal (VNum 7) /\
   (let* payload := serialize (SPrimitive PNumber) (VNum 7) in
    let* text := jsonStringify payload in
    sealJsonParser text (SPrimitive PNumber)) = Thrown InputNotArray).
Proof.
  split.
  - apply (codec_round_trip schemaC (VObj [("note", VStr "a"); ("count", VNum (NFrac 15 1))])).
    + reflexivity.
    + simpl. split; [| split].
      * constructor; [| constructor; [| constructor]]; simpl; intuition discriminate.
      * apply perm_swap.
      * constructor; [reflexivity |]. constructor; [vm_compute; reflexivity | constructor].
  - apply (codec_round_trip (SPrimitive PNumber) (VNum 7)).
    + reflexivity.
    + reflexivity.
    + vm_compute. reflexivity.
    + discriminate.
Defined.

(** C1, as stated, fails on a string under the string schema: [set] writes
    the bare scalar, and the decoder refuses a text that is not an array. *)
Lemma round_trip_primitive_counterexample :
  validate (SPrimitive PString) (VStr "abc") = [] /\
  (let* payload := serialize (SPrimitive PString) (VStr "abc") in
   let* text := jsonStringify payload in
   sealJsonParser text (SPrimitive PString)) = Thrown InputNotArray.
Proof. split; vm_compute; reflexivity. Qed.

(** The records that the amended statement leaves out are not read back
    as written.  A record without one of its nullable fields comes back
    with [null] in the field. *)
Example round_trip_absent_field_example :
  validate schemaA (VObj [("userId", VStr "1")]) = [] /\
  (let* payload := serialize schemaA (VObj [("userId", VStr "1")]) in
   let* text := jsonStringify payload in
   sealJsonParser text schemaA)
  = Normal (VObj [("userId", VStr "1"); ("userName", VNull)]) /\
  deepEqual (VObj [("userId", VStr "1")])
            (VObj [("userId", VStr "1"); ("userName", VNull)]) = false.
Proof. vm_compute. repeat split; reflexivity. Qed.

(** A property that the schema does not declare is lost. *)
Example round_trip_undeclared_property_example :
  validate schemaA (VObj [("userId", VStr "1"); ("userName", VNull); ("age", VNum 3)]) = [] /\
  (let* payload :=
     serialize schemaA (VObj [("userId", VStr "1"); ("userName", VNull); ("age", VNum 3)]) in
   let* text := jsonStringify payload in
   sealJsonParser text schemaA)
  = Normal (VObj [("userId", VStr "1"); ("userName", VNull)]) /\
  deepEqual (VObj [("userId", VStr "1"); ("userName", VNull); ("age", VNum 3)])
            (VObj [("userId", VStr "1"); ("userName", VNull)]) = false.
Proof. vm_compute. repeat split; reflexivity. Qed.

(** [NaN] and the infinities are written [null]: under a number schema the
    record is then refused, and [null] is what the decoder returns. *)
Example round_trip_not_a_number_example :
  validate schemaC (VObj [("count", VNum NNaN); ("note", VNull)]) = [] /\
  (let* payload := serialize schemaC (VObj [("count", VNum NNaN); ("note", VNull)]) in
   let* text := jsonStringify payload in
   Normal text) = Normal "[null,null]" /\
  (let* payload := serialize schemaC (VObj [("count", VNum NNaN); ("note", VNull)]) in
   let* text := jsonStringify payload in
   sealJsonParser text schemaC) = Normal VNull.
Proof. vm_compute. repeat split; reflexivity. Qed.

(** [-0] is written [0]. *)
Example round_trip_minus_zero_example :
  validate schemaC (VObj [("count", VNum NNegZero); ("note", VNull)]) = [] /\
  (let* payload := serialize schemaC (VObj [("count", VNum NNegZero); ("note", VNull)]) in
   let* text := jsonStringify payload in
   sealJsonParser text schemaC) = Normal (VObj [("count", VNum 0); ("note", VNull)]) /\
  deepEqual (VObj [("count", VNum NNegZero); ("note", VNull)])
            (VObj [("count", VNum 0); ("note", VNull)]) = false.
Proof. vm_compute. repeat split; reflexivity. Qed.

(** Numbers with a fraction and large numbers are read back as written. *)
Example round_trip_numbers_example :
  let row := VArr [VNum (NFrac 15 1); VNum (NFrac (-1) 7); VNum (10 ^ 21); VNum (-12300)] in
  holdsScalars (SArray (SPrimitive PNumber)) row /\
  (let* payload := serialize (SArray (SPrimitive PNumber)) row in
   let* text := jsonStringify payload in
   Normal text) = Normal "[1.5,-1e-7,1e+21,-12300]" /\
  (let* payload := serialize (SArray (SPrimitive PNumber)) row in
   let* text := jsonStringify payload in
   sealJsonParser text (SArray (SPrimitive PNumber))) = Normal row.
Proof.
  cbv zeta. split; [| split; vm_compute; reflexivity].
  cbn [holdsScalars]. repeat constructor.
Qed.

(** The executor on such a record: what [set] stores, [get] returns. *)
Lemma get_after_set (template : Schema) (options : ExecutorOptions) (key : string)
    (value : JsValue) (c : RedisClient) :
  isReady c 0%nat = true ->
  returnBuffers c = false ->
  holdsScalars template value ->
  validate template value = [] ->
  exists decoded,
    fst (get template options key false (snd (set template options key value c)))
      = Resolved decoded /\
    deepEqual value decoded = true /\
    validate template decoded = [].
Proof.
  intros Hready Htext Hcovered Hvalid.
  destruct (round_trip_flat template value Hcovered Hvalid) as (decoded & Hround & Hequal & Hok).
  exists decoded. split; [| split; assumption].
  unfold set. rewrite (afterGate_ready c _ Hready).
  destruct (serialize template value) as [payload | e]; [| discriminate].
  cbn [bindC] in Hround |- *.
  destruct (jsonStringify payload) as [text | e]; [| discriminate].
  cbn [bindC] in Hround.
  assert (Hnonempty : String.eqb text EmptyString = false).
  { destruct text; [| reflexivity]. exfalso.
    unfold sealJsonParser in Hround. vm_compute in Hround. discriminate. }
  assert (Hread : forall c' expiry, isReady c' 0%nat = true -> returnBuffers c' = false ->
            keyspace c' !! fullKey options key
              = Some {| entryValue := text; entryExpiry := expiry |} ->
            fst (get template options key false c') = Resolved decoded).
  { intros c' expiry Hready' Htext' Hstored.
    assert (Hopen : gatePromise (waitInitialization c') = Resolved tt).
    { rewrite (waitInitialization_ready c' Hready'). reflexivity. }
    assert (Hreply : Client.get (fullKey options key) c' = ReplyString text).
    { unfold Client.get. rewrite Hstored, Htext'. reflexivity. }
    rewrite (get_truthy_reply template options key false c' Hopen).
    - rewrite Hreply. cbn [replyText]. rewrite Hround. reflexivity.
    - rewrite Hreply. cbn [replyTruthy]. rewrite Hnonempty. reflexivity. }
  destruct (ttl options) as [seconds |]; cbn [snd].
  - apply (Hread _ (Some seconds)); try assumption.
    cbn [Client.setEx keyspace]. apply lookup_insert_eq.
  - apply (Hread _ None); try assumption.
    cbn [Client.set keyspace]. apply lookup_insert_eq.
Qed.

(** ** Namespaces *)

Lemma byteZ_range (b : Byte.byte) : 0 <= Base64Url.byteZ b < 256.
Proof.
  unfold Base64Url.byteZ. pose proof (Byte.to_N_bounded b) as H.
  lia.
Qed.

Lemma byteZ_inj (a b : Byte.byte) : Base64Url.byteZ a = Base64Url.byteZ b -> a = b.
Proof.
  unfold Base64Url.byteZ. intros H. apply N2Z.inj in H.
  pose proof (Byte.of_to_N a) as Ha. pose proof (Byte.of_to_N b) as Hb.
  rewrite H in Ha. congruence.
Qed.



Lemma sextetOf_sextetChar (n : Z) :
  0 <= n < 64 -> sextetOf (Base64Url.sextetChar n) = n.
Proof.
  intros Hn. rewrite <- (Z2Nat.id n) by lia.
  assert (Hlt : (Z.to_nat n < 64)%nat) by lia.
  generalize dependent (Z.to_nat n). clear n Hn. intros n Hlt.
  do 64 (destruct n as [| n]; [reflexivity |]). lia.
Qed.

Lemma sextetChar_inj (m n : Z) :
  0 <= m < 64 -> 0 <= n < 64 ->
  Base64Url.sextetChar m = Base64Url.sextetChar n -> m = n.
Proof.
  intros Hm Hn Heq. rewrite <- (sextetOf_sextetChar m Hm), <- (sextetOf_sextetChar n Hn), Heq.
  reflexivity.
Qed.

Lemma sextetChar_alphabet (n : Z) : In (Base64Url.sextetChar n) Base64Url.alphabet.
Proof.
  unfold Base64Url.sextetChar.
  destruct (Nat.lt_ge_cases (Z.to_nat n) (List.length Base64Url.alphabet)) as [Hlt | Hge].
  - apply nth_In. exact Hlt.
  - rewrite nth_overflow by exact Hge. left. reflexivity.
Qed.

Lemma group3_inj (a b c a' b' c' : Z) :
  0 <= a < 256 -> 0 <= b < 256 -> 0 <= c < 256 ->
  0 <= a' < 256 -> 0 <= b' < 256 -> 0 <= c' < 256 ->
  let n := a * 65536 + b * 256 + c in
  let n' := a' * 65536 + b' * 256 + c' in
  Base64Url.sextetChar (n / 262144) = Base64Url.sextetChar (n' / 262144) ->
  Base64Url.sextetChar ((n / 4096) mod 64) = Base64Url.sextetChar ((n' / 4096) mod 64) ->
  Base64Url.sextetChar ((n / 64) mod 64) = Base64Url.sextetChar ((n' / 64) mod 64) ->
  Base64Url.sextetChar (n mod 64) = Base64Url.sextetChar (n' mod 64) ->
  a = a' /\ b = b' /\ c = c'.
Proof.
  intros Ha Hb Hc Ha' Hb' Hc' n n' H1 H2 H3 H4.
  apply sextetChar_inj in H1; [| subst n n'; Z.div_mod_to_equations; lia ..].
  apply sextetChar_inj in H2; [| subst n n'; Z.div_mod_to_equations; lia ..].
  apply sextetChar_inj in H3; [| subst n n'; Z.div_mod_to_equations; lia ..].
  apply sextetChar_inj in H4; [| subst n n'; Z.div_mod_to_equations; lia ..].
  subst n n'. Z.div_mod_to_equations. lia.
Qed.

Lemma group2_inj (a b a' b' : Z) :
  0 <= a < 256 -> 0 <= b < 256 -> 0 <= a' < 256 -> 0 <= b' < 256 ->
  let n := a * 1024 + b * 4 in
  let n' := a' * 1024 + b' * 4 in
  Base64Url.sextetChar (n / 4096) = Base64Url.sextetChar (n' / 4096) ->
  Base64Url.sextetChar ((n / 64) mod 64) = Base64Url.sextetChar ((n' / 64) mod 64) ->
  Base64Url.sextetChar (n mod 64) = Base64Url.sextetChar (n' mod 64) ->
  a = a' /\ b = b'.
Proof.
  intros Ha Hb Ha' Hb' n n' H1 H2 H3.
  apply sextetChar_inj in H1; [| subst n n'; Z.div_mod_to_equations; lia ..].
  apply sextetChar_inj in H2; [| subst n n'; Z.div_mod_to_equations; lia ..].
  apply sextetChar_inj in H3; [| subst n n'; Z.div_mod_to_equations; lia ..].
  subst n n'. Z.div_mod_to_equations. lia.
Qed.

(** The text of eight bytes determines them. *)
Lemma encode_inj_8 (xs ys : list Byte.byte) :
  List.length xs = 8%nat -> List.length ys = 8%nat ->
  Base64Url.encode xs = Base64Url.encode ys -> xs = ys.
Proof.
  intros Hx Hy Heq.
  do 9 (destruct xs as [| ? xs]; try discriminate Hx).
  do 9 (destruct ys as [| ? ys]; try discriminate Hy).
  cbn [Base64Url.encode] in Heq.
  injection Heq as E1 E2 E3 E4 E5 E6 E7 E8 E9 E10 E11.
  apply group3_inj in E4; try apply byteZ_range; try assumption.
  apply group3_inj in E8; try apply byteZ_range; try assumption.
  apply group2_inj in E11; try apply byteZ_range; try assumption.
  destruct E4 as (Ha & Hb & Hc). destruct E8 as (Hd & He & Hf). destruct E11 as (Hg & Hh).
  repeat match goal with H : Base64Url.byteZ _ = Base64Url.byteZ _ |- _ => apply byteZ_inj in H end.
  congruence.
Qed.

Lemma encode_length_8 (xs : list Byte.byte) :
  List.length xs = 8%nat -> String.length (Base64Url.encode xs) = 11%nat.
Proof.
  intros Hx. do 9 (destruct xs as [| ? xs]; try discriminate Hx). reflexivity.
Qed.

Lemma encode_alphabet_8 (xs : list Byte.byte) :
  List.length xs = 8%nat ->
  Forall (fun c => In c Base64Url.alphabet) (list_ascii_of_string (Base64Url.encode xs)).
Proof.
  intros Hx. do 9 (destruct xs as [| ? xs]; try discriminate Hx).
  cbn [Base64Url.encode list_ascii_of_string].
  repeat (constructor; [apply sextetChar_alphabet |]). constructor.
Qed.

Lemma prefixDigest_length (outputLength : nat) (text : string) :
  List.length (prefixDigest outputLength text) = outputLength.
Proof.
  unfold prefixDigest. rewrite List.length_firstn, List.length_app, List.repeat_length. lia.
Qed.

(** The text that is hashed lists the options in the order of the literal. *)
Example options_order_example :
  stringifyValue (optionsObject (Some [OptTtl 2; OptReadOnce true]))
  <> stringifyValue (optionsObject (Some [OptReadOnce true; OptTtl 2])).
Proof. vm_compute. discriminate. Qed.

(** *** SHAKE256 *)

(** The digests of the empty text, of a short text and of a text of three
    blocks. *)
Example shake256_known_answers :
  List.map Base64Url.byteZ (Shake256.digest 8 EmptyString)
  = [70; 185; 221; 43; 11; 168; 141; 19] /\
  List.map Base64Url.byteZ (Shake256.digest 8 "abc")
  = [72; 51; 102; 96; 19; 96; 168; 119] /\
  List.map Base64Url.byteZ
    (Shake256.digest 8 (string_of_list_ascii (repeat "a"%char 300)))
  = [84; 46; 67; 56; 202; 24; 228; 55].
Proof. vm_compute. repeat split; reflexivity. Qed.





Lemma bytesOfLane_length (count : nat) (value : Z) :
  List.length (Shake256.bytesOfLane count value) = count.
Proof.
  revert value. induction count as [| count IH]; intros value; [reflexivity |].
  cbn [Shake256.bytesOfLane List.length]. rewrite IH. reflexivity.
Qed.



(** *** The shape of the namespace *)

(** The derived namespace is the base64url text, eleven characters of the
    URL-safe alphabet, of a digest of eight bytes; a namespace given in the
    options is taken as it is. *)
Lemma namespace_shape (shake256 : nat -> string -> list Byte.byte)
    (template : Schema) (options : option RedisSchemaOptions) :
  (forall n text, List.length (shake256 n text) = n) ->
  String.length (RedisSchema.deriveNamespace shake256 template options) = 11%nat /\
  Forall (fun c => In c Base64Url.alphabet)
         (list_ascii_of_string (RedisSchema.deriveNamespace shake256 template options)) /\
  (forall name, optionalProp options "namespace" = VStr name ->
     namespace (RedisSchema.requiredOptions shake256 template options) = name) /\
  (optionalProp options "namespace" = VUndefined ->
     namespace (RedisSchema.requiredOptions shake256 template options)
     = RedisSchema.deriveNamespace shake256 template options).
Proof.
  intros Hlength. split; [| split; [| split]].
  - apply encode_length_8, Hlength.
  - apply encode_alphabet_8, Hlength.
  - intros name Hname. unfold RedisSchema.requiredOptions. cbn [namespace].
    rewrite Hname. reflexivity.
  - intros Habsent. unfold RedisSchema.requiredOptions. cbn [namespace].
    rewrite Habsent. reflexivity.
Qed.

(** Two derivations give the same namespace exactly when they give the
    same digest. *)
Lemma namespace_eq_digest (shake256 : nat -> string -> list Byte.byte)
    (template template' : Schema) (options options' : option RedisSchemaOptions) :
  (forall n text, List.length (shake256 n text) = n) ->
  RedisSchema.deriveNamespace shake256 template options
  = RedisSchema.deriveNamespace shake256 template' options'
  <-> shake256 8%nat (stringifyValue (VArr [exportMetadataOf template; optionsObject options]))
      = shake256 8%nat
          (stringifyValue (VArr [exportMetadataOf template'; optionsObject options'])).
Proof.
  intros Hlength. split.
  - intros Heq. apply encode_inj_8; [apply Hlength | apply Hlength | exact Heq].
  - intros Heq. unfold RedisSchema.deriveNamespace. rewrite Heq. reflexivity.
Qed.

(** *** The order of the options *)

Lemma append_inj_l (prefix a b : string) : prefix +:+ a = prefix +:+ b -> a = b.
Proof.
  induction prefix as [| ch prefix IH]; intros Heq; [exact Heq |].
  rewrite !append_cons in Heq. injection Heq as Heq. apply IH. exact Heq.
Qed.

Lemma quote_ttl : quote "ttl" = String dquote ("ttl" +:+ String dquote EmptyString).
Proof. vm_compute. reflexivity. Qed.

Lemma quote_readOnce :
  quote "readOnce" = String dquote ("readOnce" +:+ String dquote EmptyString).
Proof. vm_compute. reflexivity. Qed.

(** The texts hashed for [{ ttl, readOnce }] and for [{ readOnce, ttl }]
    differ, whatever the schema and the two settings. *)
Lemma hashed_option_order (template : Schema) (seconds : Z) (flag : bool) :
  stringifyValue
    (VArr [exportMetadataOf template; optionsObject (Some [OptTtl seconds; OptReadOnce flag])])
  <> stringifyValue
       (VArr [exportMetadataOf template;
              optionsObject (Some [OptReadOnce flag; OptTtl seconds])]).
Proof.
  change (optionsObject (Some [OptTtl seconds; OptReadOnce flag]))
    with (VObj [("ttl", VNum seconds); ("readOnce", VBool flag)]).
  change (optionsObject (Some [OptReadOnce flag; OptTtl seconds]))
    with (VObj [("readOnce", VBool flag); ("ttl", VNum seconds)]).
  remember (exportMetadataOf template) as description.
  cbn [stringifyValue List.map joinComma].
  rewrite quote_ttl, quote_readOnce.
  repeat (rewrite append_assoc || rewrite append_cons || rewrite append_empty).
  intros Heq. injection Heq as Heq. apply append_inj_l in Heq.
  discriminate Heq.
Qed.

(** For every schema, [ttl] and [readOnce], the literals [{ ttl, readOnce }]
    and [{ readOnce, ttl }] are the same options to the executor, and the
    two derivations give the same namespace only if the digest is the same
    for two different texts. *)
Lemma namespace_option_order (shake256 : nat -> string -> list Byte.byte)
    (template : Schema) (seconds : Z) (flag : bool) :
  (forall n text, List.length (shake256 n text) = n) ->
  let listed := Some [OptTtl seconds; OptReadOnce flag] in
  let swapped := Some [OptReadOnce flag; OptTtl seconds] in
  let hashed options :=
    stringifyValue (VArr [exportMetadataOf template; optionsObject options]) in
  (ttl (RedisSchema.requiredOptions shake256 template listed) = Some seconds /\
   ttl (RedisSchema.requiredOptions shake256 template swapped) = Some seconds) /\
  (readOnce (RedisSchema.requiredOptions shake256 template listed) = flag /\
   readOnce (RedisSchema.requiredOptions shake256 template swapped) = flag) /\
  hashed listed <> hashed swapped /\
  (RedisSchema.deriveNamespace shake256 template listed
   = RedisSchema.deriveNamespace shake256 template swapped
   <-> shake256 8%nat (hashed listed) = shake256 8%nat (hashed swapped)).
Proof.
  intros Hlength listed swapped hashed.
  split; [split; reflexivity |]. split; [split; reflexivity |]. split.
  - apply hashed_option_order.
  - apply namespace_eq_digest. exact Hlength.
Qed.

(** With SHAKE256 the two namespaces are different ones. *)
Example namespace_option_order_example :
  RedisSchema.deriveNamespace Shake256.digest schemaA (Some [OptTtl 2; OptReadOnce true])
  = "CW9EIA8T5u0" /\
  RedisSchema.deriveNamespace Shake256.digest schemaA (Some [OptReadOnce true; OptTtl 2])
  = "Q06lJNgrkwk".
Proof. vm_compute. split; reflexivity. Qed.

(** Options that are left out and options without a property are hashed
    as the same text; a [readOnce] that is given as [false], its default,
    is not. *)
Example namespace_default_options_example :
  RedisSchema.deriveNamespace Shake256.digest schemaA None
  = RedisSchema.deriveNamespace Shake256.digest schemaA (Some []) /\
  readOnce (RedisSchema.requiredOptions Shake256.digest schemaA None)
  = readOnce (RedisSchema.requiredOptions Shake256.digest schemaA (Some [OptReadOnce false])) /\
  RedisSchema.deriveNamespace Shake256.digest schemaA None
  <> RedisSchema.deriveNamespace Shake256.digest schemaA (Some [OptReadOnce false]).
Proof. vm_compute. repeat split; discriminate. Qed.

(** *** The text that is hashed *)





















(** *** Counting *)







(** ** The encoder on every payload *)

Lemma schemaShapeKeys_normal (template : Schema) :
  exists keys, schemaShapeKeys template = Normal keys.
Proof.
  destruct template as [kind | inner | item | shape].
  - exists []. reflexivity.
  - exists []. reflexivity.
  - exists []. reflexivity.
  - exists (List.map fst shape). apply schemaShapeKeys_object.
Qed.

Lemma mapC_arrayTrees {A : Type} (f : A -> Completion JsValue) (l : list A) :
  (forall a, In a l -> exists w, f a = Normal w /\ isArrayTree w = true) ->
  exists ws, mapC f l = Normal ws /\ forallb isArrayTree ws = true /\
             List.length ws = List.length l.
Proof.
  induction l as [| a l IH]; intros Hall.
  - exists []. repeat split.
  - destruct (Hall a (or_introl eq_refl)) as (w & Hw & Htree).
    destruct IH as (ws & Hws & Htrees & Hlen).
    { intros b Hb. apply Hall. right. exact Hb. }
    exists (w :: ws). cbn [mapC]. rewrite Hw. cbn [bindC]. rewrite Hws. cbn [bindC].
    repeat split.
    + cbn [forallb]. rewrite Htree, Htrees. reflexivity.
    + cbn [List.length]. rewrite Hlen. reflexivity.
Qed.

Lemma lookupProp_cases (props : list (string * JsValue)) (key : string) :
  lookupProp props key = VUndefined \/ In (key, lookupProp props key) props.
Proof.
  induction props as [| [k v] props IH]; [left; reflexivity |].
  cbn [lookupProp]. destruct (String.eqb k key) eqn:Heq.
  - apply String.eqb_eq in Heq. subst k. right. left. reflexivity.
  - destruct IH as [IH | IH]; [left; exact IH | right; right; exact IH].
Qed.

Lemma lookupIndex_cases (elems : list JsValue) (from : nat) (key : string) :
  lookupIndex elems from key = VUndefined \/ In (lookupIndex elems from key) elems.
Proof.
  revert from. induction elems as [| v elems IH]; intros from; [left; reflexivity |].
  cbn [lookupIndex]. destruct (String.eqb (indexName from) key).
  - right. left. reflexivity.
  - destruct (IH (S from)) as [H | H]; [left; exact H | right; right; exact H].
Qed.

(** What the encoder returns for a value in a field or in an array: an
    array of arrays and scalars and, for a record or an array, a row. *)
Lemma serializeNested_arrayTree (template : Schema) (v : JsValue) :
  exists w, serializeNested (serialize template) v = Normal w /\
            isArrayTree w = true /\
            (typeofObject v = true -> v <> VNull ->
             exists row, w = VArr row /\
               forall key keys, schemaShapeKeys template = Normal (key :: keys) ->
                 List.length row = S (List.length keys)).
Proof.
  destruct (schemaShapeKeys_normal template) as (keys & Hkeys).
  induction v as [| | b | n | s | elems IH | props IH] using JsValue_nested_ind.
  1-5: eexists; split; [reflexivity |]; split; [reflexivity |];
       intros Hobj Hnull; try discriminate; contradiction.
  - cbn [serializeNested]. rewrite serialize_unfold. cbn [typeofObject negb].
    rewrite Hkeys. cbn [bindC].
    destruct keys as [| key keys].
    + cbn [Object_values bindC].
      destruct (mapC_arrayTrees (serializeNested (serialize template)) elems) as (ws & Hws & Htrees & Hlen).
      { intros v Hin. rewrite List.Forall_forall in IH.
        destruct (IH v Hin) as (w & Hw & Htree & _). exists w. auto. }
      rewrite Hws. cbn [bindC]. exists (VArr ws). repeat split; [exact Htrees |].
      intros _ _. exists ws. split; [reflexivity |]. intros k ks Hk. discriminate.
    + destruct (mapC_arrayTrees
                  (fun k => let* v := getProp (VArr elems) k in
                            serializeNested (serialize template) v) (key :: keys))
        as (ws & Hws & Htrees & Hlen).
      { intros k _. cbn [getProp]. destruct (String.eqb k "length").
        - eexists. split; reflexivity.
        - cbn [bindC]. destruct (lookupIndex_cases elems 0%nat k) as [-> | Hin].
          + eexists. split; reflexivity.
          + rewrite List.Forall_forall in IH.
            destruct (IH _ Hin) as (w & Hw & Htree & _). exists w. auto. }
      rewrite Hws. cbn [bindC]. exists (VArr ws). repeat split; [exact Htrees |].
      intros _ _. exists ws. split; [reflexivity |].
      intros k ks [= <- <-]. exact Hlen.
  - cbn [serializeNested]. rewrite serialize_unfold. cbn [typeofObject negb].
    rewrite Hkeys. cbn [bindC].
    destruct keys as [| key keys].
    + cbn [Object_values bindC].
      destruct (mapC_arrayTrees (serializeNested (serialize template)) (List.map snd props))
        as (ws & Hws & Htrees & Hlen).
      { intros v Hin. apply in_map_iff in Hin as (kv & <- & Hin).
        rewrite List.Forall_forall in IH.
        destruct (IH kv Hin) as (w & Hw & Htree & _). exists w. auto. }
      rewrite Hws. cbn [bindC]. exists (VArr ws). repeat split; [exact Htrees |].
      intros _ _. exists ws. split; [reflexivity |]. intros k ks Hk. discriminate.
    + destruct (mapC_arrayTrees
                  (fun k => let* v := getProp (VObj props) k in
                            serializeNested (serialize template) v) (key :: keys))
        as (ws & Hws & Htrees & Hlen).
      { intros k _. cbn [getProp bindC].
        destruct (lookupProp_cases props k) as [-> | Hin].
        - eexists. split; reflexivity.
        - rewrite List.Forall_forall in IH.
          destruct (IH _ Hin) as (w & Hw & Htree & _). exists w. auto. }
      rewrite Hws. cbn [bindC]. exists (VArr ws). repeat split; [exact Htrees |].
      intros _ _. exists ws. split; [reflexivity |].
      intros k ks [= <- <-]. exact Hlen.
Qed.

Lemma serialize_null (template : Schema) : serialize template VNull = Thrown TypeError.
Proof.
  cbn [serialize]. destruct (schemaShapeKeys_normal template) as (keys & ->).
  destruct keys; reflexivity.
Qed.

Lemma serialize_not_null (template : Schema) (payload : JsValue) :
  payload <> VNull ->
  exists w, serialize template payload = Normal w /\ isArrayTree w = true.
Proof.
  intros Hnull.
  destruct (serializeNested_arrayTree template payload) as (w & Hw & Htree & _).
  destruct payload as [| | b | n | s | elems | props].
  - exists VUndefined. split; reflexivity.
  - congruence.
  - exists (VBool b). split; reflexivity.
  - exists (VNum n). split; reflexivity.
  - exists (VStr s). split; reflexivity.
  - exists w. split; assumption.
  - exists w. split; assumption.
Qed.

(** X1: the encoder fails on [null] and on nothing else.  Under every schema,
    [serialize] throws exactly when its payload is [null]; every other
    payload, whether the schema accepts it or not, is encoded. *)
Theorem serialize_throws_on_null_only (template : Schema) (payload : JsValue) :
  (exists e, serialize template payload = Thrown e) <-> payload = VNull.
Proof.
  split.
  - intros (e & He).
    destruct payload as [| | b | n | s | elems | props]; try reflexivity; exfalso;
      match type of He with
      | serialize _ ?v = _ =>
          assert (Hnull : v <> VNull) by discriminate;
          destruct (serialize_not_null template v Hnull) as (w & Hw & _);
          rewrite Hw in He; discriminate
      end.
  - intros ->. exists TypeError. apply serialize_null.
Qed.

(** X2: what the encoder makes of a record or an array.  When the payload
    has type object and [serialize] returns, the result is an array none
    of whose items holds a record at any depth; under an object schema that
    declares a field it has one item for each declared field, whatever
    properties the payload has. *)
Theorem serialize_row_shape (template : Schema) (payload encoded : JsValue) :
  typeofObject payload = true ->
  serialize template payload = Normal encoded ->
  exists row,
    encoded = VArr row /\
    forallb isArrayTree row = true /\
    forall field shape, template = SObject (field :: shape) ->
      List.length row = S (List.length shape).
Proof.
  intros Hobj Hencoded.
  assert (Hnull : payload <> VNull).
  { intros ->. rewrite serialize_null in Hencoded. discriminate. }
  destruct (serializeNested_arrayTree template payload) as (w & Hw & Htree & Hrow).
  destruct (Hrow Hobj Hnull) as (row & -> & Hlen).
  assert (Hsame : serializeNested (serialize template) payload = serialize template payload).
  { destruct payload; try discriminate; try reflexivity; congruence. }
  rewrite Hsame, Hencoded in Hw. injection Hw as ->.
  exists row. split; [reflexivity |]. split; [exact Htree |].
  intros field shape ->.
  rewrite (Hlen (fst field) (List.map fst shape)); [rewrite List.length_map; reflexivity |].
  rewrite schemaShapeKeys_object. reflexivity.
Qed.

Lemma serialize_row_shape_witness :
  exists row,
    VArr [VStr "1"; VUndefined] = VArr row /\
    forallb isArrayTree row = true /\
    forall field shape, schemaA = SObject (field :: shape) ->
      List.length row = S (List.length shape).
Proof.
  apply (serialize_row_shape schemaA (VObj [("userId", VStr "1")]) (VArr [VStr "1"; VUndefined])).
  - reflexivity.
  - reflexivity.
Defined.

(** ** What [set] writes *)

Lemma fullKey_inj (options : ExecutorOptions) (key key' : string) :
  fullKey options key = fullKey options key' -> key = key'.
Proof.
  unfold fullKey. intros Heq. apply append_inj_l in Heq.
  rewrite !append_cons, !append_empty in Heq. injection Heq as Heq. exact Heq.
Qed.

(** The entry that [set] or [setEx] leaves under a key. *)
Lemma set_ready (template : Schema) (options : ExecutorOptions) (key : string)
    (value : JsValue) (c : RedisClient) :
  isReady c 0%nat = true ->
  set template options key value c =
  match (let* payload := serialize template value in jsonStringify payload) with
  | Thrown e => (Rejected e, c)
  | Normal text =>
      (Resolved key,
       match ttl options with
       | Some seconds => Client.setEx (fullKey options key) seconds text c
       | None => Client.set (fullKey options key) text c
       end)
  end.
Proof.
  intros Hready. unfold set. rewrite (afterGate_ready c _ Hready).
  destruct (let* payload := serialize template value in jsonStringify payload);
    [destruct (ttl options) |]; reflexivity.
Qed.

Lemma stored_keyspace (options : ExecutorOptions) (fk text : string) (c : RedisClient) :
  keyspace (match ttl options with
            | Some seconds => Client.setEx fk seconds text c
            | None => Client.set fk text c
            end)
  = <[fk := {| entryValue := text; entryExpiry := ttl options |}]> (keyspace c).
Proof. destruct (ttl options); reflexivity. Qed.

Lemma stored_ready (options : ExecutorOptions) (fk text : string) (c : RedisClient) :
  isReady (match ttl options with
           | Some seconds => Client.setEx fk seconds text c
           | None => Client.set fk text c
           end) = isReady c.
Proof. destruct (ttl options); reflexivity. Qed.

Lemma serialize_defined (template : Schema) (value : JsValue) :
  value <> VNull -> value <> VUndefined ->
  exists encoded, serialize template value = Normal encoded /\
                  isArrayTree encoded = true /\ encoded <> VUndefined.
Proof.
  intros Hnull Hundef.
  destruct (serializeNested_arrayTree template value) as (w & Hw & Htree & Hrow).
  destruct value as [| | b | n | s | elems | props]; try congruence.
  - exists (VBool b). repeat split. discriminate.
  - exists (VNum n). repeat split. discriminate.
  - exists (VStr s). repeat split. discriminate.
  - destruct (Hrow eq_refl Hnull) as (row & -> & _).
    exists (VArr row). repeat split; [exact Hw | exact Htree | discriminate].
  - destruct (Hrow eq_refl Hnull) as (row & -> & _).
    exists (VArr row). repeat split; [exact Hw | exact Htree | discriminate].
Qed.

(** X3: what [set] writes.  Once the gate has let the call through,
    [set(key, value)] for a value other than [null] and [undefined] resolves
    to [key], whether the schema accepts the value or not, and changes the
    key space at one place: the full key, [namespace + key], holds the JSON
    text of the encoding with the [ttl] of the options as its expiry, none
    when the options give none.  [JSON.parse] reads that text: it returns
    the encoding with [null] for its [undefined], [NaN] and infinite items
    and [0] for [-0]. *)
Theorem set_stores_one_entry (template : Schema) (options : ExecutorOptions)
    (key : string) (value : JsValue) (c : RedisClient) :
  gatePromise (waitInitialization c) = Resolved tt ->
  value <> VNull -> value <> VUndefined ->
  exists encoded,
    serialize template value = Normal encoded /\
    fst (set template options key value c) = Resolved key /\
    keyspace (snd (set template options key value c))
    = <[fullKey options key :=
          {| entryValue := stringifyValue encoded; entryExpiry := ttl options |}]> (keyspace c) /\
    (isJsValue encoded = true ->
     Json.parse (stringifyValue encoded) = Normal (readBack encoded)).
Proof.
  intros Hopen Hnull Hundef.
  destruct (serialize_defined template value Hnull Hundef) as (encoded & Hencoded & Htree & Hdef).
  exists encoded. split; [exact Hencoded |].
  unfold set. open_gate Hopen c'. rewrite Hencoded. cbn [bindC].
  assert (Htext : jsonStringify encoded = Normal (stringifyValue encoded)).
  { destruct encoded; try reflexivity. congruence. }
  rewrite Htext.
  match goal with Hks : keyspace c' = keyspace c |- _ => rewrite <- Hks end.
  split; [destruct (ttl options); reflexivity |].
  split; [destruct (ttl options); reflexivity |].
  intros Hjs. apply parse_stringifyValue; assumption.
Qed.

Lemma set_stores_one_entry_witness :
  exists encoded,
    serialize schemaC (VObj [("count", VNum (10 ^ 21)); ("note", VNum NNaN)]) = Normal encoded /\
    fst (set schemaC onceOptions "x" (VObj [("count", VNum (10 ^ 21)); ("note", VNum NNaN)])
           (connectingClient 3))
      = Resolved "x" /\
    keyspace (snd (set schemaC onceOptions "x"
                     (VObj [("count", VNum (10 ^ 21)); ("note", VNum NNaN)])
                     (connectingClient 3)))
    = <[fullKey onceOptions "x" :=
          {| entryValue := stringifyValue encoded; entryExpiry := ttl onceOptions |}]>
        (keyspace (connectingClient 3)) /\
    (isJsValue encoded = true ->
     Json.parse (stringifyValue encoded) = Normal (readBack encoded)).
Proof.
  apply (set_stores_one_entry schemaC onceOptions "x"
           (VObj [("count", VNum (10 ^ 21)); ("note", VNum NNaN)]) (connectingClient 3)).
  - vm_compute. reflexivity.
  - discriminate.
  - discriminate.
Defined.

(** The text stored for a large number and for [NaN], and what is read
    from it. *)
Example set_large_number_example :
  let value := VObj [("count", VNum (10 ^ 21)); ("note", VNum NNaN)] in
  isJsValue value = true /\
  serialize schemaC value = Normal (VArr [VNum (10 ^ 21); VNum NNaN]) /\
  keyspace (snd (set schemaC onceOptions "x" value readyClient))
  = <[fullKey onceOptions "x" :=
        {| entryValue := "[1e+21,null]"; entryExpiry := ttl onceOptions |}]>
      (keyspace readyClient) /\
  Json.parse "[1e+21,null]" = Normal (VArr [VNum (10 ^ 21); VNull]).
Proof. vm_compute. repeat split; reflexivity. Qed.

(** X4: [set(key, null)] is rejected with a [TypeError], under every schema,
    the nullable ones too, and leaves the key space as it was. *)
Theorem set_null_rejected (template : Schema) (options : ExecutorOptions)
    (key : string) (c : RedisClient) :
  gatePromise (waitInitialization c) = Resolved tt ->
  fst (set template options key VNull c) = Rejected TypeError /\
  keyspace (snd (set template options key VNull c)) = keyspace c.
Proof.
  intros Hopen. unfold set. open_gate Hopen c'. rewrite serialize_null. cbn [bindC].
  split; [reflexivity | assumption].
Qed.

Lemma set_null_rejected_witness :
  fst (set schemaA plainOptions "x" VNull readyClient) = Rejected TypeError /\
  keyspace (snd (set schemaA plainOptions "x" VNull readyClient)) = keyspace readyClient.
Proof.
  apply (set_null_rejected schemaA plainOptions "x" readyClient). reflexivity.
Defined.

(** X5: the last write wins.  On a ready client, when [set(key, second)]
    resolves, [set(key, first)] followed by [set(key, second)] leaves the key
    space that [set(key, second)] alone leaves: the text and the expiry of
    the first write are gone, and a first write that was rejected left
    nothing. *)
Theorem set_overwrites (template : Schema) (options : ExecutorOptions)
    (key : string) (first second : JsValue) (c : RedisClient) :
  isReady c 0%nat = true ->
  fst (set template options key second c) = Resolved key ->
  keyspace (snd (set template options key second (snd (set template options key first c))))
  = keyspace (snd (set template options key second c)).
Proof.
  intros Hready Hsecond.
  rewrite (set_ready template options key first c Hready).
  rewrite (set_ready template options key second c Hready) in Hsecond |- *.
  destruct (let* payload := serialize template second in jsonStringify payload)
    as [text2 | e2] eqn:H2; [| discriminate].
  destruct (let* payload := serialize template first in jsonStringify payload)
    as [text1 | e1] eqn:H1; cbn [snd].
  - rewrite set_ready by (rewrite stored_ready; exact Hready).
    rewrite H2. cbn [snd]. rewrite !stored_keyspace. apply insert_insert_eq.
  - rewrite (set_ready template options key second c Hready). rewrite H2. reflexivity.
Qed.

Lemma set_overwrites_witness :
  keyspace (snd (set schemaA plainOptions "x" (VObj [("userId", VStr "2")])
                   (snd (set schemaA plainOptions "x" (VObj [("userId", VStr "1")]) readyClient))))
  = keyspace (snd (set schemaA plainOptions "x" (VObj [("userId", VStr "2")]) readyClient)).
Proof.
  apply (set_overwrites schemaA plainOptions "x" (VObj [("userId", VStr "1")])
           (VObj [("userId", VStr "2")]) readyClient).
  - reflexivity.
  - reflexivity.
Defined.

(** X6: writes under two different keys of one schema do not meet: on a
    ready client the two orders of [set(key1, value1)] and
    [set(key2, value2)] leave the same key space. *)
Theorem set_commutes (template : Schema) (options : ExecutorOptions)
    (key1 key2 : string) (value1 value2 : JsValue) (c : RedisClient) :
  isReady c 0%nat = true ->
  key1 <> key2 ->
  keyspace (snd (set template options key2 value2 (snd (set template options key1 value1 c))))
  = keyspace (snd (set template options key1 value1 (snd (set template options key2 value2 c)))).
Proof.
  intros Hready Hne.
  assert (Hfk : fullKey options key1 <> fullKey options key2).
  { intros Heq. apply Hne. exact (fullKey_inj options key1 key2 Heq). }
  rewrite (set_ready template options key1 value1 c Hready).
  rewrite (set_ready template options key2 value2 c Hready).
  destruct (let* payload := serialize template value1 in jsonStringify payload)
    as [text1 | e1] eqn:H1;
  destruct (let* payload := serialize template value2 in jsonStringify payload)
    as [text2 | e2] eqn:H2; cbn [snd];
    rewrite ?set_ready by (rewrite ?stored_ready; exact Hready);
    rewrite ?H1, ?H2; cbn [snd]; rewrite ?stored_keyspace; try reflexivity.
  apply insert_insert_ne. congruence.
Qed.

Lemma set_commutes_witness :
  keyspace (snd (set schemaA plainOptions "y" (VObj [("userId", VStr "2")])
                   (snd (set schemaA plainOptions "x" (VObj [("userId", VStr "1")]) readyClient))))
  = keyspace (snd (set schemaA plainOptions "x" (VObj [("userId", VStr "1")])
                     (snd (set schemaA plainOptions "y" (VObj [("userId", VStr "2")]) readyClient)))).
Proof.
  apply (set_commutes schemaA plainOptions "x" "y" (VObj [("userId", VStr "1")])
           (VObj [("userId", VStr "2")]) readyClient).
  - reflexivity.
  - discriminate.
Defined.

(** ** Key spaces of namespaces *)

Lemma append_plus_inj (ns ns' rest rest' : string) :
  containsChar "+"%char ns = false ->
  containsChar "+"%char ns' = false ->
  ns +:+ String "+"%char rest = ns' +:+ String "+"%char rest' ->
  ns = ns' /\ rest = rest'.
Proof.
  revert ns'. induction ns as [| ch ns IH]; intros [| ch' ns'] Hns Hns' Heq.
  - rewrite !append_empty in Heq. injection Heq as Heq. auto.
  - rewrite append_empty, append_cons in Heq. injection Heq as Hch _.
    subst ch'. cbn in Hns'. discriminate.
  - rewrite append_empty, append_cons in Heq. injection Heq as Hch _.
    subst ch. cbn in Hns. discriminate.
  - rewrite !append_cons in Heq. injection Heq as Hch Heq. subst ch'.
    cbn [containsChar] in Hns, Hns'.
    apply orb_false_iff in Hns as [_ Hns]. apply orb_false_iff in Hns' as [_ Hns'].
    destruct (IH ns' Hns Hns' Heq) as [-> ->]. auto.
Qed.

(** Full keys under namespaces without the separator: equal only for the
    same namespace and the same key. *)
Lemma fullKey_plus_inj (options options' : ExecutorOptions) (key key' : string) :
  containsChar "+"%char (namespace options) = false ->
  containsChar "+"%char (namespace options') = false ->
  fullKey options key = fullKey options' key' ->
  namespace options = namespace options' /\ key = key'.
Proof.
  intros Hns Hns' Heq. unfold fullKey in Heq.
  change ("+" +:+ key) with (String "+"%char key) in Heq.
  change ("+" +:+ key') with (String "+"%char key') in Heq.
  exact (append_plus_inj _ _ _ _ Hns Hns' Heq).
Qed.

Lemma fullKey_nested (options options' : ExecutorOptions) (key1 key2 : string) :
  namespace options' = namespace options +:+ "+" +:+ key1 ->
  fullKey options' key2 = fullKey options (key1 +:+ "+" +:+ key2).
Proof.
  intros Hns. unfold fullKey. rewrite Hns. rewrite !append_assoc. reflexivity.
Qed.

Lemma list_ind3 {A : Type} (P : list A -> Prop) :
  P [] -> (forall a, P [a]) -> (forall a b, P [a; b]) ->
  (forall a b c l, P l -> P (a :: b :: c :: l)) ->
  forall l, P l.
Proof.
  intros H0 H1 H2 H3.
  fix self 1. intros [| a [| b [| c l]]].
  - exact H0.
  - apply H1.
  - apply H2.
  - apply H3. apply self.
Qed.



Lemma encode_alphabet (bytes : list Byte.byte) :
  Forall (fun c => In c Base64Url.alphabet) (list_ascii_of_string (Base64Url.encode bytes)).
Proof.
  induction bytes as [| a | a b | a b c bytes IH] using list_ind3;
    cbn [Base64Url.encode list_ascii_of_string];
    repeat (constructor; [apply sextetChar_alphabet |]); try constructor.
  exact IH.
Qed.



(** ** What [get] returns and what it touches *)

Lemma Client_del_keyspace (key : string) (c : RedisClient) :
  keyspace (snd (Client.del key c)) = base.delete key (keyspace c).
Proof.
  unfold Client.del. destruct (keyspace c !! key) eqn:Hkey; cbn [snd keyspace].
  - reflexivity.
  - symmetry. apply delete_id. exact Hkey.
Qed.

Lemma delete_ready (key : string) (c : RedisClient) :
  isReady c 0%nat = true ->
  delete key c = (Resolved (fst (Client.del key c)), snd (Client.del key c)).
Proof.
  intros Hready. unfold delete. rewrite (afterGate_ready c _ Hready).
  destruct (Client.del key c). reflexivity.
Qed.

(** X8: the only record that [get] can remove is the one under [key] as
    given, without the namespace.  Once the gate has let the call through,
    every record under any other key is there after [get(key, force)] as
    before; without [readOnce] the key space is unchanged altogether. *)
Theorem get_touches_bare_key_only (template : Schema) (options : ExecutorOptions)
    (key : string) (force : bool) (c : RedisClient) :
  gatePromise (waitInitialization c) = Resolved tt ->
  (forall other, other <> key ->
     keyspace (snd (get template options key force c)) !! other = keyspace c !! other) /\
  (readOnce options = false ->
     keyspace (snd (get template options key force c)) = keyspace c).
Proof.
  intros Hopen. unfold get. open_gate Hopen c'.
  match goal with Hks : keyspace c' = keyspace c |- _ => rename Hks into Hsame end.
  match goal with Hrd : isReady c' 0%nat = true |- _ => rename Hrd into Hready end.
  rewrite <- Hsame.
  destruct (replyTruthy (Client.get (fullKey options key) c')); cbn [negb snd].
  - split.
    + intros other Hne. destruct (readOnce options); [| reflexivity].
      rewrite (delete_ready key c' Hready). cbn [snd].
      rewrite Client_del_keyspace. apply lookup_delete_ne. congruence.
    + intros ->. reflexivity.
  - destruct force; cbn [snd]; auto.
Qed.

Lemma get_touches_bare_key_only_witness :
  (forall other, other <> "x" ->
     keyspace (snd (get schemaA onceOptions "x" false twoRecordsClient)) !! other
     = keyspace twoRecordsClient !! other) /\
  (readOnce onceOptions = false ->
     keyspace (snd (get schemaA onceOptions "x" false twoRecordsClient))
     = keyspace twoRecordsClient).
Proof.
  apply (get_touches_bare_key_only schemaA onceOptions "x" false twoRecordsClient).
  reflexivity.
Defined.

Lemma fromCompressedArrayFrom_object (arr : list JsValue) (shape : list (string * Schema))
    (idx : nat) (result : list (string * JsValue)) (v : JsValue) :
  fromCompressedArrayFrom arr shape idx result = Normal v -> exists props, v = VObj props.
Proof.
  revert idx result. induction shape as [| [key propSchema] shape IH]; intros idx result.
  - cbn [fromCompressedArrayFrom]. intros [= <-]. eauto.
  - cbn [fromCompressedArrayFrom].
    destruct (instanceofObjectSchema propSchema); cbn [fromCompressedArrayOfShape bindC].
    + discriminate.
    + apply IH.
Qed.

Lemma parse_throws_syntax (text : string) (e : JsError) :
  Json.parse text = Thrown e -> e = SyntaxError.
Proof.
  unfold Json.parse. destruct (parseValue (S (String.length text)) text) as [[v rest] |].
  - destruct (skipWhitespace rest); [discriminate | intros [= <-]; reflexivity].
  - intros [= <-]. reflexivity.
Qed.

(** What the decoder returns: null, or a valid array or record. *)
Lemma sealJsonParser_valid (text : string) (schema : Schema) (v : JsValue) :
  sealJsonParser text schema = Normal v ->
  v = VNull \/ (validate schema v = [] /\ truthy v = true /\ typeofObject v = true).
Proof.
  unfold sealJsonParser. destruct (Json.parse text) as [parsed | e]; [| discriminate].
  cbn [bindC]. destruct parsed as [| | | | | elems |]; try discriminate.
  destruct schema as [kind | inner | item | shape].
  1-3: match goal with
       | |- context [validate ?s ?x] =>
           destruct (validate s x) eqn:Hvalid; intros [= <-]; [right | left]; auto
       end.
  destruct (fromCompressedArray elems shape) as [obj | e] eqn:Hobj; [| discriminate].
  cbn [bindC].
  destruct (fromCompressedArrayFrom_object _ _ _ _ _ Hobj) as (props & ->).
  destruct (validate (SObject shape) (VObj props)) eqn:Hvalid; intros [= <-];
    [right | left]; auto.
Qed.

Lemma sealJsonParser_throws (text : string) (schema : Schema) :
  (forall elems, Json.parse text <> Normal (VArr elems)) ->
  sealJsonParser text schema = Thrown SyntaxError \/
  sealJsonParser text schema = Thrown InputNotArray.
Proof.
  intros Hnot. unfold sealJsonParser.
  destruct (Json.parse text) as [parsed | e] eqn:Hparse.
  - right. cbn [bindC]. destruct parsed; try reflexivity. exfalso. exact (Hnot _ eq_refl).
  - left. rewrite (parse_throws_syntax text e Hparse). reflexivity.
Qed.

Lemma get_resolved_inv (template : Schema) (options : ExecutorOptions) (key : string)
    (force : bool) (c : RedisClient) (v : JsValue) :
  fst (get template options key force c) = Resolved v ->
  v = VNull \/
  exists text, sealJsonParser text template = Normal v.
Proof.
  unfold get, afterGate.
  assert (Hbody : forall c0,
    fst (let rawValue := Client.get (fullKey options key) c0 in
         if negb (replyTruthy rawValue)
         then if force then (Rejected (KeyNotFound key), c0) else (Resolved VNull, c0)
         else (settle (sealJsonParser (replyText rawValue) template),
               if readOnce options then snd (delete key c0) else c0)) = Resolved v ->
    v = VNull \/ exists text, sealJsonParser text template = Normal v).
  { intros c0. cbn zeta.
    destruct (negb (replyTruthy (Client.get (fullKey options key) c0))).
    - destruct force; cbn [fst]; [discriminate | intros [= <-]; left; reflexivity].
    - cbn [fst].
      destruct (sealJsonParser (replyText (Client.get (fullKey options key) c0)) template)
        as [w | e] eqn:Hw; cbn [settle]; [| discriminate].
      intros [= <-]. right. eauto. }
  destruct (waitInitialization c) as [| a | k |]; cbn [gatePromise]; try discriminate;
    apply Hbody.
Qed.

(** X9: whatever the store holds, the value to which [get] resolves is
    [null] or a record or array that the template accepts: no text in the
    store makes [get] resolve to a boolean, a number, a string or a value
    that the template refuses. *)
Theorem get_result_valid (template : Schema) (options : ExecutorOptions) (key : string)
    (force : bool) (c : RedisClient) (v : JsValue) :
  fst (get template options key force c) = Resolved v ->
  v = VNull \/ (validate template v = [] /\ truthy v = true /\ typeofObject v = true).
Proof.
  intros Hget. destruct (get_resolved_inv _ _ _ _ _ _ Hget) as [-> | (text & Htext)].
  - left. reflexivity.
  - exact (sealJsonParser_valid text template v Htext).
Qed.

Lemma get_result_valid_witness :
  VObj [("count", VNum 7); ("note", VNull)] = VNull \/
  (validate schemaC (VObj [("count", VNum 7); ("note", VNull)]) = [] /\
   truthy (VObj [("count", VNum 7); ("note", VNull)]) = true /\
   typeofObject (VObj [("count", VNum 7); ("note", VNull)]) = true).
Proof.
  apply (get_result_valid schemaC plainOptions "x" false invalidRecordClient).
  vm_compute. reflexivity.
Defined.

(** X10: a record whose text is not the text of a JSON array is not read as
    absent.  When the store answers with a non-empty text or a Buffer that
    [JSON.parse] does not read as an array, [get] is rejected, with
    [SyntaxError] or with the error of [sealJsonParser], also when [force]
    is off. *)
Theorem get_rejects_malformed (template : Schema) (options : ExecutorOptions)
    (key : string) (force : bool) (c : RedisClient) :
  gatePromise (waitInitialization c) = Resolved tt ->
  replyTruthy (Client.get (fullKey options key) c) = true ->
  (forall elems,
     Json.parse (replyText (Client.get (fullKey options key) c)) <> Normal (VArr elems)) ->
  fst (get template options key force c) = Rejected SyntaxError \/
  fst (get template options key force c) = Rejected InputNotArray.
Proof.
  intros Hopen Htruthy Hnot.
  rewrite (get_truthy_reply template options key force c Hopen Htruthy).
  destruct (sealJsonParser_throws _ template Hnot) as [-> | ->]; auto.
Qed.

Lemma get_rejects_malformed_witness :
  fst (get schemaA plainOptions "x" false bareNumberClient) = Rejected SyntaxError \/
  fst (get schemaA plainOptions "x" false bareNumberClient) = Rejected InputNotArray.
Proof.
  apply (get_rejects_malformed schemaA plainOptions "x" false bareNumberClient).
  - reflexivity.
  - reflexivity.
  - intros elems. vm_compute. discriminate.
Defined.

(** A text with an exponent and a fraction is the text of an array: [get]
    resolves to the record. *)
Example get_exponent_text_example :
  Json.parse "[1e2,null]" = Normal (VArr [VNum 100; VNull]) /\
  Json.parse "[-2.50E-1,null]" = Normal (VArr [VNum (NFrac (-25) 2); VNull]) /\
  fst (get schemaC plainOptions "x" false exponentRowClient)
  = Resolved (VObj [("count", VNum 100); ("note", VNull)]).
Proof. vm_compute. repeat split; reflexivity. Qed.

(** An escape and the character itself are read as the same string, the
    bytes of its UTF-8 text; the two escapes of a pair make one character
    of four bytes; a surrogate alone is written as an escape again. *)
Example parse_unicode_escape_example :
  let text body := "[" +:+ String dquote (body +:+ String dquote "]") in
  let bytes codes := string_of_list_ascii (List.map charOf codes) in
  Json.parse (text "\u00e9") = Normal (VArr [VStr (bytes [195; 169])]) /\
  Json.parse (text (bytes [195; 169])) = Normal (VArr [VStr (bytes [195; 169])]) /\
  Json.parse (text "\ud83d\ude00") = Normal (VArr [VStr (bytes [240; 159; 152; 128])]) /\
  Json.parse (text "\ud83d") = Normal (VArr [VStr (bytes [237; 160; 189])]) /\
  stringifyValue (VArr [VStr (bytes [237; 160; 189])]) = text "\ud83d" /\
  stringifyValue (VArr [VStr (bytes [195; 169])]) = text (bytes [195; 169]).
Proof. vm_compute. repeat split; reflexivity. Qed.

(** X11: on a client that answers with Buffers the empty record is not
    absent: an empty Buffer is truthy, its text is handed to [JSON.parse],
    and [get] is rejected with [SyntaxError], also when [force] is off. *)
Theorem get_empty_buffer_rejected (template : Schema) (options : ExecutorOptions)
    (key : string) (force : bool) (expiry : option Z) (c : RedisClient) :
  gatePromise (waitInitialization c) = Resolved tt ->
  returnBuffers c = true ->
  keyspace c !! fullKey options key
    = Some {| entryValue := EmptyString; entryExpiry := expiry |} ->
  fst (get template options key force c) = Rejected SyntaxError.
Proof.
  intros Hopen Hbuffers Hempty.
  assert (Hreply : Client.get (fullKey options key) c = ReplyBuffer EmptyString).
  { unfold Client.get. rewrite Hempty, Hbuffers. reflexivity. }
  rewrite (get_truthy_reply template options key force c Hopen) by (rewrite Hreply; reflexivity).
  rewrite Hreply. reflexivity.
Qed.

Lemma get_empty_buffer_rejected_witness :
  fst (get schemaA plainOptions "x" false emptyBufferClient) = Rejected SyntaxError.
Proof.
  apply (get_empty_buffer_rejected schemaA plainOptions "x" false None emptyBufferClient).
  - reflexivity.
  - reflexivity.
  - reflexivity.
Defined.

(** X12: [with(key, callback)] is [get(key)] followed by the callback.  The
    callback runs exactly when [get] resolves to a value other than [null],
    and is handed that value; [with] resolves to what the callback returns
    and is rejected with what it throws; it resolves to [null] without
    running the callback when [get] resolves to [null]; it is rejected or
    left pending as [get] is.  Its effect on the client is that of [get]. *)
Theorem with_runs_callback_unless_null (template : Schema) (options : ExecutorOptions)
    {R : Type} (key : string) (callback : JsValue -> Completion R) (c : RedisClient) :
  fst (with_ template options key callback c)
  = match fst (get template options key false c) with
    | Resolved VNull => Resolved None
    | Resolved value => settle (let* result := callback value in Normal (Some result))
    | Rejected e => Rejected e
    | Pending => Pending
    end /\
  snd (with_ template options key callback c) = snd (get template options key false c).
Proof.
  unfold with_.
  pose proof (get_resolved_inv template options key false c) as Hinv.
  destruct (get template options key false c) as [[v | e |] c']; cbn [fst snd] in *.
  - destruct (Hinv v eq_refl) as [-> | (text & Htext)]; [split; reflexivity |].
    destruct (sealJsonParser_valid text template v Htext) as [-> | (_ & Htruthy & _)];
      [split; reflexivity |].
    rewrite Htruthy. destruct v; try discriminate; split; reflexivity.
  - split; reflexivity.
  - split; reflexivity.
Qed.

(** X13: [delete(key)] on a ready client removes the record under [key] as
    given, without the namespace, and no other; it resolves to 1 when there
    was one and to 0 when there was none; a second [delete(key)] resolves
    to 0. *)
Theorem delete_removes_its_argument (key : string) (c : RedisClient) :
  isReady c 0%nat = true ->
  fst (delete key c) = Resolved (match keyspace c !! key with Some _ => 1 | None => 0 end) /\
  keyspace (snd (delete key c)) = base.delete key (keyspace c) /\
  fst (delete key (snd (delete key c))) = Resolved 0.
Proof.
  intros Hready. rewrite (delete_ready key c Hready). cbn [fst snd].
  assert (Hready' : isReady (snd (Client.del key c)) 0%nat = true).
  { unfold Client.del. destruct (keyspace c !! key); exact Hready. }
  rewrite (delete_ready key _ Hready'). cbn [fst].
  split; [| split].
  - unfold Client.del. destruct (keyspace c !! key); reflexivity.
  - apply Client_del_keyspace.
  - unfold Client.del at 1.
    rewrite Client_del_keyspace, lookup_delete_eq. reflexivity.
Qed.

Lemma delete_removes_its_argument_witness :
  fst (delete "x" twoRecordsClient)
  = Resolved (match keyspace twoRecordsClient !! "x" with Some _ => 1 | None => 0 end) /\
  keyspace (snd (delete "x" twoRecordsClient)) = base.delete "x" (keyspace twoRecordsClient) /\
  fst (delete "x" (snd (delete "x" twoRecordsClient))) = Resolved 0.
Proof.
  apply (delete_removes_its_argument "x" twoRecordsClient). reflexivity.
Defined.

(** ** The gate on every client *)

Lemma first_ready (p : nat -> bool) (n : nat) :
  (forall k, (k <= n)%nat -> p k = false) \/
  exists k, (k <= n)%nat /\ p k = true /\ forall j, (j < k)%nat -> p j = false.
Proof.
  induction n as [| n IH].
  - destruct (p 0%nat) eqn:H0.
    + right. exists 0%nat. split; [lia |]. split; [exact H0 |]. intros j Hj. lia.
    + left. intros k Hk. replace k with 0%nat by lia. exact H0.
  - destruct IH as [Hnone | (k & Hk & Hready & Hbefore)].
    + destruct (p (S n)) eqn:HS.
      * right. exists (S n). split; [lia |]. split; [exact HS |].
        intros j Hj. apply Hnone. lia.
      * left. intros k Hk. destruct (Nat.eq_dec k (S n)) as [-> | Hne]; [exact HS |].
        apply Hnone. lia.
    + right. exists k. split; [lia |]. auto.
Qed.

(** The three ways in which the gate ends. *)
Lemma waitInitialization_cases (c : RedisClient) :
  (isReady c 0%nat = true /\ waitInitialization c = GateReady) \/
  (exists k, (0 < k <= maxAttempts)%nat /\ isReady c k = true /\
             (forall j, (j < k)%nat -> isReady c j = false) /\
             waitInitialization c = GateResolved k) \/
  ((forall k, (k <= maxAttempts)%nat -> isReady c k = false) /\
   waitInitialization c = GateTimedOut).
Proof.
  destruct (first_ready (isReady c) maxAttempts) as [Hnone | (k & Hk & Hready & Hbefore)].
  - right. right. split; [exact Hnone |]. apply waitInitialization_times_out. exact Hnone.
  - destruct k as [| k].
    + left. split; [exact Hready |]. apply waitInitialization_ready. exact Hready.
    + right. left. exists (S k). split; [lia |]. split; [exact Hready |].
      split; [exact Hbefore |].
      apply waitInitialization_resolves; [lia | exact Hready | exact Hbefore].
Qed.

(** X14: how the gate ends, for every client.  The promise of
    [waitInitialization] is resolved exactly when the client is ready at the
    call or at one of the 300 polls that follow; the timeout error is thrown
    exactly when it is ready at none of them; the interval is never left
    running; the promise is never rejected; and the gate takes at most
    30100 ms. *)
Theorem waitInitialization_outcome (c : RedisClient) :
  (gatePromise (waitInitialization c) = Resolved tt <->
   exists k, (k <= maxAttempts)%nat /\ isReady c k = true) /\
  (gateUncaught (waitInitialization c) = Some InitializationTimeout <->
   forall k, (k <= maxAttempts)%nat -> isReady c k = false) /\
  (forall attempt, waitInitialization c <> GatePolling attempt) /\
  (forall e, gatePromise (waitInitialization c) <> Rejected e) /\
  0 <= gateMilliseconds (waitInitialization c) <= 30100.
Proof.
  destruct (waitInitialization_cases c)
    as [(Hready & ->) | [(k & Hk & Hready & Hbefore & ->) | (Hnone & ->)]].
  - split; [| split; [| split; [| split]]].
    + split; [| reflexivity]. intros _. exists 0%nat. split; [lia | exact Hready].
    + split; [discriminate |]. intros Hnone. rewrite Hnone in Hready by lia. discriminate.
    + discriminate.
    + discriminate.
    + unfold gateMilliseconds, pollPeriod, gateTicks. lia.
  - split; [| split; [| split; [| split]]].
    + split; [| reflexivity]. intros _. exists k. split; [lia | exact Hready].
    + split; [discriminate |]. intros Hnone. rewrite Hnone in Hready by lia. discriminate.
    + discriminate.
    + discriminate.
    + unfold gateMilliseconds, pollPeriod, gateTicks. unfold maxAttempts in Hk. lia.
  - split; [| split; [| split; [| split]]].
    + split; [discriminate |]. intros (k & Hk & Hready). rewrite Hnone in Hready by exact Hk.
      discriminate.
    + split; [intros _; exact Hnone | reflexivity].
    + discriminate.
    + discriminate.
    + unfold gateMilliseconds, pollPeriod, gateTicks, maxAttempts. lia.
Qed.

(** X15: a client that is ready neither at the call nor at any of the 300
    polls leaves [set], [get] and [delete] pending for good, with the key
    space untouched, also when the client becomes ready later: the timeout
    does not reject them. *)
Theorem operations_pending_after_timeout (template : Schema) (options : ExecutorOptions)
    (key : string) (value : JsValue) (force : bool) (c : RedisClient) :
  (forall k, (k <= maxAttempts)%nat -> isReady c k = false) ->
  (fst (set template options key value c) = Pending /\
   keyspace (snd (set template options key value c)) = keyspace c) /\
  (fst (get template options key force c) = Pending /\
   keyspace (snd (get template options key force c)) = keyspace c) /\
  (fst (delete key c) = Pending /\
   keyspace (snd (delete key c)) = keyspace c).
Proof.
  intros Hnone.
  destruct (waitInitialization_times_out c Hnone) as (Hgate & _).
  unfold set, get, delete, afterGate. rewrite Hgate. cbn [gatePromise fst snd].
  repeat split; reflexivity.
Qed.

Lemma operations_pending_after_timeout_witness :
  (fst (set schemaA plainOptions "x" (VObj [("userId", VStr "1")]) (connectingClient 301))
     = Pending /\
   keyspace (snd (set schemaA plainOptions "x" (VObj [("userId", VStr "1")])
                    (connectingClient 301))) = keyspace (connectingClient 301)) /\
  (fst (get schemaA plainOptions "x" true (connectingClient 301)) = Pending /\
   keyspace (snd (get schemaA plainOptions "x" true (connectingClient 301)))
     = keyspace (connectingClient 301)) /\
  (fst (delete "x" (connectingClient 301)) = Pending /\
   keyspace (snd (delete "x" (connectingClient 301))) = keyspace (connectingClient 301)).
Proof.
  apply (operations_pending_after_timeout schemaA plainOptions "x"
           (VObj [("userId", VStr "1")]) true (connectingClient 301)).
  intros k Hk. cbn [connectingClient isReady]. apply Nat.leb_gt. unfold maxAttempts in Hk. lia.
Defined.

(** ** The decoder on every row *)

Lemma decodedFields_keys (arr : list JsValue) (idx : nat) (shape : list (string * Schema)) :
  List.map fst (decodedFields arr idx shape) = List.map fst shape.
Proof.
  revert idx. induction shape as [| [key propSchema] shape IH]; intros idx; [reflexivity |].
  cbn [decodedFields List.map fst]. rewrite IH. reflexivity.
Qed.

Lemma fromCompressedArrayFrom_fields (arr : list JsValue) (shape : list (string * Schema))
    (idx : nat) (result : list (string * JsValue)) :
  List.NoDup (List.map fst result ++ List.map fst shape) ->
  (forall field, In field shape -> instanceofObjectSchema (snd field) = false) ->
  fromCompressedArrayFrom arr shape idx result
  = Normal (VObj (result ++ decodedFields arr idx shape)).
Proof.
  revert idx result. induction shape as [| [key propSchema] shape IH]; intros idx result Hnd Hflat.
  - cbn [fromCompressedArrayFrom decodedFields]. rewrite List.app_nil_r. reflexivity.
  - cbn [fromCompressedArrayFrom decodedFields].
    pose proof (Hflat (key, propSchema) (or_introl eq_refl)) as Hfield. cbn [snd] in Hfield.
    rewrite Hfield. cbn [bindC].
    cbn [List.map fst] in Hnd.
    assert (Hfresh : ~ In key (List.map fst result)).
    { apply List.NoDup_remove_2 in Hnd. intros Hin. apply Hnd. apply in_or_app. left. exact Hin. }
    rewrite (setProp_fresh _ _ _ Hfresh).
    rewrite IH.
    + rewrite <- List.app_assoc. reflexivity.
    + rewrite List.map_app. cbn [List.map fst]. rewrite <- List.app_assoc. exact Hnd.
    + intros field Hin. apply Hflat. right. exact Hin.
Qed.

(** X16: the decoder in closed form.  Under a shape of distinct field names
    none of which is declared by an object schema, [fromCompressedArray]
    returns the record that holds, under the i-th declared field, the i-th
    item of the array, and [undefined] where the array ends before; the
    record has the declared fields in their order.  Items beyond the declared
    fields are ignored, and an array that is too short reads as one padded
    with [undefined]. *)
Theorem fromCompressedArray_fields (arr : list JsValue) (shape : list (string * Schema)) :
  List.NoDup (List.map fst shape) ->
  (forall field, In field shape -> instanceofObjectSchema (snd field) = false) ->
  fromCompressedArray arr shape = Normal (VObj (decodedFields arr 0 shape)) /\
  List.map fst (decodedFields arr 0 shape) = List.map fst shape /\
  (forall surplus, (List.length shape <= List.length arr)%nat ->
     fromCompressedArray (arr ++ surplus) shape = fromCompressedArray arr shape) /\
  (forall n, fromCompressedArray (arr ++ repeat VUndefined n) shape
             = fromCompressedArray arr shape).
Proof.
  intros Hnd Hflat.
  assert (Hclosed : forall row, fromCompressedArray row shape
                                = Normal (VObj (decodedFields row 0 shape))).
  { intros row. unfold fromCompressedArray.
    rewrite fromCompressedArrayFrom_fields by assumption. reflexivity. }
  assert (Hagree : forall row row' fields idx,
            (forall i, (idx <= i < idx + List.length fields)%nat ->
                       nth i row VUndefined = nth i row' VUndefined) ->
            decodedFields row idx fields = decodedFields row' idx fields).
  { intros row row' fields. induction fields as [| [key propSchema] fields IH]; intros idx Hsame;
      [reflexivity |].
    cbn [decodedFields]. cbn [List.length] in Hsame.
    rewrite (Hsame idx) by lia. rewrite (IH (S idx)); [reflexivity |].
    intros i Hi. apply Hsame. lia. }
  split; [apply Hclosed |]. split; [apply decodedFields_keys |]. split.
  - intros surplus Hlen. rewrite !Hclosed. do 2 f_equal.
    apply Hagree. intros i Hi. apply List.app_nth1. lia.
  - intros n. rewrite !Hclosed. do 2 f_equal.
    apply Hagree. intros i Hi.
    destruct (Nat.lt_ge_cases i (List.length arr)) as [Hlt | Hge].
    + apply List.app_nth1. exact Hlt.
    + rewrite List.app_nth2 by exact Hge. rewrite (nth_overflow arr) by exact Hge.
      destruct (Nat.lt_ge_cases (i - List.length arr) n) as [Hin | Hout].
      * apply nth_repeat_lt. exact Hin.
      * apply nth_overflow. rewrite List.repeat_length. exact Hout.
Qed.

Lemma fromCompressedArray_fields_witness :
  fromCompressedArray [VStr "1"] (shapeOf schemaA)
  = Normal (VObj (decodedFields [VStr "1"] 0 (shapeOf schemaA))) /\
  List.map fst (decodedFields [VStr "1"] 0 (shapeOf schemaA)) = List.map fst (shapeOf schemaA) /\
  (forall surplus, (List.length (shapeOf schemaA) <= List.length [VStr "1"])%nat ->
     fromCompressedArray ([VStr "1"] ++ surplus) (shapeOf schemaA)
     = fromCompressedArray [VStr "1"] (shapeOf schemaA)) /\
  (forall n, fromCompressedArray ([VStr "1"] ++ repeat VUndefined n) (shapeOf schemaA)
             = fromCompressedArray [VStr "1"] (shapeOf schemaA)).
Proof.
  apply (fromCompressedArray_fields [VStr "1"] (shapeOf schemaA)).
  - constructor; [| constructor; [| constructor]]; simpl; intuition discriminate.
  - intros field [<- | [<- | []]]; reflexivity.
Defined.

(** ** Reading back what [set] wrote *)

(** [get] at the full key at which [set] wrote: the decoding, under the
    schema of the reader, of the text of the encoding. *)
Lemma get_reads_set_text (template template' : Schema) (options options' : ExecutorOptions)
    (key key' : string) (value encoded : JsValue) (force : bool) (c : RedisClient) :
  isReady c 0%nat = true ->
  returnBuffers c = false ->
  serialize template value = Normal encoded ->
  encoded <> VUndefined ->
  fullKey options' key' = fullKey options key ->
  fst (get template' options' key' force (snd (set template options key value c)))
  = settle (sealJsonParser (stringifyValue encoded) template').
Proof.
  intros Hready Htext Hencoded Hdefined Hsame.
  rewrite (set_ready template options key value c Hready). rewrite Hencoded. cbn [bindC].
  assert (Hjson : jsonStringify encoded = Normal (stringifyValue encoded)).
  { destruct encoded; try reflexivity. congruence. }
  rewrite Hjson. cbn [snd].
  set (c' := match ttl options with
             | Some seconds => Client.setEx _ _ _ c
             | None => Client.set _ _ c
             end).
  assert (Hready' : isReady c' 0%nat = true).
  { unfold c'. rewrite stored_ready. exact Hready. }
  assert (Hopen : gatePromise (waitInitialization c') = Resolved tt).
  { rewrite (waitInitialization_ready c' Hready'). reflexivity. }
  assert (Hreply : Client.get (fullKey options' key') c' = ReplyString (stringifyValue encoded)).
  { unfold Client.get. unfold c'. rewrite Hsame, stored_keyspace, lookup_insert_eq.
    cbn [entryValue]. destruct (ttl options); cbn [returnBuffers Client.setEx Client.set];
      rewrite Htext; reflexivity. }
  rewrite (get_truthy_reply template' options' key' force c' Hopen).
  - rewrite Hreply. reflexivity.
  - rewrite Hreply. cbn [replyTruthy].
    destruct (stringifyValue encoded) eqn:Hs; [| reflexivity].
    exfalso. exact (stringifyValue_nonempty encoded Hs).
Qed.

Lemma rowOf_arrayTree (props : list (string * JsValue)) (keys : list string) :
  Forall (fun kv => isScalar (snd kv) = true) props ->
  isArrayTree (VArr (rowOf props keys)) = true /\
  readBack (VArr (rowOf props keys))
  = VArr (List.map (fun key => readBack (lookupProp props key)) keys).
Proof.
  intros Hscalars. split.
  - cbn [isArrayTree]. apply forallb_forall. intros v Hin.
    apply in_map_iff in Hin as (key & <- & _).
    destruct (lookupProp_scalar props key Hscalars) as [-> | Hs]; [reflexivity |].
    destruct (lookupProp props key); try discriminate; reflexivity.
  - cbn [readBack]. unfold rowOf. rewrite List.map_map. reflexivity.
Qed.

Lemma rowOf_isJsValue (props : list (string * JsValue)) (keys : list string) :
  Forall (fun kv => isJsValue (snd kv) = true) props ->
  isJsValue (VArr (rowOf props keys)) = true.
Proof.
  intros Hjs. cbn [isJsValue]. apply forallb_forall. intros v Hin.
  apply in_map_iff in Hin as (key & <- & _).
  destruct (lookupProp_cases props key) as [-> | Hin]; [reflexivity |].
  rewrite List.Forall_forall in Hjs. exact (Hjs _ Hin).
Qed.

Lemma values_isJsValue (props : list (string * JsValue)) :
  Forall (fun kv => isJsValue (snd kv) = true) props ->
  isJsValue (VArr (List.map snd props)) = true.
Proof.
  intros Hjs. cbn [isJsValue]. apply forallb_forall. intros v Hin.
  apply in_map_iff in Hin as (kv & <- & Hin).
  rewrite List.Forall_forall in Hjs. exact (Hjs _ Hin).
Qed.

Lemma values_arrayTree (props : list (string * JsValue)) :
  Forall (fun kv => isScalar (snd kv) = true) props ->
  serialize (SObject []) (VObj props) = Normal (VArr (List.map snd props)) /\
  isArrayTree (VArr (List.map snd props)) = true.
Proof.
  intros Hscalars. split.
  - rewrite serialize_unfold. cbn [typeofObject negb].
    rewrite schemaShapeKeys_object. cbn [List.map bindC Object_values].
    rewrite (mapC_normal _ (fun v => v)).
    + rewrite List.map_id. reflexivity.
    + intros v Hin. apply serializeNested_scalar.
      apply in_map_iff in Hin as (kv & <- & Hin).
      rewrite List.Forall_forall in Hscalars. exact (Hscalars kv Hin).
  - cbn [isArrayTree]. apply forallb_forall. intros v Hin.
    apply in_map_iff in Hin as (kv & <- & Hin).
    rewrite List.Forall_forall in Hscalars. specialize (Hscalars kv Hin).
    destruct (snd kv); try discriminate; reflexivity.
Qed.

(** X17: what [get] returns after [set], for every record of scalars, valid
    or not.  Under an object schema of distinct field names none of which is
    declared by an object schema, on a ready client that answers with
    strings, [get] after [set] resolves to the record of the declared
    fields, each with the value that the written record had as [JSON.parse]
    reads it back, [null] where it had none, [undefined], [NaN] or an
    infinity and [0] where it had [-0], when the template accepts that
    record, and to [null] when it does not.  The properties that the schema
    does not declare are dropped; [set] writes what the template refuses,
    [get] does not return it. *)
Theorem get_after_set_record (shape : list (string * Schema)) (options : ExecutorOptions)
    (key : string) (props : list (string * JsValue)) (force : bool) (c : RedisClient) :
  isReady c 0%nat = true ->
  returnBuffers c = false ->
  List.NoDup (List.map fst shape) ->
  (forall field, In field shape -> instanceofObjectSchema (snd field) = false) ->
  Forall (fun kv => isScalar (snd kv) = true) props ->
  Forall (fun kv => isJsValue (snd kv) = true) props ->
  let decoded := VObj (rebuilt (fun name => readBack (lookupProp props name)) shape) in
  fst (get (SObject shape) options key force
         (snd (set (SObject shape) options key (VObj props) c)))
  = Resolved (match validate (SObject shape) decoded with
              | [] => decoded
              | _ :: _ => VNull
              end).
Proof.
  intros Hready Htext Hnd Hflat Hscalars Hjs decoded.
  destruct shape as [| field shape].
  - destruct (values_arrayTree props Hscalars) as (Hencoded & Htree).
    rewrite (get_reads_set_text _ _ options options key key _ _ force c Hready Htext Hencoded)
      by (discriminate || reflexivity).
    unfold sealJsonParser.
    rewrite (parse_stringifyValue _ (values_isJsValue props Hjs)). reflexivity.
  - assert (Hencoded : serialize (SObject (field :: shape)) (VObj props)
                       = Normal (VArr (rowOf props (List.map fst (field :: shape))))).
    { apply serialize_row; [discriminate | exact Hscalars]. }
    destruct (rowOf_arrayTree props (List.map fst (field :: shape)) Hscalars) as (Htree & Hback).
    rewrite (get_reads_set_text _ _ options options key key _ _ force c Hready Htext Hencoded)
      by (discriminate || reflexivity).
    unfold sealJsonParser.
    rewrite (parse_stringifyValue _ (rowOf_isJsValue props _ Hjs)), Hback. cbn [bindC].
    rewrite (fromCompressedArray_row _ _ Hnd Hflat). cbn [bindC].
    fold decoded. destruct (validate (SObject (field :: shape)) decoded); reflexivity.
Qed.

Lemma get_after_set_record_witness :
  fst (get schemaC plainOptions "x" false
         (snd (set schemaC plainOptions "x"
                 (VObj [("extra", VNum 1); ("note", VNum NNaN); ("count", VNum NNegZero)])
                 readyClient)))
  = Resolved (VObj [("count", VNum 0); ("note", VNull)]).
Proof.
  apply (get_after_set_record
           [("count", SPrimitive PNumber); ("note", SNullable (SPrimitive PString))]
           plainOptions "x"
           [("extra", VNum 1); ("note", VNum NNaN); ("count", VNum NNegZero)]
           false readyClient).
  - reflexivity.
  - reflexivity.
  - constructor; [| constructor; [| constructor]]; simpl; intuition discriminate.
  - intros field [<- | [<- | []]]; reflexivity.
  - repeat constructor.
  - repeat constructor.
Defined.

(** A written [NaN] under a nullable number field is read back as [null],
    and the record is returned; under a number field that is not nullable
    [get] resolves to [null]. *)
Example get_after_set_not_a_number_example :
  fst (get schemaD plainOptions "x" false
         (snd (set schemaD plainOptions "x" (VObj [("score", VNum NNaN)]) readyClient)))
  = Resolved (VObj [("score", VNull)]) /\
  fst (get schemaD plainOptions "x" false
         (snd (set schemaD plainOptions "x" (VObj [("score", VNum (NInfinity true))])
                 readyClient)))
  = Resolved (VObj [("score", VNull)]) /\
  fst (get schemaC plainOptions "x" false
         (snd (set schemaC plainOptions "x" (VObj [("count", VNum NNaN); ("note", VNull)])
                 readyClient)))
  = Resolved VNull.
Proof. vm_compute. repeat split; reflexivity. Qed.

(** X18: [get] under an object schema that declares a field by an object
    schema is rejected with a [TypeError] whenever the store holds the text
    of a JSON array, whatever the array and also when [force] is off: the
    nested call of [fromCompressedArray] is handed the shape of the field
    and reads [__$shape] of it (no nested field being named [__$shape]). *)
Theorem get_nested_schema_rejected (shape : list (string * Schema))
    (options : ExecutorOptions) (key : string) (force : bool) (c : RedisClient)
    (elems : list JsValue) :
  gatePromise (waitInitialization c) = Resolved tt ->
  replyTruthy (Client.get (fullKey options key) c) = true ->
  Json.parse (replyText (Client.get (fullKey options key) c)) = Normal (VArr elems) ->
  existsb (fun field => instanceofObjectSchema (snd field)) shape = true ->
  (forall field nested, In field shape -> In nested (shapeOf (snd field)) ->
     fst nested <> "__$shape") ->
  fst (get (SObject shape) options key force c) = Rejected TypeError.
Proof.
  intros Hopen Htruthy Hparse Hnested _.
  rewrite (get_truthy_reply (SObject shape) options key force c Hopen Htruthy).
  unfold sealJsonParser. rewrite Hparse. cbn [bindC].
  unfold fromCompressedArray. rewrite (fromCompressedArrayFrom_nested _ _ _ _ Hnested).
  reflexivity.
Qed.

Lemma get_nested_schema_rejected_witness :
  fst (get schemaB plainOptions "x" false nestedRowClient) = Rejected TypeError.
Proof.
  apply (get_nested_schema_rejected (shapeOf schemaB) plainOptions "x" false nestedRowClient
           [VArr [VNum 1; VNum 2]; VBool true]).
  - reflexivity.
  - reflexivity.
  - vm_compute. reflexivity.
  - reflexivity.
  - intros field nested [<- | [<- | []]]; simpl.
    + intros [<- | [<- | []]]; discriminate.
    + intros [].
Defined.

(** ** Arrays under the other schemas *)

Lemma serializeNested_identity (template : Schema) (v : JsValue) :
  instanceofObjectSchema template = false ->
  isArrayTree v = true ->
  serializeNested (serialize template) v = Normal v.
Proof.
  intros Hother.
  induction v as [| | b | n | s | elems IH | props IH] using JsValue_nested_ind; intros Htree;
    try reflexivity; [| discriminate].
  cbn [serializeNested]. rewrite serialize_unfold. cbn [typeofObject negb].
  rewrite (schemaShapeKeys_other template Hother). cbn [bindC Object_values].
  rewrite (mapC_normal _ (fun v => v)).
  - rewrite List.map_id. reflexivity.
  - intros v Hin. rewrite List.Forall_forall in IH. apply IH; [exact Hin |].
    cbn [isArrayTree] in Htree. rewrite forallb_forall in Htree. apply Htree, Hin.
Qed.

(** X19: arrays under a schema that is not an object schema.  An array that
    holds no record at any depth is encoded as it is, and, on a ready client
    that answers with strings, [get] after [set] resolves to the array as
    [JSON.parse] reads it back, [null] for [undefined], [NaN] and the
    infinities and [0] for [-0], when the template accepts that, and to
    [null] when it does not. *)
Theorem get_after_set_array (template : Schema) (options : ExecutorOptions) (key : string)
    (elems : list JsValue) (force : bool) (c : RedisClient) :
  isReady c 0%nat = true ->
  returnBuffers c = false ->
  instanceofObjectSchema template = false ->
  isArrayTree (VArr elems) = true ->
  isJsValue (VArr elems) = true ->
  serialize template (VArr elems) = Normal (VArr elems) /\
  fst (get template options key force (snd (set template options key (VArr elems) c)))
  = Resolved (match validate template (readBack (VArr elems)) with
              | [] => readBack (VArr elems)
              | _ :: _ => VNull
              end).
Proof.
  intros Hready Htext Hother Htree Hjs.
  assert (Hencoded : serialize template (VArr elems) = Normal (VArr elems)).
  { exact (serializeNested_identity template (VArr elems) Hother Htree). }
  split; [exact Hencoded |].
  rewrite (get_reads_set_text _ _ options options key key _ _ force c Hready Htext Hencoded)
      by (discriminate || reflexivity).
  unfold sealJsonParser. rewrite (parse_stringifyValue _ Hjs). cbn [bindC readBack].
  destruct template as [kind | inner | item | shape]; try discriminate;
    match goal with
    | |- context [validate ?s ?x] => destruct (validate s x); reflexivity
    end.
Qed.

Lemma get_after_set_array_witness :
  serialize (SArray (SArray (SPrimitive PNumber)))
    (VArr [VArr [VNum (NFrac 15 1); VNum NNegZero]; VArr []])
  = Normal (VArr [VArr [VNum (NFrac 15 1); VNum NNegZero]; VArr []]) /\
  fst (get (SArray (SArray (SPrimitive PNumber))) plainOptions "x" false
         (snd (set (SArray (SArray (SPrimitive PNumber))) plainOptions "x"
                 (VArr [VArr [VNum (NFrac 15 1); VNum NNegZero]; VArr []]) readyClient)))
  = Resolved (VArr [VArr [VNum (NFrac 15 1); VNum 0]; VArr []]).
Proof.
  apply (get_after_set_array (SArray (SArray (SPrimitive PNumber))) plainOptions "x"
           [VArr [VNum (NFrac 15 1); VNum NNegZero]; VArr []] false readyClient);
    vm_compute; reflexivity.
Defined.

(** An array of numbers that holds [NaN] is read back with [null] in its
    place, which the number schema refuses: [get] resolves to [null]; under
    a schema of nullable numbers the array is returned with the [null]. *)
Example get_after_set_array_example :
  fst (get (SArray (SPrimitive PNumber)) plainOptions "x" false
         (snd (set (SArray (SPrimitive PNumber)) plainOptions "x"
                 (VArr [VNum 1; VNum NNaN]) readyClient)))
  = Resolved VNull /\
  fst (get (SArray (SNullable (SPrimitive PNumber))) plainOptions "x" false
         (snd (set (SArray (SNullable (SPrimitive PNumber))) plainOptions "x"
                 (VArr [VNum 1; VNum NNaN; VNum (NInfinity false)]) readyClient)))
  = Resolved (VArr [VNum 1; VNull; VNull]).
Proof. vm_compute. split; reflexivity. Qed.

(** ** Random keys *)

Lemma encode_length (bytes : list Byte.byte) :
  String.length (Base64Url.encode bytes) = ((4 * List.length bytes + 2) / 3)%nat.
Proof.
  induction bytes as [| a | a b | a b c bytes IH] using list_ind3.
  - reflexivity.
  - reflexivity.
  - reflexivity.
  - cbn [Base64Url.encode String.length List.length]. rewrite IH.
    replace (4 * S (S (S (List.length bytes))) + 2)%nat
      with ((4 * List.length bytes + 2) + 4 * 3)%nat by lia.
    rewrite Nat.div_add by lia. lia.
Qed.

Lemma group1_inj (a a' : Z) :
  0 <= a < 256 -> 0 <= a' < 256 ->
  let n := a * 16 in
  let n' := a' * 16 in
  Base64Url.sextetChar (n / 64) = Base64Url.sextetChar (n' / 64) ->
  Base64Url.sextetChar (n mod 64) = Base64Url.sextetChar (n' mod 64) ->
  a = a'.
Proof.
  intros Ha Ha' n n' H1 H2.
  apply sextetChar_inj in H1; [| subst n n'; Z.div_mod_to_equations; lia ..].
  apply sextetChar_inj in H2; [| subst n n'; Z.div_mod_to_equations; lia ..].
  subst n n'. Z.div_mod_to_equations. lia.
Qed.

(** The text determines the bytes, whatever their number. *)
Lemma encode_inj (xs ys : list Byte.byte) :
  Base64Url.encode xs = Base64Url.encode ys -> xs = ys.
Proof.
  revert ys. induction xs as [| a | a b | a b c xs IH] using list_ind3;
    intros [| a' [| b' [| c' ys]]] Heq; cbn [Base64Url.encode] in Heq;
    try discriminate Heq; try reflexivity.
  - injection Heq as E1 E2.
    f_equal. apply byteZ_inj. apply group1_inj; try apply byteZ_range; assumption.
  - injection Heq as E1 E2 E3.
    apply group2_inj in E3; try apply byteZ_range; try assumption.
    destruct E3 as (Ha & Hb). apply byteZ_inj in Ha, Hb. congruence.
  - injection Heq as E1 E2 E3 E4 Erest.
    apply group3_inj in E4; try apply byteZ_range; try assumption.
    destruct E4 as (Ha & Hb & Hc). apply byteZ_inj in Ha, Hb, Hc.
    rewrite (IH ys Erest). congruence.
Qed.

(** X20: [randomKey.set(value)].  When [randomBytes(n)] hands out [n]
    bytes and the gate lets the call through, the call resolves to the
    generated key and the store holds a record under the full key of it,
    for a value other than [null] and [undefined].  The key counts
    [(4 n + 2) / 3] characters for [n] configured bytes, 22 when the
    configured count is 0 and the fallback of 16 bytes applies, all of them
    of the URL-safe alphabet. *)
Theorem randomKey_set_stores (template : Schema) (options : ExecutorOptions)
    (randomKeyBytesCount : nat) (randomBytes : nat -> list Byte.byte)
    (value : JsValue) (c : RedisClient) :
  (forall n, List.length (randomBytes n) = n) ->
  gatePromise (waitInitialization c) = Resolved tt ->
  value <> VNull -> value <> VUndefined ->
  let key := RandomKey.key randomKeyBytesCount randomBytes in
  fst (RandomKey.set template options randomKeyBytesCount randomBytes value c) = Resolved key /\
  (exists entry,
     keyspace (snd (RandomKey.set template options randomKeyBytesCount randomBytes value c))
       !! fullKey options key = Some entry) /\
  String.length key
  = (if (randomKeyBytesCount =? 0)%nat then 22
     else (4 * randomKeyBytesCount + 2) / 3)%nat /\
  Forall (fun ch => In ch Base64Url.alphabet) (list_ascii_of_string key).
Proof.
  intros Hbytes Hopen Hnull Hundef key.
  destruct (serialize_defined template value Hnull Hundef) as (encoded & Hencoded & _ & Hdef).
  split; [| split; [| split]].
  - unfold RandomKey.set, set. fold key. open_gate Hopen c'. rewrite Hencoded. cbn [bindC].
    destruct encoded; try congruence; cbn [jsonStringify Json.stringify];
      destruct (ttl options); reflexivity.
  - unfold RandomKey.set, set. fold key. open_gate Hopen c'. rewrite Hencoded. cbn [bindC].
    assert (Htext : jsonStringify encoded = Normal (stringifyValue encoded)).
    { destruct encoded; try reflexivity. congruence. }
    rewrite Htext. destruct (ttl options); cbn [snd Client.setEx Client.set keyspace];
      eexists; apply lookup_insert_eq.
  - unfold key, RandomKey.key, RandomKey.bytesCount. rewrite encode_length, Hbytes.
    destruct (randomKeyBytesCount =? 0)%nat; reflexivity.
  - apply encode_alphabet.
Qed.

Lemma randomKey_set_stores_witness :
  fst (RandomKey.set schemaA plainOptions 0 (fun n => repeat Byte.x41 n)
         (VObj [("userId", VStr "1")]) readyClient)
  = Resolved (RandomKey.key 0 (fun n => repeat Byte.x41 n)) /\
  (exists entry,
     keyspace (snd (RandomKey.set schemaA plainOptions 0 (fun n => repeat Byte.x41 n)
                      (VObj [("userId", VStr "1")]) readyClient))
       !! fullKey plainOptions (RandomKey.key 0 (fun n => repeat Byte.x41 n)) = Some entry) /\
  String.length (RandomKey.key 0 (fun n => repeat Byte.x41 n)) = 22%nat /\
  Forall (fun ch => In ch Base64Url.alphabet)
         (list_ascii_of_string (RandomKey.key 0 (fun n => repeat Byte.x41 n))).
Proof.
  apply (randomKey_set_stores schemaA plainOptions 0 (fun n => repeat Byte.x41 n)
           (VObj [("userId", VStr "1")]) readyClient).
  - intros n. apply List.repeat_length.
  - reflexivity.
  - discriminate.
  - discriminate.
Defined.

(** X21: two generated keys are equal only when the random bytes are: the
    base64url text without padding determines the bytes, whatever their
    number, so that different bytes never give the same key. *)
Theorem randomKey_distinct (count count' : nat) (randomBytes randomBytes' : nat -> list Byte.byte) :
  randomBytes (RandomKey.bytesCount count) <> randomBytes' (RandomKey.bytesCount count') ->
  RandomKey.key count randomBytes <> RandomKey.key count' randomBytes'.
Proof.
  intros Hne Heq. apply Hne. unfold RandomKey.key in Heq. exact (encode_inj _ _ Heq).
Qed.

Lemma randomKey_distinct_witness :
  RandomKey.key 0 (fun n => repeat Byte.x41 n) <> RandomKey.key 0 (fun n => repeat Byte.x42 n).
Proof.
  apply (randomKey_distinct 0 0 (fun n => repeat Byte.x41 n) (fun n => repeat Byte.x42 n)).
  discriminate.
Defined.

(** ** Namespaces seen through [set] and [get] *)

Lemma get_ready (template : Schema) (options : ExecutorOptions) (key : string)
    (force : bool) (c : RedisClient) :
  isReady c 0%nat = true ->
  fst (get template options key force c)
  = if replyTruthy (Client.get (fullKey options key) c)
    then settle (sealJsonParser (replyText (Client.get (fullKey options key) c)) template)
    else if force then Rejected (KeyNotFound key) else Resolved VNull.
Proof.
  intros Hready. unfold get. rewrite (afterGate_ready c _ Hready). cbn zeta.
  destruct (replyTruthy (Client.get (fullKey options key) c)); cbn [negb];
    [| destruct force]; reflexivity.
Qed.

(** [get] after a [set] under another full key answers as before it. *)
Lemma get_after_other_set (template template' : Schema) (options options' : ExecutorOptions)
    (key key' : string) (value : JsValue) (force : bool) (c : RedisClient) :
  isReady c 0%nat = true ->
  fullKey options key <> fullKey options' key' ->
  fst (get template options key force (snd (set template' options' key' value c)))
  = fst (get template options key force c).
Proof.
  intros Hready Hne.
  rewrite (set_ready template' options' key' value c Hready).
  destruct (let* payload := serialize template' value in jsonStringify payload) as [text | e];
    cbn [snd]; [| reflexivity].
  rewrite get_ready by (rewrite stored_ready; exact Hready).
  rewrite (get_ready template options key force c Hready).
  assert (Hreply : forall c2, keyspace c2
                     = <[fullKey options' key' :=
                           {| entryValue := text; entryExpiry := ttl options' |}]> (keyspace c) ->
                   returnBuffers c2 = returnBuffers c ->
                   Client.get (fullKey options key) c2 = Client.get (fullKey options key) c).
  { intros c2 Hks Hbuf. unfold Client.get. rewrite Hks, Hbuf.
    rewrite lookup_insert_ne by congruence. reflexivity. }
  rewrite Hreply; [reflexivity | apply stored_keyspace |].
  destruct (ttl options'); reflexivity.
Qed.

(** X22: two schemas whose namespaces differ and hold no [+] do not see each
    other: on a ready client, [get] through one answers after a [set]
    through the other as it did before, whatever the keys, the templates and
    the value. *)
Theorem namespaces_without_separator_isolate (template template' : Schema)
    (options options' : ExecutorOptions) (key key' : string) (value : JsValue)
    (force : bool) (c : RedisClient) :
  isReady c 0%nat = true ->
  containsChar "+"%char (namespace options) = false ->
  containsChar "+"%char (namespace options') = false ->
  namespace options <> namespace options' ->
  fst (get template options key force (snd (set template' options' key' value c)))
  = fst (get template options key force c).
Proof.
  intros Hready Hns Hns' Hne.
  apply get_after_other_set; [exact Hready |].
  intros Heq. apply Hne. exact (proj1 (fullKey_plus_inj _ _ _ _ Hns Hns' Heq)).
Qed.

Lemma namespaces_without_separator_isolate_witness :
  fst (get schemaA plainOptions "x" false
         (snd (set schemaA {| ttl := None; readOnce := false; namespace := "other" |} "x"
                 (VObj [("userId", VStr "1")]) readyClient)))
  = fst (get schemaA plainOptions "x" false readyClient).
Proof.
  apply (namespaces_without_separator_isolate schemaA schemaA plainOptions
           {| ttl := None; readOnce := false; namespace := "other" |} "x" "x"
           (VObj [("userId", VStr "1")]) false readyClient).
  - reflexivity.
  - reflexivity.
  - reflexivity.
  - discriminate.
Defined.

(** X23: a namespace that holds a [+] reaches into another.  When the
    namespace of the writer is the namespace of the reader followed by [+]
    and [key1], the record that the writer stores under [key2] is the one
    that the reader gets under [key1 + key2]: on a ready client that answers
    with strings, [get] resolves or is rejected as the decoding, under the
    template of the reader, of the text that the writer stored. *)
Theorem namespaces_with_separator_overlap (template template' : Schema)
    (options options' : ExecutorOptions) (key1 key2 : string) (value encoded : JsValue)
    (force : bool) (c : RedisClient) :
  isReady c 0%nat = true ->
  returnBuffers c = false ->
  namespace options' = namespace options +:+ "+" +:+ key1 ->
  serialize template' value = Normal encoded ->
  encoded <> VUndefined ->
  fst (get template options (key1 +:+ "+" +:+ key2) force
         (snd (set template' options' key2 value c)))
  = settle (sealJsonParser (stringifyValue encoded) template).
Proof.
  intros Hready Htext Hns Hencoded Hdefined.
  apply get_reads_set_text; try assumption.
  symmetry. apply fullKey_nested. exact Hns.
Qed.

Lemma namespaces_with_separator_overlap_witness :
  fst (get schemaA plainOptions "a+x" false
         (snd (set schemaA {| ttl := None; readOnce := false; namespace := "ns+a" |} "x"
                 (VObj [("userId", VStr "1"); ("userName", VNull)]) readyClient)))
  = settle (sealJsonParser (stringifyValue (VArr [VStr "1"; VNull])) schemaA).
Proof.
  apply (namespaces_with_separator_overlap schemaA schemaA plainOptions
           {| ttl := None; readOnce := false; namespace := "ns+a" |} "a" "x"
           (VObj [("userId", VStr "1"); ("userName", VNull)]) (VArr [VStr "1"; VNull])
           false readyClient).
  - reflexivity.
  - reflexivity.
  - reflexivity.
  - reflexivity.
  - discriminate.
Defined.
